(** * PortfolioMgmtApp: a shallow embedding of the pure calculation core

    The development follows the Python sources module by module:

    - [PyStr]            the [str] methods the sources call
                         ([upper], [strip], the [in] operator), on
                         ASCII text;
    - [CurrencyMapper]   [utils/currency_mapper.py];
    - [PnlCalculator]    [modules/pnl_calculator.py];
    - [DataAdapter]      [modules/data_adapter.py];
    - [DataLoader]       [modules/data_loader.py];
    - [RiskCalculator]   [modules/risk_calculator.py];
    - [FactorAnalysis]   [modules/factor_analysis.py].

    Numbers.  Python floats are idealised: the P&L, loader and adapter
    code only adds, multiplies, divides and compares, and is modelled over
    the rationals [Q] (so every definition there evaluates); the risk code
    takes square roots and is modelled over the reals [R].  A missing
    value (pandas NaN) is [None] of an [option].  Rounding, overflow and
    underflow of IEEE doubles are outside the model, with one exception:
    the confidence levels of the VaR code, whose dict keys depend on how
    a product rounds, are binary64 floats with the machine's arithmetic
    ([Double]).

    Dictionaries are stdpp [gmap]s with [string] keys. *)

From Stdlib Require Import String Ascii List ZArith NArith QArith Bool Lia.
From Stdlib Require Import Reals Lra Sorted.
From Stdlib Require Lqa.
From Stdlib Require Floats.
From stdpp Require Import base option list gmap strings pretty.

Import ListNotations.

#[local] Open Scope string_scope.
#[local] Open Scope bool_scope.

(** ** Python string primitives *)

Module PyStr.

(** [c.isspace()] for a character of the ASCII range: TAB, LF, VT, FF,
    CR, the four separators FS..US, and SPACE. *)
Definition is_space (c : ascii) : bool :=
  let n := N_of_ascii c in
  ((9 <=? n) && (n <=? 13) || (28 <=? n) && (n <=? 31) || (n =? 32))%N.

Definition is_lower (c : ascii) : bool :=
  let n := N_of_ascii c in ((97 <=? n) && (n <=? 122))%N.

(** [c.upper()]: the letters a..z move to A..Z, everything else stays. *)
Definition upper_char (c : ascii) : ascii :=
  if is_lower c then ascii_of_N (N_of_ascii c - 32) else c.

(** [s.upper()] of ASCII text.  Python's [upper] also moves letters
    outside the ASCII range, which this one leaves where they are. *)
Fixpoint upper (s : string) : string :=
  match s with
  | EmptyString => EmptyString
  | String c s' => String (upper_char c) (upper s')
  end.

(** [s.lstrip()] of ASCII text.  Python's [strip] family also removes
    white space outside the ASCII range, which these leave in place. *)
Fixpoint lstrip (s : string) : string :=
  match s with
  | EmptyString => EmptyString
  | String c s' => if is_space c then lstrip s' else s
  end.

Definition is_empty (s : string) : bool :=
  match s with EmptyString => true | _ => false end.

(** [s.isascii()].  On such text Python's [upper] and [strip] are the
    ones here; outside it they do more (['ß'.upper()] is ['SS'], and
    [strip] removes U+00A0 as white space). *)
Fixpoint is_ascii (s : string) : bool :=
  match s with
  | EmptyString => true
  | String c s' => (N_of_ascii c <? 128)%N && is_ascii s'
  end.

(** [s.rstrip()]: a character goes exactly when it is white space and
    everything after it goes too. *)
Fixpoint rstrip (s : string) : string :=
  match s with
  | EmptyString => EmptyString
  | String c s' =>
      let r := rstrip s' in
      if is_space c && is_empty r then EmptyString else String c r
  end.

(** [s.strip()] *)
Definition strip (s : string) : string := rstrip (lstrip s).

(** [sub in s]: [sub] occurs somewhere in [s] as a contiguous run. *)
Fixpoint contains (sub s : string) : bool :=
  String.prefix sub s
  || match s with
     | EmptyString => false
     | String _ s' => contains sub s'
     end.

(** [s.endswith(suf)], used to state suffix properties. *)
Fixpoint endswith (s suf : string) : bool :=
  String.eqb s suf
  || match s with
     | EmptyString => false
     | String _ s' => endswith s' suf
     end.

(** [any(p(x) for x in xs)] *)
Definition any {A} (p : A -> bool) (xs : list A) : bool := existsb p xs.

(** No full stop occurs in the text. *)
Fixpoint no_dot (s : string) : bool :=
  match s with
  | EmptyString => true
  | String c s' => negb (Ascii.eqb c ".") && no_dot s'
  end.

(** *** Facts about [upper] and [strip] *)

Lemma upper_char_idem (c : ascii) : upper_char (upper_char c) = upper_char c.
Proof. destruct c as [[] [] [] [] [] [] [] []]; reflexivity. Qed.

Lemma is_space_upper_char (c : ascii) :
  is_space (upper_char c) = is_space c.
Proof. destruct c as [[] [] [] [] [] [] [] []]; reflexivity. Qed.

Lemma upper_idem (s : string) : upper (upper s) = upper s.
Proof.
  induction s as [|c s IH]; [reflexivity|].
  cbn. now rewrite upper_char_idem, IH.
Qed.

Lemma is_empty_upper (s : string) : is_empty (upper s) = is_empty s.
Proof. now destruct s. Qed.

Lemma lstrip_upper (s : string) : lstrip (upper s) = upper (lstrip s).
Proof.
  induction s as [|c s IH]; [reflexivity|].
  cbn. rewrite is_space_upper_char. now destruct (is_space c).
Qed.

Lemma rstrip_upper (s : string) : rstrip (upper s) = upper (rstrip s).
Proof.
  induction s as [|c s IH]; [reflexivity|].
  cbn. rewrite is_space_upper_char, IH, is_empty_upper.
  now destruct (is_space c && is_empty (rstrip s)).
Qed.

Lemma strip_upper (s : string) : strip (upper s) = upper (strip s).
Proof. unfold strip. now rewrite lstrip_upper, rstrip_upper. Qed.

(** The text is empty or begins with a character that is not white
    space. *)
Definition starts_clean (s : string) : Prop :=
  match s with
  | EmptyString => True
  | String c _ => is_space c = false
  end.

Lemma lstrip_starts_clean (s : string) : starts_clean (lstrip s).
Proof.
  induction s as [|c s IH]; [exact I|].
  cbn. destruct (is_space c) eqn:E; [exact IH | exact E].
Qed.

Lemma lstrip_clean (s : string) : starts_clean s -> lstrip s = s.
Proof. destruct s as [|c s]; [reflexivity|]. cbn. now intros ->. Qed.

Lemma rstrip_starts_clean (s : string) :
  starts_clean s -> starts_clean (rstrip s).
Proof.
  destruct s as [|c s]; [intros _; exact I|].
  cbn. intros E. rewrite E. exact E.
Qed.

Lemma rstrip_idem (s : string) : rstrip (rstrip s) = rstrip s.
Proof.
  induction s as [|c s IH]; [reflexivity|].
  cbn. destruct (is_space c && is_empty (rstrip s)) eqn:E; [reflexivity|].
  cbn. now rewrite IH, E.
Qed.

Lemma strip_idem (s : string) : strip (strip s) = strip s.
Proof.
  unfold strip. rewrite (lstrip_clean (rstrip (lstrip s))).
  - apply rstrip_idem.
  - apply rstrip_starts_clean, lstrip_starts_clean.
Qed.

(** After [strip] and [upper], in either order, the text is a fixed
    point of both. *)
Lemma upper_strip_fixed (s : string) :
  upper (upper (strip s)) = upper (strip s)
  /\ strip (upper (strip s)) = upper (strip s).
Proof.
  split; [apply upper_idem|]. now rewrite strip_upper, strip_idem.
Qed.

(** *** Texts with a dot-free head *)

Lemma append_cons (c : ascii) (a b : string) :
  String c a ++ b = String c (a ++ b).
Proof. reflexivity. Qed.

Lemma append_empty_r (a : string) : a ++ "" = a.
Proof.
  induction a as [|c a IH]; [reflexivity|]. now rewrite append_cons, IH.
Qed.

Lemma upper_app (a b : string) : upper (a ++ b) = upper a ++ upper b.
Proof.
  induction a as [|c a IH]; [reflexivity|].
  rewrite append_cons. cbn [upper]. now rewrite IH, append_cons.
Qed.

Lemma dot_upper_char (c : ascii) :
  Ascii.eqb (upper_char c) "." = Ascii.eqb c ".".
Proof. destruct c as [[] [] [] [] [] [] [] []]; reflexivity. Qed.

Lemma no_dot_upper (s : string) : no_dot (upper s) = no_dot s.
Proof.
  induction s as [|c s IH]; [reflexivity|].
  cbn. now rewrite dot_upper_char, IH.
Qed.

Lemma no_dot_lstrip (s : string) : no_dot s = true -> no_dot (lstrip s) = true.
Proof.
  induction s as [|c s IH]; [reflexivity|].
  cbn. destruct (is_space c); [|now cbn].
  intros H. apply andb_true_iff in H as [_ H]. now apply IH.
Qed.

Lemma no_dot_rstrip (s : string) : no_dot s = true -> no_dot (rstrip s) = true.
Proof.
  induction s as [|c s IH]; [reflexivity|].
  cbn. intros H. apply andb_true_iff in H as [Hc H].
  destruct (is_space c && is_empty (rstrip s)); [reflexivity|].
  cbn. now rewrite Hc, IH.
Qed.

Lemma lstrip_app_dot (a r : string) :
  lstrip (a ++ String "." r) = lstrip a ++ String "." r.
Proof.
  induction a as [|c a IH]; [reflexivity|].
  rewrite append_cons. cbn [lstrip].
  destruct (is_space c); [exact IH | now rewrite append_cons].
Qed.

Lemma rstrip_app_dot (a r : string) :
  rstrip (a ++ String "." r) = a ++ String "." (rstrip r).
Proof.
  induction a as [|c a IH]; [reflexivity|].
  rewrite !append_cons. cbn [rstrip]. rewrite IH.
  destruct a; rewrite ?append_cons; cbn [is_empty];
    now rewrite andb_false_r.
Qed.

(** A marker that begins with a full stop cannot start inside a dot-free
    head. *)
Lemma contains_dot_free_head (m b s : string) :
  no_dot b = true ->
  contains (String "." m) (b ++ s) = contains (String "." m) s.
Proof.
  induction b as [|c b IH]; [reflexivity|].
  cbn [no_dot]. intros H. apply andb_true_iff in H as [Hc H].
  rewrite append_cons. cbn [contains String.prefix].
  destruct (ascii_dec "." c) as [<- | _]; [discriminate Hc|].
  cbn [orb]. now apply IH.
Qed.

Lemma contains_dot_free (m t : string) :
  no_dot t = true -> contains (String "." m) t = false.
Proof.
  intros H. rewrite <- (append_empty_r t).
  now rewrite contains_dot_free_head.
Qed.

End PyStr.

(** ** utils/currency_mapper.py *)

Module CurrencyMapper.
Import PyStr.

Definition japanese_suffixes : list string := [".T"; ".JP"; ".OS"; ".TS"].

(** The dict [european_mappings], in insertion order (the order in which
    [.items()] yields it). *)
Definition european_mappings : list (string * string) :=
  [ (".AS", "EUR"); (".PA", "EUR"); (".DE", "EUR"); (".MI", "EUR");
    (".MC", "EUR"); (".VI", "EUR"); (".BR", "EUR"); (".LS", "EUR");
    (".HE", "EUR"); (".IC", "EUR") ].

Definition uk_suffixes : list string := [".L"; ".LON"].
Definition canadian_suffixes : list string := [".TO"; ".V"; ".CN"].
Definition chinese_suffixes : list string := [".SS"; ".SZ"].
Definition indian_suffixes : list string := [".NS"; ".BO"].

(** [for suffix, currency in european_mappings.items():
       if suffix in ticker: return currency] *)
Fixpoint first_mapping (ticker : string) (m : list (string * string))
  : option string :=
  match m with
  | [] => None
  | (suffix, currency) :: m' =>
      if contains suffix ticker then Some currency
      else first_mapping ticker m'
  end.

Definition get_currency_from_ticker (ticker : string) : string :=
  let ticker := strip (upper ticker) in
  if any (fun suffix => contains suffix ticker) japanese_suffixes then "JPY"
  else match first_mapping ticker european_mappings with
  | Some currency => currency
  | None =>
  if any (fun suffix => contains suffix ticker) uk_suffixes then "GBP"
  else if contains ".SW" ticker || contains ".VX" ticker then "CHF"
  else if any (fun suffix => contains suffix ticker) canadian_suffixes then "CAD"
  else if contains ".AX" ticker then "AUD"
  else if contains ".HK" ticker then "HKD"
  else if contains ".SI" ticker then "SGD"
  else if any (fun suffix => contains suffix ticker) chinese_suffixes then "CNY"
  else if contains ".KS" ticker || contains ".KQ" ticker then "KRW"
  else if any (fun suffix => contains suffix ticker) indian_suffixes then "INR"
  else if contains ".SA" ticker then "BRL"
  else if contains ".MX" ticker then "MXN"
  else if contains ".JO" ticker then "ZAR"
  else if contains ".ME" ticker then "RUB"
  else if contains ".IS" ticker then "TRY"
  else "USD"
  end.

(** The four spot values of the specification. *)
Example currency_7203_T : get_currency_from_ticker "7203.T" = "JPY".
Proof. reflexivity. Qed.

Example currency_AAPL : get_currency_from_ticker "AAPL" = "USD".
Proof. reflexivity. Qed.

Example currency_ASML_AS : get_currency_from_ticker "ASML.AS" = "EUR".
Proof. reflexivity. Qed.

Example currency_HSBA_L : get_currency_from_ticker "HSBA.L" = "GBP".
Proof. reflexivity. Qed.

(** The suffix table as the specification words it, in its order. *)
Definition suffix_table : list (string * string) :=
  [ (".T", "JPY"); (".JP", "JPY"); (".OS", "JPY"); (".TS", "JPY");
    (".AS", "EUR"); (".PA", "EUR"); (".DE", "EUR"); (".MI", "EUR");
    (".MC", "EUR"); (".VI", "EUR"); (".BR", "EUR"); (".LS", "EUR");
    (".HE", "EUR"); (".IC", "EUR");
    (".L", "GBP"); (".LON", "GBP");
    (".SW", "CHF"); (".VX", "CHF");
    (".TO", "CAD"); (".V", "CAD"); (".CN", "CAD");
    (".AX", "AUD"); (".HK", "HKD"); (".SI", "SGD");
    (".SS", "CNY"); (".SZ", "CNY");
    (".KS", "KRW"); (".KQ", "KRW");
    (".NS", "INR"); (".BO", "INR");
    (".SA", "BRL"); (".MX", "MXN"); (".JO", "ZAR"); (".ME", "RUB");
    (".IS", "TRY") ].

(** A head without a full stop plays no part: every marker begins with a
    full stop, so only the part of the ticker from its first full stop on
    decides. *)
Lemma currency_dot_free_head (base rest : string) :
  no_dot base = true ->
  get_currency_from_ticker (base ++ String "." rest)
  = get_currency_from_ticker (String "." rest).
Proof.
  intros Hb. unfold get_currency_from_ticker.
  assert (E1 : strip (upper (base ++ String "." rest))
               = lstrip (upper base) ++ String "." (rstrip (upper rest))).
  { rewrite upper_app. cbn [upper].
    change (upper_char ".") with "."%char.
    unfold strip. now rewrite lstrip_app_dot, rstrip_app_dot. }
  assert (E2 : strip (upper (String "." rest))
               = String "." (rstrip (upper rest))).
  { unfold strip. cbn [upper].
    change (upper_char ".") with "."%char.
    change (String "." (upper rest)) with ("" ++ String "." (upper rest)).
    now rewrite lstrip_app_dot, rstrip_app_dot. }
  rewrite E1, E2.
  assert (Hh : no_dot (lstrip (upper base)) = true).
  { apply no_dot_lstrip. now rewrite no_dot_upper. }
  generalize dependent (lstrip (upper base)). intros h _ Hh.
  generalize (String "." (rstrip (upper rest))). intros t.
  cbv zeta.
  unfold any, japanese_suffixes, european_mappings, uk_suffixes,
    canadian_suffixes, chinese_suffixes, indian_suffixes.
  cbn [existsb first_mapping].
  now rewrite !(contains_dot_free_head _ h t Hh).
Qed.

(** With a dot-free head, every suffix of the table but [.TO] gets the
    currency the table gives it. *)
Lemma suffix_table_honoured (base suffix currency : string) :
  no_dot base = true -> In (suffix, currency) suffix_table ->
  suffix <> ".TO" ->
  get_currency_from_ticker (base ++ suffix) = currency.
Proof.
  intros Hb Hin Hne. unfold suffix_table in Hin.
  repeat (destruct Hin as [[= <- <-] | Hin];
          [first [contradiction
                 | rewrite (currency_dot_free_head _ _ Hb); reflexivity]|]).
  destruct Hin.
Qed.

(** A ticker without a full stop is a USD ticker. *)
Lemma dot_free_ticker_USD (ticker : string) :
  no_dot ticker = true -> get_currency_from_ticker ticker = "USD".
Proof.
  intros H. unfold get_currency_from_ticker.
  assert (Ht : no_dot (strip (upper ticker)) = true).
  { unfold strip. apply no_dot_rstrip, no_dot_lstrip.
    now rewrite no_dot_upper. }
  generalize dependent (strip (upper ticker)). intros t Ht.
  cbv zeta.
  unfold any, japanese_suffixes, european_mappings, uk_suffixes,
    canadian_suffixes, chinese_suffixes, indian_suffixes.
  cbn [existsb first_mapping].
  now rewrite !(contains_dot_free _ t Ht).
Qed.

(** Every ticker that ends in [.TO] after a dot-free head is a JPY
    ticker for the code. *)
Lemma toronto_tickers_JPY (base : string) :
  no_dot base = true -> get_currency_from_ticker (base ++ ".TO") = "JPY".
Proof. intros Hb. now rewrite (currency_dot_free_head _ _ Hb). Qed.

(** C1 (defect in the code).  The membership tests are [suffix in ticker],
    and the Japanese group, which holds [.T], is tried first: a Toronto
    ticker ends in [.TO], which the Canadian group lists, yet it contains
    [.T] and leaves as JPY, so the CAD row of the table is not honoured
    for it. *)
Theorem toronto_suffix_resolves_to_JPY :
  endswith "RY.TO" ".TO" = true
  /\ In ".TO" canadian_suffixes
  /\ get_currency_from_ticker "RY.TO" = "JPY"
  /\ get_currency_from_ticker "RY.TO" <> "CAD".
Proof.
  split; [reflexivity|]. split; [now left|].
  split; [reflexivity | discriminate].
Qed.

End CurrencyMapper.

(** ** Rational helpers *)

Module QAux.
#[local] Open Scope Q_scope.

(** The comparison [x < y] on floats, as a boolean. *)
Definition Qltb (x y : Q) : bool := negb (Qle_bool y x).

Lemma Qltb_lt (x y : Q) : Qltb x y = true <-> x < y.
Proof.
  unfold Qltb. rewrite negb_true_iff, <- not_true_iff_false, Qle_bool_iff.
  split; [apply Qnot_le_lt | apply Qlt_not_le].
Qed.

Lemma Qltb_nlt (x y : Q) : Qltb x y = false <-> ~ x < y.
Proof. rewrite <- Qltb_lt. destruct (Qltb x y); intuition congruence. Qed.

End QAux.

(** ** modules/pnl_calculator.py *)

Module PnlCalculator.
Import QAux.
#[local] Open Scope Q_scope.

(** The dict that [calculate_pnl] returns. *)
Record pnl_result : Type := mk_pnl_result {
  ticker : string;
  shares : Q;
  avg_cost_jpy : Q;
  current_price_local : Q;
  current_price_jpy : Q;
  exchange_rate : Q;
  current_value_jpy : Q;
  cost_basis_jpy : Q;
  pnl_amount : Q;
  pnl_percentage : Q
}.

(** The body of the [try] block.  On numbers the block cannot raise (the
    only division is guarded by [cost_basis_jpy > 0]), so the [except]
    branch is not reached and is not part of the model. *)
Definition calculate_pnl
    (ticker : string) (shares avg_cost_jpy current_price_local : Q)
    (exchange_rate : Q) : pnl_result :=
  let current_price_jpy := current_price_local * exchange_rate in
  let current_value_jpy := current_price_jpy * shares in
  let cost_basis_jpy := avg_cost_jpy * shares in
  let pnl_amount := current_value_jpy - cost_basis_jpy in
  let pnl_percentage :=
    if Qltb 0 cost_basis_jpy
    then (pnl_amount / cost_basis_jpy) * 100
    else 0 in
  {| ticker := ticker;
     shares := shares;
     avg_cost_jpy := avg_cost_jpy;
     current_price_local := current_price_local;
     current_price_jpy := current_price_jpy;
     exchange_rate := exchange_rate;
     current_value_jpy := current_value_jpy;
     cost_basis_jpy := cost_basis_jpy;
     pnl_amount := pnl_amount;
     pnl_percentage := pnl_percentage |}.

(** [rate_mapping], the currency -> pair-symbol table. *)
Definition rate_mapping : gmap string string :=
  list_to_map
    [ ("USD", "USDJPY=X"); ("EUR", "EURJPY=X"); ("GBP", "GBPJPY=X");
      ("AUD", "AUDJPY=X"); ("CAD", "CADJPY=X"); ("CHF", "CHFJPY=X") ].

(** [fallback_rates], the static approximate rates. *)
Definition fallback_rates : gmap string Q :=
  list_to_map
    [ ("USD", 150); ("EUR", 160); ("GBP", 180); ("AUD", 100);
      ("CAD", 110); ("CHF", 165); ("HKD", 19); ("SGD", 110);
      ("CNY", 21); ("KRW", 11 # 100) ].

(** Truth value of a string in a condition: non-empty. *)
Definition truthy (s : string) : bool := negb (PyStr.is_empty s).

Definition get_exchange_rate_for_currency
    (currency : string) (exchange_rates : gmap string Q) : Q :=
  if String.eqb currency "JPY" then 1
  else
    let fallback := default 1 (fallback_rates !! currency) in
    match rate_mapping !! currency with
    | Some rate_symbol =>
        if truthy rate_symbol then
          match exchange_rates !! rate_symbol with
          | Some rate => rate
          | None => fallback
          end
        else fallback
    | None => fallback
    end.

(** A row of the cleaned portfolio table. *)
Record holding : Type := mk_holding {
  Ticker : string;
  Shares : Q;
  AvgCostJPY : Q
}.

(** [pnl_data] after [pnl_data['currency'] = currency]. *)
Record pnl_row : Type := mk_pnl_row {
  pnl : pnl_result;
  currency : string
}.

(** The loop body of [calculate_portfolio_pnl]. *)
Definition portfolio_pnl_row
    (current_prices exchange_rates : gmap string Q)
    (currency_mapping : gmap string string) (row : holding) : pnl_row :=
  let ticker := Ticker row in
  let shares := Shares row in
  let avg_cost_jpy := AvgCostJPY row in
  let current_price_local := default 0 (current_prices !! ticker) in
  let currency := default "USD" (currency_mapping !! ticker) in
  let exchange_rate :=
    get_exchange_rate_for_currency currency exchange_rates in
  {| pnl := calculate_pnl ticker shares avg_cost_jpy current_price_local
              exchange_rate;
     currency := currency |}.

Definition calculate_portfolio_pnl
    (portfolio_df : list holding)
    (current_prices exchange_rates : gmap string Q)
    (currency_mapping : gmap string string) : list pnl_row :=
  List.map (portfolio_pnl_row current_prices exchange_rates currency_mapping)
    portfolio_df.

(** Currencies the mapper can produce that neither table knows. *)
Definition unpriced_currencies : list string :=
  ["INR"; "BRL"; "MXN"; "ZAR"; "RUB"; "TRY"].

Example pnl_aapl :
  calculate_pnl "AAPL" 100 15000 200 150
  = mk_pnl_result "AAPL" 100 15000 200 (200 * 150) 150
      (200 * 150 * 100) (15000 * 100)
      (200 * 150 * 100 - 15000 * 100)
      ((200 * 150 * 100 - 15000 * 100) / (15000 * 100) * 100).
Proof. reflexivity. Qed.

(** *** Single position *)

Lemma calculate_pnl_equations (t : string) (sh ac p fx : Q) :
  let r := calculate_pnl t sh ac p fx in
  current_price_jpy r == p * fx
  /\ current_value_jpy r == current_price_jpy r * sh
  /\ cost_basis_jpy r == ac * sh
  /\ pnl_amount r == current_value_jpy r - cost_basis_jpy r
  /\ (0 < cost_basis_jpy r ->
      pnl_percentage r == pnl_amount r / cost_basis_jpy r * 100)
  /\ (~ 0 < cost_basis_jpy r -> pnl_percentage r == 0).
Proof.
  cbn. repeat split; try reflexivity.
  - intros H. apply Qltb_lt in H. now rewrite H.
  - intros H. apply Qltb_nlt in H. now rewrite H.
Qed.

Lemma calculate_pnl_zero_price (t : string) (sh ac fx : Q) :
  0 < sh -> 0 < ac ->
  let r := calculate_pnl t sh ac 0 fx in
  pnl_percentage r == - (100) /\ pnl_amount r == - cost_basis_jpy r.
Proof.
  intros Hsh Hac. cbn.
  assert (Hc : 0 < ac * sh) by (apply Qmult_lt_0_compat; assumption).
  pose proof Hc as Hb. apply Qltb_lt in Hb. rewrite Hb.
  split; [field | ring].
  split; intros E; [rewrite E in Hsh | rewrite E in Hac];
    eapply Qlt_irrefl; eassumption.
Qed.

(** C2.  [calculate_pnl] returns the five derived figures by the stated
    formulas; the AAPL position of the specification evaluates to
    30000 / 3,000,000 / 1,500,000 / 1,500,000 / 100; and at a zero local
    price (positive shares and cost) the result is still a record, with
    percentage -100 and amount minus the cost basis. *)
Theorem calculate_pnl_correct :
  (forall (t : string) (sh ac p fx : Q),
      let r := calculate_pnl t sh ac p fx in
      current_price_jpy r == p * fx
      /\ current_value_jpy r == current_price_jpy r * sh
      /\ cost_basis_jpy r == ac * sh
      /\ pnl_amount r == current_value_jpy r - cost_basis_jpy r
      /\ (0 < cost_basis_jpy r ->
          pnl_percentage r == pnl_amount r / cost_basis_jpy r * 100)
      /\ (~ 0 < cost_basis_jpy r -> pnl_percentage r == 0))
  /\ (let r := calculate_pnl "AAPL" 100 15000 200 150 in
      current_price_jpy r == 30000
      /\ current_value_jpy r == 3000000
      /\ cost_basis_jpy r == 1500000
      /\ pnl_amount r == 1500000
      /\ pnl_percentage r == 100)
  /\ (forall (t : string) (sh ac fx : Q),
      0 < sh -> 0 < ac ->
      let r := calculate_pnl t sh ac 0 fx in
      pnl_percentage r == - (100) /\ pnl_amount r == - cost_basis_jpy r).
Proof.
  split; [exact calculate_pnl_equations|].
  split; [|exact calculate_pnl_zero_price].
  cbv zeta. repeat split; reflexivity.
Qed.

Lemma calculate_pnl_correct_witness :
  0 < 100 /\ 0 < 15000
  /\ pnl_percentage (calculate_pnl "AAPL" 100 15000 0 150) == - (100)
  /\ pnl_amount (calculate_pnl "AAPL" 100 15000 0 150) == - (1500000).
Proof.
  assert (H1 : 0 < 100) by reflexivity.
  assert (H2 : 0 < 15000) by reflexivity.
  destruct (proj2 (proj2 calculate_pnl_correct) "AAPL" 100 15000 150 H1 H2)
    as [Hp Ha].
  split; [exact H1|]. split; [exact H2|]. split; [exact Hp | exact Ha].
Defined.

(** *** Exchange-rate resolution *)

Lemma exchange_rate_JPY (rates : gmap string Q) :
  get_exchange_rate_for_currency "JPY" rates = 1.
Proof. reflexivity. Qed.

Lemma exchange_rate_unlisted (c : string) (rates : gmap string Q) :
  rate_mapping !! c = None -> fallback_rates !! c = None ->
  get_exchange_rate_for_currency c rates = 1.
Proof.
  intros Hm Hf. unfold get_exchange_rate_for_currency.
  rewrite Hm, Hf. now destruct (String.eqb c "JPY").
Qed.

Lemma unpriced_currencies_unlisted (c : string) :
  In c unpriced_currencies ->
  rate_mapping !! c = None /\ fallback_rates !! c = None.
Proof.
  unfold unpriced_currencies. cbn.
  intros H; repeat (destruct H as [<- | H]; [split; reflexivity |]);
    contradiction.
Qed.

Lemma unpriced_currencies_producible (c : string) :
  In c unpriced_currencies ->
  exists t, CurrencyMapper.get_currency_from_ticker t = c.
Proof.
  unfold unpriced_currencies. cbn.
  intros [<- | [<- | [<- | [<- | [<- | [<- | []]]]]]].
  - now exists "INFY.NS".
  - now exists "PETR4.SA".
  - now exists "WALMEX.MX".
  - now exists "NPN.JO".
  - now exists "SBER.ME".
  - now exists "THYAO.IS".
Qed.

Lemma portfolio_row_unlisted
    (df : list holding) (prices rates : gmap string Q)
    (cmap : gmap string string) (row : pnl_row) :
  In row (calculate_portfolio_pnl df prices rates cmap) ->
  rate_mapping !! currency row = None ->
  fallback_rates !! currency row = None ->
  exchange_rate (pnl row) = 1
  /\ current_price_jpy (pnl row) == current_price_local (pnl row)
  /\ current_value_jpy (pnl row)
     == current_price_local (pnl row) * shares (pnl row).
Proof.
  unfold calculate_portfolio_pnl. rewrite in_map_iff.
  intros (h & <- & _) Hm Hf. cbn in *.
  rewrite (exchange_rate_unlisted _ rates Hm Hf).
  split; [reflexivity|]. split; ring.
Qed.

(** C10.  The rate is exactly 1 for JPY and for every currency that is in
    neither table, whatever the rates map holds; INR, BRL, MXN, ZAR, RUB
    and TRY are such currencies and the currency mapper produces each of
    them; and [calculate_portfolio_pnl] then reports, for a position in
    such a currency, the local price as the JPY price. *)
Theorem unlisted_currency_priced_at_par :
  (forall rates : gmap string Q,
      get_exchange_rate_for_currency "JPY" rates = 1)
  /\ (forall (c : string) (rates : gmap string Q),
        rate_mapping !! c = None -> fallback_rates !! c = None ->
        get_exchange_rate_for_currency c rates = 1)
  /\ (forall c : string,
        In c ["INR"; "BRL"; "MXN"; "ZAR"; "RUB"; "TRY"] ->
        rate_mapping !! c = None /\ fallback_rates !! c = None
        /\ exists t, CurrencyMapper.get_currency_from_ticker t = c)
  /\ (forall (df : list holding) (prices rates : gmap string Q)
             (cmap : gmap string string) (row : pnl_row),
        In row (calculate_portfolio_pnl df prices rates cmap) ->
        rate_mapping !! currency row = None ->
        fallback_rates !! currency row = None ->
        exchange_rate (pnl row) = 1
        /\ current_price_jpy (pnl row) == current_price_local (pnl row)
        /\ current_value_jpy (pnl row)
           == current_price_local (pnl row) * shares (pnl row)).
Proof.
  split; [exact exchange_rate_JPY|].
  split; [exact exchange_rate_unlisted|].
  split; [|exact portfolio_row_unlisted].
  intros c Hc. destruct (unpriced_currencies_unlisted c Hc) as [Hm Hf].
  split; [exact Hm|]. split; [exact Hf|].
  now apply unpriced_currencies_producible.
Qed.

(** An Indian position, with a full set of live rates supplied. *)
Definition infy_book : list holding := [mk_holding "INFY.NS" 10 2000].
Definition infy_prices : gmap string Q := {[ "INFY.NS" := 1500 ]}.
Definition live_rates : gmap string Q :=
  list_to_map [("USDJPY=X", 150); ("EURJPY=X", 160)].
Definition infy_currencies : gmap string string := {[ "INFY.NS" := "INR" ]}.

Lemma unlisted_currency_priced_at_par_witness :
  let row := portfolio_pnl_row infy_prices live_rates infy_currencies
               (mk_holding "INFY.NS" 10 2000) in
  In row (calculate_portfolio_pnl infy_book infy_prices live_rates
            infy_currencies)
  /\ rate_mapping !! currency row = None
  /\ fallback_rates !! currency row = None
  /\ exchange_rate (pnl row) = 1
  /\ current_price_jpy (pnl row) == 1500.
Proof.
  intros row.
  assert (Hin : In row (calculate_portfolio_pnl infy_book infy_prices
                          live_rates infy_currencies)) by (now left).
  assert (Hm : rate_mapping !! currency row = None) by reflexivity.
  assert (Hf : fallback_rates !! currency row = None) by reflexivity.
  destruct (proj2 (proj2 (proj2 unlisted_currency_priced_at_par))
              _ _ _ _ row Hin Hm Hf) as (Hx & Hp & _).
  split; [exact Hin|]. split; [exact Hm|]. split; [exact Hf|].
  split; [exact Hx|]. rewrite Hp. reflexivity.
Defined.

End PnlCalculator.

(** ** modules/data_adapter.py *)

Module DataAdapter.
Import QAux.
#[local] Open Scope Q_scope.

(** The data bundle handed over by the data manager: the dict entries
    that [validate_data_bundle] requires.  A price history is the list of
    its closing prices, a company-info entry a dict of text fields. *)
Record data_bundle : Type := mk_data_bundle {
  current_prices : gmap string Q;
  exchange_rates : gmap string Q;
  company_info : gmap string (gmap string string);
  historical_prices : gmap string (list Q);
  currency_mapping : gmap string string
}.

(** [self.data_bundle['current_prices'].get(ticker, 0.0)] *)
Definition get_current_price (self : data_bundle) (ticker : string) : Q :=
  default 0 (current_prices self !! ticker).

(** [current_price = ....get(ticker, 0); return current_price > 0] *)
Definition has_sufficient_data (self : data_bundle) (ticker : string)
  : bool :=
  let current_price := default 0 (current_prices self !! ticker) in
  Qltb 0 current_price.

(** C9.  [has_sufficient_data] holds exactly when the current-price map
    has a strictly positive price for the ticker, and the answer is the
    same for any two bundles with that price map, whatever their
    histories, company information, exchange rates or currency map. *)
Theorem has_sufficient_data_iff_positive_price :
  (forall (self : data_bundle) (ticker : string),
      has_sufficient_data self ticker = true
      <-> exists p, current_prices self !! ticker = Some p /\ 0 < p)
  /\ (forall (prices : gmap string Q) (ticker : string)
            (fx fx' : gmap string Q)
            (info info' : gmap string (gmap string string))
            (hist hist' : gmap string (list Q))
            (cur cur' : gmap string string),
        has_sufficient_data (mk_data_bundle prices fx info hist cur) ticker
        = has_sufficient_data (mk_data_bundle prices fx' info' hist' cur')
            ticker).
Proof.
  split; [|reflexivity].
  intros self ticker. unfold has_sufficient_data.
  rewrite Qltb_lt. split.
  - destruct (current_prices self !! ticker) as [p|] eqn:E; cbn.
    + intros H. now exists p.
    + intros H. now apply Qlt_irrefl in H.
  - intros (p & -> & H). exact H.
Qed.

Example priced_ticker_is_sufficient :
  has_sufficient_data
    (mk_data_bundle {[ "AAPL" := 200; "DEAD" := 0 ]} ∅ ∅ ∅ ∅) "AAPL" = true
  /\ has_sufficient_data
    (mk_data_bundle {[ "AAPL" := 200; "DEAD" := 0 ]} ∅ ∅ ∅ ∅) "DEAD" = false
  /\ has_sufficient_data
    (mk_data_bundle {[ "AAPL" := 200; "DEAD" := 0 ]} ∅ ∅ ∅ ∅) "MSFT" = false.
Proof. repeat split; reflexivity. Qed.

End DataAdapter.

(** ** modules/data_loader.py *)

Module DataLoader.
Import QAux PyStr.
#[local] Open Scope Q_scope.

(** *** Tables

    A cell of a pandas table is missing (NaN / None), a number or a text.
    A table is its column labels and its rows, each row holding one cell
    per column in label order; a cell beyond the end of a short row reads
    as missing. *)
Inductive cell : Type :=
| CNull
| CNum (q : Q)
| CStr (s : string).

Record DataFrame : Type := mk_df {
  columns : list string;
  rows : list (list cell)
}.

Definition is_null (c : cell) : bool :=
  match c with CNull => true | _ => false end.

Definition is_nil {A} (l : list A) : bool :=
  match l with [] => true | _ => false end.

(** Position of a label among the columns. *)
Fixpoint col_index (name : string) (cols : list string) : option nat :=
  match cols with
  | [] => None
  | c :: cs =>
      if String.eqb c name then Some O
      else match col_index name cs with
           | Some j => Some (S j)
           | None => None
           end
  end.

Definition cell_at (j : nat) (row : list cell) : cell :=
  default CNull (row !! j).

(** [name in df.columns] *)
Definition has_column (df : DataFrame) (name : string) : bool :=
  existsb (String.eqb name) (columns df).

(** [df[name]], where the label exists. *)
Definition column (df : DataFrame) (name : string) : option (list cell) :=
  match col_index name (columns df) with
  | Some j => Some (List.map (cell_at j) (rows df))
  | None => None
  end.

(** [df.empty]: one of the two axes has length zero. *)
Definition empty (df : DataFrame) : bool :=
  is_nil (columns df) || is_nil (rows df).

(** [pd.api.types.is_numeric_dtype(col)].  The dtype is the one pandas
    infers: numeric when every cell is a number or missing, [object] as
    soon as one cell is a text. *)
Definition is_numeric_dtype (col : list cell) : bool :=
  forallb (fun c => match c with CStr _ => false | _ => true end) col.

(** [x <= 0] on a cell of a numeric column; false on NaN. *)
Definition nonpositive (c : cell) : bool :=
  match c with CNum q => Qle_bool q 0 | _ => false end.

(** Equality of cells as [duplicated] sees it: numbers by value, texts by
    content, and two missing cells count as equal. *)
Definition cell_eqb (a b : cell) : bool :=
  match a, b with
  | CNull, CNull => true
  | CNum x, CNum y => Qeq_bool x y
  | CStr s, CStr t => String.eqb s t
  | _, _ => false
  end.

(** [col.duplicated()] with [keep='first']: the flag of a cell says that
    an equal cell came before it. *)
Fixpoint duplicated_from (seen col : list cell) : list bool :=
  match col with
  | [] => []
  | c :: col' =>
      existsb (cell_eqb c) seen :: duplicated_from (c :: seen) col'
  end.

Definition duplicated (col : list cell) : list bool :=
  duplicated_from [] col.

(** [df.loc[mask, name].tolist()] *)
Fixpoint select {A} (mask : list bool) (col : list A) : list A :=
  match mask, col with
  | b :: mask', c :: col' =>
      if b then c :: select mask' col' else select mask' col'
  | _, _ => []
  end.

(** *** Validation *)

(** The messages of [validate_portfolio_data], by kind and payload. *)
Inductive error : Type :=
| MissingColumns (missing : list string)
| EmptyData
| NotNumeric (col : string)
| NotPositive (col : string)
| DuplicateTickers (tickers : list cell)
| NullValues (cols : list string).

Definition required_columns : list string :=
  ["Ticker"; "Shares"; "AvgCostJPY"].

(** [if name in df.columns:
       if not is_numeric_dtype(df[name]): errors.append(...numeric...)
       elif (df[name] <= 0).any():        errors.append(...positive...)] *)
Definition check_positive (df : DataFrame) (name : string) : list error :=
  match column df name with
  | Some col =>
      if negb (is_numeric_dtype col) then [NotNumeric name]
      else if existsb nonpositive col then [NotPositive name]
      else []
  | None => []
  end.

Definition check_duplicates (df : DataFrame) : list error :=
  match column df "Ticker" with
  | Some col =>
      let duplicates := duplicated col in
      if existsb (fun b : bool => b) duplicates
      then [DuplicateTickers (select duplicates col)]
      else []
  | None => []
  end.

(** [df.isnull().any()]: per column, whether it holds a missing cell. *)
Definition null_flags (df : DataFrame) : list bool :=
  List.map (fun j => existsb (fun row => is_null (cell_at j row)) (rows df))
    (seq 0 (length (columns df))).

Definition check_nulls (df : DataFrame) : list error :=
  let flags := null_flags df in
  if existsb (fun b : bool => b) flags then [NullValues (select flags (columns df))] else [].

Definition validate_portfolio_data (df : DataFrame) : bool * list error :=
  let missing_columns :=
    List.filter (fun col => negb (has_column df col)) required_columns in
  let errors :=
    if is_nil missing_columns then []
    else [MissingColumns missing_columns] in
  if empty df then (false, (errors ++ [EmptyData])%list)
  else
    let errors := (errors ++ check_positive df "Shares")%list in
    let errors := (errors ++ check_positive df "AvgCostJPY")%list in
    let errors := (errors ++ check_duplicates df)%list in
    let errors := (errors ++ check_nulls df)%list in
    (is_nil errors, errors).

(** *** Cleaning *)

Section Clean.

(** [str(x)] of a number and the parse that [pd.to_numeric] applies to
    a text ([None] when the text is not a number) are taken as given;
    nothing is assumed of them. *)
Variable str_of_float : Q -> string.
Variable parse_float : string -> option Q.

(** One cell of [col.astype(str)]: a missing cell becomes the text
    [nan]. *)
Definition astype_str (c : cell) : string :=
  match c with
  | CNull => "nan"
  | CNum q => str_of_float q
  | CStr s => s
  end.

(** One cell of [col.astype(str).str.strip().str.upper()]. *)
Definition normalize_ticker (c : cell) : cell :=
  CStr (upper (strip (astype_str c))).

(** One cell of [pd.to_numeric(col, errors='coerce')]. *)
Definition to_numeric (c : cell) : cell :=
  match c with
  | CStr s =>
      match parse_float s with
      | Some q => CNum q
      | None => CNull
      end
  | _ => c
  end.

(** [df[name] = f(df[name])], cell by cell, for the column at [j]. *)
Definition assign_column (j : nat) (f : cell -> cell)
    (rs : list (list cell)) : list (list cell) :=
  List.map (fun row => <[ j := f (cell_at j row) ]> row) rs.

(** A row that [dropna()] keeps: no column is missing in it. *)
Definition row_complete (ncols : nat) (row : list cell) : bool :=
  forallb (fun j => negb (is_null (cell_at j row))) (seq 0 ncols).

Definition dropna (ncols : nat) (rs : list (list cell))
  : list (list cell) :=
  List.filter (row_complete ncols) rs.

(** [drop_duplicates(subset=[key], keep='first')] *)
Fixpoint drop_duplicates_from (j : nat) (seen : list cell)
    (rs : list (list cell)) : list (list cell) :=
  match rs with
  | [] => []
  | row :: rs' =>
      let k := cell_at j row in
      if existsb (cell_eqb k) seen
      then drop_duplicates_from j seen rs'
      else row :: drop_duplicates_from j (k :: seen) rs'
  end.

Definition drop_duplicates (j : nat) (rs : list (list cell))
  : list (list cell) :=
  drop_duplicates_from j [] rs.

(** The table just before [drop_duplicates]: tickers normalised,
    numeric columns coerced, incomplete rows dropped. *)
Definition prepared_rows (jt js ja : nat) (df : DataFrame)
  : list (list cell) :=
  let rs := assign_column jt normalize_ticker (rows df) in
  let rs := assign_column js to_numeric rs in
  let rs := assign_column ja to_numeric rs in
  dropna (length (columns df)) rs.

(** [None] stands for the [KeyError] of a missing column.
    [reset_index(drop=True)] renumbers the rows and leaves the list of
    rows as it is. *)
Definition clean_portfolio_data (df : DataFrame) : option DataFrame :=
  match col_index "Ticker" (columns df),
        col_index "Shares" (columns df),
        col_index "AvgCostJPY" (columns df) with
  | Some jt, Some js, Some ja =>
      Some (mk_df (columns df)
              (drop_duplicates jt (prepared_rows jt js ja df)))
  | _, _, _ => None
  end.

End Clean.

(** *** What the validator reports *)

(** A row whose cell in the column is a number at or below zero. *)
Definition has_nonpositive (col : list cell) : Prop :=
  exists q, In (CNum q) col /\ q <= 0.

(** Two rows carry equal cells in the column. *)
Definition has_duplicate (col : list cell) : Prop :=
  exists l1 c l2 c' l3,
    col = (l1 ++ c :: l2 ++ c' :: l3)%list /\ cell_eqb c' c = true.

Lemma is_nil_false_of_In {A} (x : A) (l : list A) :
  In x l -> is_nil l = false.
Proof. destruct l; [contradiction | reflexivity]. Qed.

Lemma validate_empty (df : DataFrame) :
  empty df = true ->
  fst (validate_portfolio_data df) = false
  /\ In EmptyData (snd (validate_portfolio_data df)).
Proof.
  intros He. unfold validate_portfolio_data. rewrite He. cbn [fst snd].
  split; [reflexivity|]. apply in_or_app. right. now left.
Qed.

(** On a table that is not empty the checks run one after the other and
    each appends to the same list. *)
Lemma validate_nonempty (df : DataFrame) :
  empty df = false ->
  exists missing,
    snd (validate_portfolio_data df)
    = (missing ++ check_positive df "Shares"
         ++ check_positive df "AvgCostJPY"
         ++ check_duplicates df ++ check_nulls df)%list
    /\ fst (validate_portfolio_data df)
       = is_nil (snd (validate_portfolio_data df)).
Proof.
  intros He. unfold validate_portfolio_data. rewrite He. cbn [fst snd].
  match goal with |- context [(?m ++ check_positive _ "Shares")%list] =>
    exists m end.
  rewrite <- !app_assoc. split; reflexivity.
Qed.

Lemma nonpositive_found (col : list cell) :
  has_nonpositive col -> existsb nonpositive col = true.
Proof.
  intros (q & Hin & Hq). apply existsb_exists. exists (CNum q).
  split; [exact Hin|]. cbn. now apply Qle_bool_iff.
Qed.

Lemma has_nonpositive_nonempty (df : DataFrame) (name : string)
    (col : list cell) :
  column df name = Some col -> has_nonpositive col -> empty df = false.
Proof.
  unfold column, empty. intros Hc (q & Hin & _).
  destruct (columns df) as [|c cs]; [discriminate|].
  destruct (col_index name (c :: cs)); [|discriminate].
  injection Hc as <-. destruct (rows df); [contradiction | reflexivity].
Qed.

Lemma check_positive_reports (df : DataFrame) (name : string)
    (col : list cell) :
  column df name = Some col -> has_nonpositive col ->
  (is_numeric_dtype col = true ->
     check_positive df name = [NotPositive name])
  /\ (is_numeric_dtype col = false ->
     check_positive df name = [NotNumeric name]).
Proof.
  intros Hc Hn. unfold check_positive. rewrite Hc.
  split; intros ->; cbn; [|reflexivity].
  now rewrite (nonpositive_found _ Hn).
Qed.

Lemma duplicated_from_app (seen l1 l2 : list cell) :
  duplicated_from seen (l1 ++ l2)
  = (duplicated_from seen l1 ++ duplicated_from (rev l1 ++ seen) l2)%list.
Proof.
  revert seen. induction l1 as [|c l1 IH]; intros seen; [reflexivity|].
  cbn. rewrite IH, <- app_assoc. reflexivity.
Qed.

Lemma duplicate_flagged (col : list cell) :
  has_duplicate col -> existsb (fun b : bool => b) (duplicated col) = true.
Proof.
  intros (l1 & c & l2 & c' & l3 & -> & E). unfold duplicated.
  replace (l1 ++ c :: l2 ++ c' :: l3)%list
    with ((l1 ++ c :: l2) ++ c' :: l3)%list
    by (rewrite <- app_assoc; reflexivity).
  rewrite duplicated_from_app, existsb_app. apply orb_true_iff. right.
  cbn. apply orb_true_iff. left. apply existsb_exists. exists c.
  split; [|exact E]. apply in_or_app. left. apply in_rev.
  rewrite rev_involutive. apply in_or_app. right. now left.
Qed.

Lemma check_duplicates_reports (df : DataFrame) (col : list cell) :
  column df "Ticker" = Some col -> has_duplicate col ->
  check_duplicates df = [DuplicateTickers (select (duplicated col) col)].
Proof.
  intros Hc Hd. unfold check_duplicates. rewrite Hc. cbv zeta.
  now rewrite (duplicate_flagged _ Hd).
Qed.

Lemma has_duplicate_nonempty (df : DataFrame) (col : list cell) :
  column df "Ticker" = Some col -> has_duplicate col -> empty df = false.
Proof.
  unfold column, empty. intros Hc (l1 & c & l2 & c' & l3 & E & _).
  destruct (columns df) as [|x cs]; [discriminate|].
  destruct (col_index "Ticker" (x :: cs)); [|discriminate].
  injection Hc as <-. destruct (rows df); [|reflexivity].
  destruct l1; discriminate.
Qed.

Lemma reported_implies_rejected (df : DataFrame) (e : error) :
  empty df = false ->
  In e (snd (validate_portfolio_data df)) ->
  fst (validate_portfolio_data df) = false.
Proof.
  intros He Hin. destruct (validate_nonempty df He) as (m & _ & ->).
  now apply is_nil_false_of_In with e.
Qed.

Ltac find_error :=
  repeat (apply in_or_app; (left; now left) || right); try now left.

Lemma validate_positive (df : DataFrame) (name : string)
    (col : list cell) :
  name = "Shares" \/ name = "AvgCostJPY" ->
  column df name = Some col -> has_nonpositive col ->
  fst (validate_portfolio_data df) = false
  /\ (is_numeric_dtype col = true ->
      In (NotPositive name) (snd (validate_portfolio_data df)))
  /\ (is_numeric_dtype col = false ->
      In (NotNumeric name) (snd (validate_portfolio_data df))).
Proof.
  intros Hname Hc Hn.
  pose proof (has_nonpositive_nonempty _ _ _ Hc Hn) as He.
  destruct (validate_nonempty df He) as (m & Hs & _).
  destruct (check_positive_reports _ _ _ Hc Hn) as [Hnum Hobj].
  assert (Hin : In (if is_numeric_dtype col then NotPositive name
                    else NotNumeric name)
                  (snd (validate_portfolio_data df))).
  { rewrite Hs. destruct (is_numeric_dtype col).
    - destruct Hname as [-> | ->]; rewrite (Hnum eq_refl); find_error.
    - destruct Hname as [-> | ->]; rewrite (Hobj eq_refl); find_error. }
  split; [eapply reported_implies_rejected; eassumption|].
  split; intros E; rewrite E in Hin; exact Hin.
Qed.

Lemma validate_duplicates (df : DataFrame) (col : list cell) :
  column df "Ticker" = Some col -> has_duplicate col ->
  fst (validate_portfolio_data df) = false
  /\ In (DuplicateTickers (select (duplicated col) col))
       (snd (validate_portfolio_data df)).
Proof.
  intros Hc Hd.
  pose proof (has_duplicate_nonempty _ _ Hc Hd) as He.
  destruct (validate_nonempty df He) as (m & Hs & _).
  assert (Hin : In (DuplicateTickers (select (duplicated col) col))
                  (snd (validate_portfolio_data df))).
  { rewrite Hs, (check_duplicates_reports _ _ Hc Hd). find_error. }
  split; [eapply reported_implies_rejected; eassumption | exact Hin].
Qed.

(** C5, as amended.  An empty table is rejected with the empty-data
    error.  A Shares or AvgCostJPY column with a number at or below zero
    is rejected: with the positive-value error for that column when the
    column is numeric, and with the numeric-type error for it when the
    column holds a text (the sign test is the [elif] of the type test).
    A duplicated ticker is rejected with the duplicate-ticker error.  The
    three implications speak of the one returned list, so the violations
    of a table are reported together. *)
Theorem validate_reports_every_violation :
  (forall df : DataFrame,
      empty df = true ->
      fst (validate_portfolio_data df) = false
      /\ In EmptyData (snd (validate_portfolio_data df)))
  /\ (forall (df : DataFrame) (name : string) (col : list cell),
        name = "Shares" \/ name = "AvgCostJPY" ->
        column df name = Some col -> has_nonpositive col ->
        fst (validate_portfolio_data df) = false
        /\ (is_numeric_dtype col = true ->
            In (NotPositive name) (snd (validate_portfolio_data df)))
        /\ (is_numeric_dtype col = false ->
            In (NotNumeric name) (snd (validate_portfolio_data df))))
  /\ (forall (df : DataFrame) (col : list cell),
        column df "Ticker" = Some col -> has_duplicate col ->
        fst (validate_portfolio_data df) = false
        /\ In (DuplicateTickers (select (duplicated col) col))
             (snd (validate_portfolio_data df))).
Proof.
  split; [exact validate_empty|].
  split; [exact validate_positive | exact validate_duplicates].
Qed.

(** A table with three violations at once: AAPL twice, a negative share
    count and a zero cost. *)
Definition faulty_book : DataFrame :=
  mk_df ["Ticker"; "Shares"; "AvgCostJPY"]
    [ [CStr "AAPL"; CNum (-10); CNum 15000];
      [CStr "MSFT"; CNum 50; CNum 0];
      [CStr "AAPL"; CNum 20; CNum 16000] ].

Example faulty_book_errors :
  validate_portfolio_data faulty_book
  = (false, [ NotPositive "Shares"; NotPositive "AvgCostJPY";
              DuplicateTickers [CStr "AAPL"] ]).
Proof. reflexivity. Qed.

Lemma validate_reports_every_violation_witness :
  column faulty_book "Shares" = Some [CNum (-10); CNum 50; CNum 20]
  /\ has_nonpositive [CNum (-10); CNum 50; CNum 20]
  /\ is_numeric_dtype [CNum (-10); CNum 50; CNum 20] = true
  /\ fst (validate_portfolio_data faulty_book) = false
  /\ In (NotPositive "Shares") (snd (validate_portfolio_data faulty_book)).
Proof.
  assert (Hc : column faulty_book "Shares"
               = Some [CNum (-10); CNum 50; CNum 20]) by reflexivity.
  assert (Hn : has_nonpositive [CNum (-10); CNum 50; CNum 20]).
  { exists (-10). split; [now left | discriminate]. }
  destruct (proj1 (proj2 validate_reports_every_violation)
              faulty_book "Shares" _ (or_introl eq_refl) Hc Hn)
    as (Hok & Hpos & _).
  split; [exact Hc|]. split; [exact Hn|]. split; [reflexivity|].
  split; [exact Hok | exact (Hpos eq_refl)].
Defined.

(** A Shares column that holds a negative number next to a text: the
    column is of object type, the type error is the only report and the
    positive-value error is absent. *)
Definition mixed_book : DataFrame :=
  mk_df ["Ticker"; "Shares"; "AvgCostJPY"]
    [ [CStr "AAPL"; CNum (-10); CNum 15000];
      [CStr "MSFT"; CStr "abc"; CNum 25000] ].

Lemma mixed_column_hides_sign_error :
  empty mixed_book = false
  /\ column mixed_book "Shares" = Some [CNum (-10); CStr "abc"]
  /\ has_nonpositive [CNum (-10); CStr "abc"]
  /\ validate_portfolio_data mixed_book = (false, [NotNumeric "Shares"])
  /\ ~ In (NotPositive "Shares") (snd (validate_portfolio_data mixed_book)).
Proof.
  split; [reflexivity|]. split; [reflexivity|].
  split; [exists (-10); split; [now left | discriminate]|].
  split; [reflexivity|].
  cbn. intros [H | []]. discriminate H.
Qed.

(** *** What the cleaner returns *)

Lemma cell_eqb_refl (c : cell) : cell_eqb c c = true.
Proof. destruct c; cbn; [reflexivity|apply Qeq_bool_refl|apply String.eqb_refl]. Qed.

Lemma cell_eqb_sym (a b : cell) : cell_eqb a b = cell_eqb b a.
Proof.
  destruct a, b; cbn; try reflexivity;
    [apply Qeq_bool_comm | apply String.eqb_sym].
Qed.

Lemma cell_eqb_trans (a b c : cell) :
  cell_eqb a b = true -> cell_eqb b c = true -> cell_eqb a c = true.
Proof.
  destruct a, b, c; cbn; try congruence.
  - apply Qeq_bool_trans.
  - rewrite !String.eqb_eq. congruence.
Qed.

Lemma existsb_false_forall {A} (f : A -> bool) (l : list A) :
  existsb f l = false <-> forall x, In x l -> f x = false.
Proof.
  rewrite <- not_true_iff_false, existsb_exists. split.
  - intros H x Hx. apply not_true_iff_false. intros E. apply H. eauto.
  - intros H (x & Hx & E). rewrite (H x Hx) in E. discriminate.
Qed.

Lemma seen_transfer (a b : cell) (seen : list cell) :
  cell_eqb a b = true ->
  existsb (cell_eqb a) seen = existsb (cell_eqb b) seen.
Proof.
  intros E. induction seen as [|s seen IH]; [reflexivity|].
  cbn. rewrite IH. f_equal.
  destruct (cell_eqb a s) eqn:Ea, (cell_eqb b s) eqn:Eb; try reflexivity.
  - rewrite cell_eqb_sym in E.
    now rewrite (cell_eqb_trans _ _ _ E Ea) in Eb.
  - now rewrite (cell_eqb_trans _ _ _ E Eb) in Ea.
Qed.

Lemma drop_duplicates_from_incl (j : nat) (seen : list cell)
    (rs : list (list cell)) (r : list cell) :
  In r (drop_duplicates_from j seen rs) -> In r rs.
Proof.
  revert seen. induction rs as [|row rs IH]; intros seen; [easy|].
  cbn. destruct (existsb (cell_eqb (cell_at j row)) seen).
  - intros H. right. eapply IH, H.
  - intros [-> | H]; [now left | right; eapply IH, H].
Qed.

Lemma drop_duplicates_from_fresh (j : nat) (seen : list cell)
    (rs : list (list cell)) (r : list cell) :
  In r (drop_duplicates_from j seen rs) ->
  existsb (cell_eqb (cell_at j r)) seen = false.
Proof.
  revert seen. induction rs as [|row rs IH]; intros seen; [easy|].
  cbn. destruct (existsb (cell_eqb (cell_at j row)) seen) eqn:E.
  - apply IH.
  - intros [<- | H]; [exact E|].
    apply IH in H. cbn in H. now apply orb_false_iff in H.
Qed.

Lemma drop_duplicates_from_NoDup (j : nat) (seen : list cell)
    (rs : list (list cell)) :
  List.NoDup (List.map (cell_at j) (drop_duplicates_from j seen rs)).
Proof.
  revert seen. induction rs as [|row rs IH]; intros seen;
    [constructor|].
  cbn. destruct (existsb (cell_eqb (cell_at j row)) seen); [apply IH|].
  cbn. constructor; [|apply IH].
  rewrite in_map_iff. intros (r & Ek & Hr).
  apply drop_duplicates_from_fresh in Hr. cbn in Hr.
  rewrite Ek, cell_eqb_refl in Hr. discriminate.
Qed.

(** The first row that carries a key survives the de-duplication. *)
Lemma drop_duplicates_from_first (j : nat) (seen : list cell)
    (rs : list (list cell)) (r : list cell) :
  In r rs -> existsb (cell_eqb (cell_at j r)) seen = false ->
  exists r1 l1 l2,
    rs = (l1 ++ r1 :: l2)%list
    /\ In r1 (drop_duplicates_from j seen rs)
    /\ cell_eqb (cell_at j r1) (cell_at j r) = true
    /\ forall r', In r' l1 -> cell_eqb (cell_at j r') (cell_at j r) = false.
Proof.
  revert seen. induction rs as [|row rs IH]; intros seen; [easy|].
  intros Hin Hseen.
  destruct (cell_eqb (cell_at j row) (cell_at j r)) eqn:E.
  - exists row, [], rs. split; [reflexivity|]. split.
    + cbn. rewrite (seen_transfer _ _ seen E), Hseen. now left.
    + split; [exact E | intros r' []].
  - destruct Hin as [-> | Hin]; [now rewrite cell_eqb_refl in E|].
    cbn. destruct (existsb (cell_eqb (cell_at j row)) seen).
    + destruct (IH seen Hin Hseen) as (r1 & l1 & l2 & -> & H1 & H2 & H3).
      exists r1, (row :: l1), l2. split; [reflexivity|].
      split; [exact H1|]. split; [exact H2|].
      intros r' [<- | Hr']; [exact E | now apply H3].
    + destruct (IH (cell_at j row :: seen) Hin)
        as (r1 & l1 & l2 & -> & H1 & H2 & H3).
      { cbn. rewrite cell_eqb_sym, E. exact Hseen. }
      exists r1, (row :: l1), l2. split; [reflexivity|].
      split; [now right|]. split; [exact H2|].
      intros r' [<- | Hr']; [exact E | now apply H3].
Qed.

Lemma col_index_lt (name : string) (cols : list string) (j : nat) :
  col_index name cols = Some j -> (j < length cols)%nat.
Proof.
  revert j. induction cols as [|c cs IH]; intros j; [discriminate|].
  cbn. destruct (String.eqb c name).
  - intros [= <-]. lia.
  - destruct (col_index name cs) as [k|]; [|discriminate].
    intros [= <-]. specialize (IH k eq_refl). lia.
Qed.

Lemma col_index_label (name : string) (cols : list string) (j : nat) :
  col_index name cols = Some j -> cols !! j = Some name.
Proof.
  revert j. induction cols as [|c cs IH]; intros j; [discriminate|].
  cbn. destruct (String.eqb c name) eqn:E.
  - intros [= <-]. apply String.eqb_eq in E. now subst.
  - destruct (col_index name cs) as [k|]; [|discriminate].
    intros [= <-]. now apply IH.
Qed.

Lemma col_index_has_column (df : DataFrame) (name : string) :
  has_column df name = true -> is_Some (col_index name (columns df)).
Proof.
  unfold has_column. induction (columns df) as [|c cs IH]; [discriminate|].
  cbn. rewrite String.eqb_sym. destruct (String.eqb c name); [eauto|].
  cbn. intros H. destruct (IH H) as [k ->]. eauto.
Qed.

Lemma row_complete_cell (ncols j : nat) (row : list cell) :
  row_complete ncols row = true -> (j < ncols)%nat ->
  cell_at j row <> CNull.
Proof.
  unfold row_complete. rewrite forallb_forall. intros H Hj E.
  specialize (H j). rewrite E in H. cbn in H.
  assert (false = true); [|discriminate].
  apply H, in_seq. lia.
Qed.

Lemma cell_at_insert_ne (i j : nat) (c : cell) (row : list cell) :
  i <> j -> cell_at j (<[ i := c ]> row) = cell_at j row.
Proof. intros H. unfold cell_at. now rewrite list_lookup_insert_ne. Qed.

Lemma cell_at_insert_eq (j : nat) (c : cell) (row : list cell) :
  cell_at j (<[ j := c ]> row) = c \/ cell_at j (<[ j := c ]> row) = CNull.
Proof.
  unfold cell_at. destruct (decide (j < length row)%nat).
  - left. now rewrite list_lookup_insert_eq.
  - right. rewrite list_insert_ge by lia.
    now rewrite lookup_ge_None_2 by lia.
Qed.

Section CleanFacts.

Variable str_of_float : Q -> string.
Variable parse_float : string -> option Q.

Abbreviation prepared := (prepared_rows str_of_float parse_float).
Abbreviation clean := (clean_portfolio_data str_of_float parse_float).

Lemma prepared_row_complete (jt js ja : nat) (df : DataFrame)
    (r : list cell) (j : nat) :
  In r (prepared jt js ja df) -> (j < length (columns df))%nat ->
  cell_at j r <> CNull.
Proof.
  unfold prepared_rows, dropna. rewrite filter_In. intros [_ Hc] Hj.
  now apply row_complete_cell with (length (columns df)).
Qed.

Lemma prepared_row_ticker (jt js ja : nat) (df : DataFrame)
    (r : list cell) :
  jt <> js -> jt <> ja -> (jt < length (columns df))%nat ->
  In r (prepared jt js ja df) ->
  exists c, cell_at jt r = normalize_ticker str_of_float c.
Proof.
  intros Hs Ha Hlt Hin.
  pose proof (prepared_row_complete _ _ _ _ _ _ Hin Hlt) as Hnn.
  unfold prepared_rows, dropna in Hin. apply filter_In in Hin as [Hin _].
  unfold assign_column in Hin.
  apply in_map_iff in Hin as (r2 & <- & Hin).
  apply in_map_iff in Hin as (r1 & <- & Hin).
  apply in_map_iff in Hin as (r0 & <- & _).
  rewrite !cell_at_insert_ne in Hnn |- * by congruence.
  destruct (cell_at_insert_eq jt
              (normalize_ticker str_of_float (cell_at jt r0)) r0)
    as [E | E]; [eauto | contradiction].
Qed.

Lemma normalize_ticker_fixed (c : cell) :
  exists s, normalize_ticker str_of_float c = CStr s
            /\ upper s = s /\ strip s = s.
Proof.
  unfold normalize_ticker. eexists. split; [reflexivity|].
  apply upper_strip_fixed.
Qed.

(** *** The rows of the cleaned table, from the rows of the input *)

(** A row as the cleaner rewrites it: the ticker trimmed and in upper
    case, the two numeric columns coerced, the other cells as they
    were. *)
Definition cleaned_row (jt js ja : nat) (r : list cell) : list cell :=
  <[ ja := to_numeric parse_float (cell_at ja r) ]>
    (<[ js := to_numeric parse_float (cell_at js r) ]>
       (<[ jt := normalize_ticker str_of_float (cell_at jt r) ]> r)).

(** The tickers of the table, as [astype(str)] gives them, are ASCII
    text: on such text [str.strip] and [str.upper] are those of
    [PyStr]. *)
Definition ascii_tickers (jt : nat) (df : DataFrame) : Prop :=
  forall row, In row (rows df) ->
    is_ascii (astype_str str_of_float (cell_at jt row)) = true.

(** A row without a missing value in the first [ncols] columns. *)
Definition no_missing (ncols : nat) (row : list cell) : Prop :=
  forall j, (j < ncols)%nat -> cell_at j row <> CNull.

Lemma row_complete_no_missing (ncols : nat) (row : list cell) :
  row_complete ncols row = true <-> no_missing ncols row.
Proof.
  unfold row_complete, no_missing. rewrite forallb_forall. split.
  - intros H j Hj E. specialize (H j). rewrite E in H.
    assert (false = true); [|discriminate]. apply H, in_seq. lia.
  - intros H j Hj. apply in_seq in Hj.
    destruct (cell_at j row) eqn:E; try reflexivity.
    exfalso. apply (H j); [lia | exact E].
Qed.

Lemma assign_three (jt js ja : nat) (rs : list (list cell)) :
  jt <> js -> jt <> ja -> js <> ja ->
  assign_column ja (to_numeric parse_float)
    (assign_column js (to_numeric parse_float)
       (assign_column jt (normalize_ticker str_of_float) rs))
  = List.map (cleaned_row jt js ja) rs.
Proof.
  intros Hts Hta Hsa. unfold assign_column. rewrite !List.map_map.
  apply List.map_ext. intros r. unfold cleaned_row.
  rewrite (cell_at_insert_ne js ja) by exact Hsa.
  rewrite (cell_at_insert_ne jt ja) by exact Hta.
  rewrite (cell_at_insert_ne jt js) by exact Hts.
  reflexivity.
Qed.

Lemma prepared_as_filter (jt js ja : nat) (df : DataFrame) :
  jt <> js -> jt <> ja -> js <> ja ->
  prepared jt js ja df
  = List.filter (row_complete (length (columns df)))
      (List.map (cleaned_row jt js ja) (rows df)).
Proof.
  intros Hts Hta Hsa. unfold prepared_rows, dropna.
  now rewrite assign_three.
Qed.

(** The cells of a rewritten row that has no missing value. *)
Lemma cleaned_row_cells (jt js ja ncols : nat) (r : list cell) :
  jt <> js -> jt <> ja -> js <> ja ->
  (jt < ncols)%nat -> (js < ncols)%nat -> (ja < ncols)%nat ->
  no_missing ncols (cleaned_row jt js ja r) ->
  cell_at jt (cleaned_row jt js ja r)
  = normalize_ticker str_of_float (cell_at jt r)
  /\ cell_at js (cleaned_row jt js ja r)
     = to_numeric parse_float (cell_at js r)
  /\ cell_at ja (cleaned_row jt js ja r)
     = to_numeric parse_float (cell_at ja r)
  /\ forall j, j <> jt -> j <> js -> j <> ja ->
       cell_at j (cleaned_row jt js ja r) = cell_at j r.
Proof.
  intros Hts Hta Hsa Ht Hs Ha Hc.
  pose proof (Hc jt Ht) as Nt. pose proof (Hc js Hs) as Ns.
  pose proof (Hc ja Ha) as Na. unfold cleaned_row in *.
  rewrite (cell_at_insert_ne ja jt) in Nt |- * by congruence.
  rewrite (cell_at_insert_ne js jt) in Nt |- * by congruence.
  rewrite (cell_at_insert_ne ja js) in Ns |- * by congruence.
  split.
  { destruct (cell_at_insert_eq jt
                (normalize_ticker str_of_float (cell_at jt r)) r)
      as [E | E]; [exact E | contradiction]. }
  split.
  { destruct (cell_at_insert_eq js
                (to_numeric parse_float (cell_at js r))
                (<[ jt := normalize_ticker str_of_float (cell_at jt r) ]> r))
      as [E | E]; [exact E | contradiction]. }
  split.
  { destruct (cell_at_insert_eq ja
                (to_numeric parse_float (cell_at ja r))
                (<[ js := to_numeric parse_float (cell_at js r) ]>
                   (<[ jt := normalize_ticker str_of_float (cell_at jt r) ]>
                      r)))
      as [E | E]; [exact E | contradiction]. }
  intros j Hjt Hjs Hja.
  rewrite !cell_at_insert_ne by congruence. reflexivity.
Qed.

(** A row stays when no row before it and nothing seen carries its
    key. *)
Lemma drop_duplicates_from_keeps (j : nat) (seen : list cell)
    (l1 l2 : list (list cell)) (r : list cell) :
  existsb (cell_eqb (cell_at j r)) seen = false ->
  (forall r', In r' l1 -> cell_eqb (cell_at j r') (cell_at j r) = false) ->
  In r (drop_duplicates_from j seen (l1 ++ r :: l2)).
Proof.
  revert seen. induction l1 as [|row l1 IH]; intros seen Hseen Hl1.
  - cbn. rewrite Hseen. now left.
  - cbn. destruct (existsb (cell_eqb (cell_at j row)) seen).
    + apply IH; [exact Hseen|]. intros r' Hr'. apply Hl1. now right.
    + right. apply IH.
      * cbn. rewrite cell_eqb_sym, (Hl1 row (or_introl eq_refl)).
        exact Hseen.
      * intros r' Hr'. apply Hl1. now right.
Qed.

Lemma filter_sublist_of {A} (f : A -> bool) (l : list A) :
  sublist (List.filter f l) l.
Proof.
  induction l as [|x l IH]; [constructor|].
  cbn. destruct (f x); now constructor.
Qed.

Lemma drop_duplicates_from_sublist (j : nat) (seen : list cell)
    (rs : list (list cell)) :
  sublist (drop_duplicates_from j seen rs) rs.
Proof.
  revert seen. induction rs as [|row rs IH]; intros seen; [constructor|].
  cbn. destruct (existsb (cell_eqb (cell_at j row)) seen);
    constructor; apply IH.
Qed.

(** C8.  On a table that has the three columns the cleaner returns a
    table (no [KeyError]) with the same columns in which no cell is
    missing, no ticker occurs twice, every ticker is a text that
    [upper] and [strip] leave unchanged, and, of the rows that share a
    ticker once the tickers are normalised and the incomplete rows are
    gone, the first one is the row that stays.  In terms of the rows of
    the input, for tickers of ASCII text: every row returned is an input
    row rewritten (ticker trimmed and in upper case, Shares and
    AvgCostJPY coerced, the other cells untouched); the rows returned
    are in the order of the input; and an input row whose rewritten form
    has no missing value is returned in that form unless an earlier such
    row has the same ticker. *)
Theorem clean_portfolio_data_invariants (df : DataFrame) :
  has_column df "Ticker" = true ->
  has_column df "Shares" = true ->
  has_column df "AvgCostJPY" = true ->
  exists df' jt js ja,
    clean df = Some df'
    /\ columns df' = columns df
    /\ col_index "Ticker" (columns df) = Some jt
    /\ col_index "Shares" (columns df) = Some js
    /\ col_index "AvgCostJPY" (columns df) = Some ja
    /\ (forall row j, In row (rows df') ->
          (j < length (columns df'))%nat -> cell_at j row <> CNull)
    /\ List.NoDup (List.map (cell_at jt) (rows df'))
    /\ (forall row, In row (rows df') ->
          exists s, cell_at jt row = CStr s
                    /\ upper s = s /\ strip s = s)
    /\ (forall row, In row (rows df') -> In row (prepared jt js ja df))
    /\ (forall r, In r (prepared jt js ja df) ->
          exists r1 l1 l2,
            prepared jt js ja df = (l1 ++ r1 :: l2)%list
            /\ In r1 (rows df')
            /\ cell_at jt r1 = cell_at jt r
            /\ forall r', In r' l1 -> cell_at jt r' <> cell_at jt r)
    /\ (ascii_tickers jt df ->
        (forall row, In row (rows df') ->
           exists r,
             In r (rows df)
             /\ row = cleaned_row jt js ja r
             /\ cell_at jt row
                = normalize_ticker str_of_float (cell_at jt r)
             /\ cell_at js row = to_numeric parse_float (cell_at js r)
             /\ cell_at ja row = to_numeric parse_float (cell_at ja r)
             /\ forall j, j <> jt -> j <> js -> j <> ja ->
                  cell_at j row = cell_at j r)
        /\ sublist (rows df') (List.map (cleaned_row jt js ja) (rows df))
        /\ (forall l1 r l2,
              rows df = (l1 ++ r :: l2)%list ->
              no_missing (length (columns df)) (cleaned_row jt js ja r) ->
              (forall r', In r' l1 ->
                 no_missing (length (columns df))
                   (cleaned_row jt js ja r') ->
                 cell_at jt (cleaned_row jt js ja r')
                 <> cell_at jt (cleaned_row jt js ja r)) ->
              In (cleaned_row jt js ja r) (rows df'))).
Proof.
  intros Ht Hs Ha.
  destruct (col_index_has_column _ _ Ht) as [jt Ejt].
  destruct (col_index_has_column _ _ Hs) as [js Ejs].
  destruct (col_index_has_column _ _ Ha) as [ja Eja].
  assert (Hts : jt <> js).
  { intros ->. apply col_index_label in Ejt, Ejs. congruence. }
  assert (Hta : jt <> ja).
  { intros ->. apply col_index_label in Ejt, Eja. congruence. }
  assert (Hsa : js <> ja).
  { intros ->. apply col_index_label in Ejs, Eja. congruence. }
  pose proof (col_index_lt _ _ _ Ejt) as Hlt.
  pose proof (col_index_lt _ _ _ Ejs) as Hls.
  pose proof (col_index_lt _ _ _ Eja) as Hla.
  exists (mk_df (columns df)
            (drop_duplicates jt (prepared jt js ja df))), jt, js, ja.
  unfold clean_portfolio_data. rewrite Ejt, Ejs, Eja. cbn [columns rows].
  assert (Hsub : forall row,
             In row (drop_duplicates jt (prepared jt js ja df)) ->
             In row (prepared jt js ja df))
    by (intros row; apply drop_duplicates_from_incl).
  repeat (split; [reflexivity|]).
  split; [|split; [|split; [|split; [|split; [|intros _; split; [|split]]]]]].
  - intros row j Hin Hj.
    eapply prepared_row_complete; [apply Hsub, Hin | exact Hj].
  - apply drop_duplicates_from_NoDup.
  - intros row Hin.
    destruct (prepared_row_ticker jt js ja df row Hts Hta Hlt
                (Hsub _ Hin)) as [c ->].
    apply normalize_ticker_fixed.
  - exact Hsub.
  - intros r Hr.
    destruct (drop_duplicates_from_first jt [] _ r Hr eq_refl)
      as (r1 & l1 & l2 & E & H1 & H2 & H3).
    exists r1, l1, l2. split; [exact E|]. split; [exact H1|].
    assert (Hr1 : In r1 (prepared jt js ja df)) by (apply Hsub, H1).
    destruct (prepared_row_ticker jt js ja df r Hts Hta Hlt Hr)
      as [c Ec].
    destruct (prepared_row_ticker jt js ja df r1 Hts Hta Hlt Hr1)
      as [c1 Ec1].
    split.
    + rewrite Ec, Ec1 in H2 |- *. cbn in H2.
      apply String.eqb_eq in H2. unfold normalize_ticker. now rewrite H2.
    + intros r' Hr' E'. specialize (H3 r' Hr').
      rewrite E', cell_eqb_refl in H3. discriminate.
  - intros row Hin. apply Hsub in Hin.
    rewrite (prepared_as_filter jt js ja df Hts Hta Hsa) in Hin.
    apply filter_In in Hin as [Hin Hc].
    apply in_map_iff in Hin as (r & <- & Hr).
    apply row_complete_no_missing in Hc.
    exists r. split; [exact Hr|]. split; [reflexivity|].
    now apply (cleaned_row_cells jt js ja (length (columns df))).
  - rewrite (prepared_as_filter jt js ja df Hts Hta Hsa).
    etransitivity; [apply drop_duplicates_from_sublist|].
    apply filter_sublist_of.
  - intros l1 r l2 Erows Hc Hfirst.
    rewrite (prepared_as_filter jt js ja df Hts Hta Hsa), Erows.
    rewrite List.map_app, List.filter_app. cbn [List.map List.filter].
    rewrite (proj2 (row_complete_no_missing _ _) Hc).
    apply drop_duplicates_from_keeps; [reflexivity|].
    intros r' Hr'. apply filter_In in Hr' as [Hr' Hc'].
    apply in_map_iff in Hr' as (r0 & <- & Hr0).
    apply row_complete_no_missing in Hc'.
    specialize (Hfirst r0 Hr0 Hc').
    destruct (cleaned_row_cells jt js ja _ r0 Hts Hta Hsa Hlt Hls Hla Hc')
      as (Et0 & _).
    destruct (cleaned_row_cells jt js ja _ r Hts Hta Hsa Hlt Hls Hla Hc)
      as (Et & _).
    rewrite Et0, Et in Hfirst |- *. unfold normalize_ticker in *.
    cbn [cell_eqb]. apply String.eqb_neq. congruence.
Qed.

End CleanFacts.

(** A raw table: padded lower-case tickers, a share count that is not a
    number, and MSFT twice once the tickers are normalised. *)
Definition raw_book : DataFrame :=
  mk_df ["Ticker"; "Shares"; "AvgCostJPY"]
    [ [CStr " aapl "; CNum 100; CNum 15000];
      [CStr "msft"; CNum 50; CNum 25000];
      [CStr "7203.t"; CStr "many"; CNum 800];
      [CStr "MSFT "; CNum 70; CNum 26000] ].

Definition no_parse (s : string) : option Q := None.
Definition show_zero (q : Q) : string := "0".

Example clean_raw_book :
  clean_portfolio_data show_zero no_parse raw_book
  = Some (mk_df ["Ticker"; "Shares"; "AvgCostJPY"]
            [ [CStr "AAPL"; CNum 100; CNum 15000];
              [CStr "MSFT"; CNum 50; CNum 25000] ]).
Proof. reflexivity. Qed.

Lemma no_missing_three (row : list cell) :
  cell_at 0 row <> CNull -> cell_at 1 row <> CNull ->
  cell_at 2 row <> CNull -> no_missing 3 row.
Proof.
  intros H0 H1 H2 [|[|[|j]]] Hj; try assumption. lia.
Qed.

Lemma clean_portfolio_data_invariants_witness :
  has_column raw_book "Ticker" = true
  /\ has_column raw_book "Shares" = true
  /\ has_column raw_book "AvgCostJPY" = true
  /\ ascii_tickers show_zero 0 raw_book
  /\ exists df' jt,
      clean_portfolio_data show_zero no_parse raw_book = Some df'
      /\ List.NoDup (List.map (cell_at jt) (rows df'))
      /\ In [CStr "AAPL"; CNum 100; CNum 15000] (rows df')
      /\ In [CStr "MSFT"; CNum 50; CNum 25000] (rows df').
Proof.
  assert (Ht : has_column raw_book "Ticker" = true) by reflexivity.
  assert (Hs : has_column raw_book "Shares" = true) by reflexivity.
  assert (Ha : has_column raw_book "AvgCostJPY" = true) by reflexivity.
  destruct (clean_portfolio_data_invariants show_zero no_parse raw_book
              Ht Hs Ha)
    as (df' & jt & js & ja & Hc & _ & Ejt & Ejs & Eja & _ & Hn & _ & _ & _
        & Hrows).
  injection Ejt as <-. injection Ejs as <-. injection Eja as <-.
  assert (Hascii : ascii_tickers show_zero 0 raw_book).
  { intros row [<- | [<- | [<- | [<- | []]]]]; reflexivity. }
  destruct (Hrows Hascii) as (_ & _ & Hkeep).
  split; [exact Ht|]. split; [exact Hs|]. split; [exact Ha|].
  split; [exact Hascii|].
  exists df', 0%nat. split; [exact Hc|]. split; [exact Hn|]. split.
  - apply (Hkeep [] [CStr " aapl "; CNum 100; CNum 15000]
             [ [CStr "msft"; CNum 50; CNum 25000];
               [CStr "7203.t"; CStr "many"; CNum 800];
               [CStr "MSFT "; CNum 70; CNum 26000] ]).
    + reflexivity.
    + apply no_missing_three; discriminate.
    + intros r' [].
  - apply (Hkeep [ [CStr " aapl "; CNum 100; CNum 15000] ]
             [CStr "msft"; CNum 50; CNum 25000]
             [ [CStr "7203.t"; CStr "many"; CNum 800];
               [CStr "MSFT "; CNum 70; CNum 26000] ]).
    + reflexivity.
    + apply no_missing_three; discriminate.
    + intros r' [<- | []] _. discriminate.
Defined.

End DataLoader.

(** ** modules/factor_analysis.py *)

Module FactorAnalysis.
#[local] Open Scope Q_scope.

(** A date is the ordinal of its day.  A series maps dates to values, a
    table maps dates to rows, one cell per column; a cell may be
    missing. *)
Abbreviation Series := (gmap Z (option Q)).

Record Frame : Type := mk_frame {
  frame_columns : list string;
  frame_rows : gmap Z (list (option Q))
}.

(** One row of [pd.concat([s.rename('Portfolio'), factor_data], axis=1)]:
    the outer join puts a missing cell wherever a side has no entry for
    the date. *)
Definition concat_row (ncols : nat)
    (p : option (option Q)) (f : option (list (option Q)))
  : option (list (option Q)) :=
  match p, f with
  | None, None => None
  | _, _ =>
      Some (default None p :: default (replicate ncols None) f)
  end.

Definition concat_axis1 (portfolio_returns : Series) (factor_data : Frame)
  : Frame :=
  mk_frame ("Portfolio" :: frame_columns factor_data)
    (merge (concat_row (length (frame_columns factor_data)))
       portfolio_returns (frame_rows factor_data)).

Definition row_full (row : list (option Q)) : bool :=
  forallb (fun c : option Q => bool_decide (is_Some c)) row.

(** [df.dropna()] *)
Definition dropna (df : Frame) : Frame :=
  mk_frame (frame_columns df)
    (filter (fun kv => row_full kv.2 = true) (frame_rows df)).

(** [len(df)] *)
Definition len (df : Frame) : nat := size (frame_rows df).

(** [pd.DataFrame()] *)
Definition empty_frame : Frame := mk_frame [] ∅.

Section Rolling.

(** The regression stage that follows the length test (the excess
    return, then statsmodels' [RollingOLS] or the loop over
    [simple_ols_regression]) is taken as given; [None] is an exception
    raised inside it. *)
Variable rolling_regression : Frame -> nat -> option Frame.

Definition calculate_rolling_betas
    (portfolio_returns : Series) (factor_data : Frame) (window : nat)
  : Frame :=
  let df := dropna (concat_axis1 portfolio_returns factor_data) in
  if (len df <? window)%nat then empty_frame
  else match rolling_regression df window with
       | Some rolling_betas => rolling_betas
       | None => empty_frame
       end.

End Rolling.

(** The default of the [window] parameter. *)
Definition default_window : nat := 21.

(** *** The aligned table *)

Lemma aligned_row (portfolio_returns : Series) (factor_data : Frame)
    (d : Z) (row : list (option Q)) :
  frame_rows (dropna (concat_axis1 portfolio_returns factor_data)) !! d
  = Some row
  <-> exists v cells,
      portfolio_returns !! d = Some (Some v)
      /\ row = Some v :: cells
      /\ row_full cells = true
      /\ (frame_rows factor_data !! d = Some cells
          \/ frame_rows factor_data !! d = None
             /\ cells = replicate (length (frame_columns factor_data)) None).
Proof.
  cbn. rewrite map_lookup_filter_Some, lookup_merge. cbn. split.
  - intros [E Hf].
    destruct (portfolio_returns !! d) as [p|] eqn:Ep,
             (frame_rows factor_data !! d) as [cells|] eqn:Ec;
      cbn in E; try discriminate; injection E as <-; cbn in Hf.
    + destruct p as [v|]; [|discriminate]. exists v, cells. auto.
    + destruct p as [v|]; [|discriminate]. eexists v, _. auto 6.
    + discriminate.
  - intros (v & cells & Ep & -> & Hf & [Ec | [Ec ->]]);
      rewrite Ep, Ec; cbn; auto.
Qed.

(** C7.  When the date-aligned, fully populated join has fewer rows than
    the window the result is the empty table, whatever the regression
    stage would compute; at the default window this is: fewer than 21
    rows. *)
Theorem rolling_betas_empty_below_window
    (rolling_regression : Frame -> nat -> option Frame)
    (portfolio_returns : Series) (factor_data : Frame) :
  (len (dropna (concat_axis1 portfolio_returns factor_data)) < 21)%nat ->
  calculate_rolling_betas rolling_regression portfolio_returns factor_data
    default_window
  = empty_frame
  /\ len (calculate_rolling_betas rolling_regression portfolio_returns
            factor_data default_window) = O.
Proof.
  intros H. unfold calculate_rolling_betas, default_window.
  apply Nat.ltb_lt in H. rewrite H. split; reflexivity.
Qed.

(** Three days of portfolio returns against two days of factor data, one
    of them incomplete: one aligned row. *)
Definition short_returns : Series :=
  list_to_map [(1%Z, Some (1 # 100)); (2%Z, Some (2 # 100));
               (3%Z, Some (-1 # 100))].

Definition short_factors : Frame :=
  mk_frame ["Mkt-RF"; "RF"]
    (list_to_map [(1%Z, [Some (1 # 100); Some (1 # 10000)]);
                  (2%Z, [None; Some (1 # 10000)])]).

(** A regression stage that would return one row per input row. *)
Definition echo_regression (df : Frame) (window : nat) : option Frame :=
  Some df.

Lemma rolling_betas_empty_below_window_witness :
  len (dropna (concat_axis1 short_returns short_factors)) = 1%nat
  /\ calculate_rolling_betas echo_regression short_returns short_factors
       default_window = empty_frame.
Proof.
  assert (E : len (dropna (concat_axis1 short_returns short_factors))
              = 1%nat) by (vm_compute; reflexivity).
  split; [exact E|].
  apply (rolling_betas_empty_below_window echo_regression
           short_returns short_factors).
  rewrite E. lia.
Defined.

End FactorAnalysis.

(** ** Python floats as binary64

    A Python float is an IEEE 754 binary64 number.  Where a result of
    the code depends on how a float operation rounds (the integer in a
    dict key), the float and its arithmetic are the machine's, through
    the primitive floats. *)

Module Double.

Abbreviation double := PrimFloat.float.

Definition sub : double -> double -> double := PrimFloat.sub.
Definition mul : double -> double -> double := PrimFloat.mul.

(** [x.as_integer_ratio()], not in lowest terms: a numerator and a
    denominator whose quotient is the float.  [None] for the infinities
    and NaN, where Python raises. *)
Definition as_integer_ratio (x : double) : option (Z * positive) :=
  match FloatOps.Prim2SF x with
  | SpecFloat.S754_zero _ => Some (0%Z, 1%positive)
  | SpecFloat.S754_finite s m e =>
      let n := if s then Z.neg m else Z.pos m in
      Some (match e with
            | Z0 => (n, 1%positive)
            | Zpos p => ((n * Z.pos (2 ^ p))%Z, 1%positive)
            | Zneg p => (n, (2 ^ p)%positive)
            end)
  | SpecFloat.S754_infinity _ | SpecFloat.S754_nan => None
  end.

(** The real number that a finite float is. *)
Definition value (x : double) : option R :=
  match as_integer_ratio x with
  | Some (n, d) => Some (IZR n / IZR (Z.pos d))%R
  | None => None
  end.

(** [int(x)]: truncation towards zero; [None] where [int] raises
    ([OverflowError] for an infinity, [ValueError] for NaN). *)
Definition int (x : double) : option Z :=
  match as_integer_ratio x with
  | Some (n, d) => Some (Z.quot n (Z.pos d))
  | None => None
  end.

(** The floats of some literals of the sources and of the examples:
    [d0_95] is what Python reads [0.95] as, the binary64 number nearest
    to it. *)
Module Lit.
Import PrimFloat.
Definition d1 : double := 1%float.
Definition d100 : double := 100%float.
#[warnings="-inexact-float"]
Definition d0_28 : double := 0.28%float.
#[warnings="-inexact-float"]
Definition d0_29 : double := 0.29%float.
End Lit.

End Double.

(** ** modules/risk_calculator.py *)

Module RiskCalculator.
#[local] Open Scope R_scope.

(** *** Floats with NaN

    A float is a real number or NaN ([None]).  Arithmetic carries NaN
    along, comparisons with NaN are false. *)
Abbreviation float := (option R).

Definition fadd (a b : float) : float :=
  match a, b with Some x, Some y => Some (x + y) | _, _ => None end.

Definition fmul (a b : float) : float :=
  match a, b with Some x, Some y => Some (x * y) | _, _ => None end.

(** Division; the sources divide only behind a [> 0] test of the
    divisor. *)
Definition fdiv (a b : float) : float :=
  match a, b with Some x, Some y => Some (x / y) | _, _ => None end.

(** [np.sqrt]: NaN below zero. *)
Definition fsqrt (a : float) : float :=
  match a with
  | Some x => if Rlt_dec x 0 then None else Some (sqrt x)
  | None => None
  end.

(** [a > 0] *)
Definition fpos (a : float) : bool :=
  match a with
  | Some x => if Rlt_dec 0 x then true else false
  | None => false
  end.

(** [x <= y] on reals, as a boolean. *)
Definition Rleb (x y : R) : bool := if Rle_dec x y then true else false.

Definition Rsum (xs : list R) : R := fold_right Rplus 0 xs.

(** A sum that carries NaN along ([np.dot], [ndarray.sum]). *)
Definition fsum (xs : list float) : float := fold_right fadd (Some 0) xs.

(** A pandas sum: NaN entries are skipped. *)
Definition sum_skipna (xs : list float) : R := Rsum (omap (fun x => x) xs).

Definition mean (xs : list R) : R := Rsum xs / INR (length xs).

(** *** Series and tables

    A series is the list of its values, NaN allowed.  A table of returns
    is the list of its columns, one per ticker, all over the same dates
    and fully populated. *)
Definition dropna (s : list float) : list R := omap (fun x => x) s.

Definition is_nil {A} (l : list A) : bool :=
  match l with [] => true | _ => false end.

(** [s.isna().all()] *)
Definition isna_all (s : list float) : bool :=
  forallb (fun x : float => match x with None => true | _ => false end) s.

(** Sample variance ([ddof=1]) of the values [xs] and [ys], NaN unless
    there are two observations at least. *)
Definition cov (xs ys : list R) : float :=
  let n := length xs in
  if (n <=? 1)%nat then None
  else Some (Rsum (zip_with (fun a b => (a - mean xs) * (b - mean ys))
                     xs ys)
             / INR (n - 1)).

(** [col.std()] of a fully populated column ([ddof=1]). *)
Definition std_values (xs : list R) : float :=
  let n := length xs in
  if (n <=? 1)%nat then None
  else Some (sqrt (Rsum (List.map (fun a => (a - mean xs) * (a - mean xs))
                           xs)
                   / INR (n - 1))).

(** [s.std()]: NaN entries are skipped. *)
Definition std (s : list float) : float := std_values (dropna s).

(** [returns.cov()] *)
Definition cov_matrix (returns : list (list R)) : list (list float) :=
  List.map (fun xs => List.map (fun ys => cov xs ys) returns) returns.

(** [returns.empty] *)
Definition table_empty (returns : list (list R)) : bool :=
  match returns with
  | [] => true
  | xs :: _ => is_nil xs
  end.

(** [np.dot] of two vectors and of a matrix and a vector, on shapes that
    agree. *)
Definition dot (a b : list float) : float := fsum (zip_with fmul a b).

Definition mat_vec (m : list (list float)) (v : list float) : list float :=
  List.map (fun row => dot row v) m.

Definition to_floats (w : list R) : list float := List.map Some w.

(** [np.zeros_like(weights)] *)
Definition zeros_like (w : list R) : list float :=
  List.map (fun _ => Some 0) w.

(** *** calculate_volatility *)


(** *** calculate_portfolio_risk

    The entries of the result that the statements below use; the
    correlation matrix and the average correlation, which are computed
    from the same table and cannot raise, are left out.  [None] is the
    empty dict: the guard at the top, or the [ValueError] of [np.dot] on
    shapes that do not agree. *)
Record portfolio_risk : Type := mk_portfolio_risk {
  portfolio_volatility : float;
  covariance_matrix : list (list float);
  individual_volatilities : list float;
  weighted_avg_volatility : R;
  diversification_ratio : R
}.

Definition calculate_portfolio_risk
    (returns : list (list R)) (weights : list R) : option portfolio_risk :=
  if table_empty returns || is_nil weights then None
  else if negb (length returns =? length weights)%nat then None
  else
    let w := to_floats weights in
    let daily_cov_matrix := cov_matrix returns in
    let daily_portfolio_variance := dot w (mat_vec daily_cov_matrix w) in
    let daily_portfolio_volatility := fsqrt daily_portfolio_variance in
    let daily_individual_volatilities := List.map std_values returns in
    let weighted_avg_vol :=
      sum_skipna (zip_with fmul daily_individual_volatilities w) in
    let diversification_ratio :=
      match daily_portfolio_volatility with
      | Some v => if Rlt_dec 0 v then weighted_avg_vol / v else 1
      | None => 1
      end in
    Some {| portfolio_volatility := daily_portfolio_volatility;
            covariance_matrix := daily_cov_matrix;
            individual_volatilities := daily_individual_volatilities;
            weighted_avg_volatility := weighted_avg_vol;
            diversification_ratio := diversification_ratio |}.

(** *** calculate_risk_contribution *)

Record risk_contribution_result : Type := mk_risk_contribution {
  rc_weights : list R;
  marginal_risk : list float;
  risk_contribution : list float;
  risk_contribution_pct : list float;
  rc_portfolio_volatility : float
}.

Definition calculate_risk_contribution
    (returns : list (list R)) (weights : list R)
  : option risk_contribution_result :=
  if table_empty returns || is_nil weights then None
  else if negb (length returns =? length weights)%nat then None
  else
    let w := to_floats weights in
    let daily_cov_matrix := cov_matrix returns in
    let daily_portfolio_variance := dot w (mat_vec daily_cov_matrix w) in
    let daily_portfolio_volatility := fsqrt daily_portfolio_variance in
    let marginal_risk :=
      if fpos daily_portfolio_volatility
      then List.map (fun m => fdiv m daily_portfolio_volatility)
             (mat_vec daily_cov_matrix w)
      else zeros_like weights in
    let risk_contribution := zip_with fmul w marginal_risk in
    let risk_contribution_pct :=
      if fpos daily_portfolio_variance
      then List.map
             (fun c => fmul (fdiv c daily_portfolio_variance) (Some 100))
             risk_contribution
      else zeros_like weights in
    Some {| rc_weights := weights;
            marginal_risk := marginal_risk;
            risk_contribution := risk_contribution;
            risk_contribution_pct := risk_contribution_pct;
            rc_portfolio_volatility := daily_portfolio_volatility |}.

(** *** calculate_var_cvar *)

Fixpoint insert_sorted (x : R) (l : list R) : list R :=
  match l with
  | [] => [x]
  | y :: l' => if Rle_dec x y then x :: l else y :: insert_sorted x l'
  end.

(** The ascending order in which [np.percentile] reads the data. *)
Fixpoint sort (l : list R) : list R :=
  match l with
  | [] => []
  | x :: l' => insert_sorted x (sort l')
  end.

(** [np.percentile(xs, q)] with the default linear interpolation between
    the two order statistics around the position [q/100 * (n-1)];
    [None] is the [ValueError] for [q] outside [0, 100].  The one call
    site passes a non-empty [xs]. *)
Definition percentile (xs : list R) (q : R) : option R :=
  if Rle_dec 0 q then
    if Rle_dec q 100 then
      let s := sort xs in
      let n := length s in
      let virtual_index := q / 100 * INR (n - 1) in
      let previous := Z.to_nat (Int_part virtual_index) in
      let next := Nat.min (previous + 1) (n - 1) in
      let gamma := frac_part virtual_index in
      Some (nth previous s 0 + gamma * (nth next s 0 - nth previous s 0))
    else None
  else None.

(** [(1 - confidence) * 100], as the machine computes it. *)
Definition var_percentile (confidence : Double.double) : Double.double :=
  Double.mul (Double.sub Double.Lit.d1 confidence) Double.Lit.d100.

(** [int(confidence*100)], the product as the machine rounds it: 28 for
    the level 0.29.  [None] where [int] raises. *)
Definition label (confidence : Double.double) : option Z :=
  Double.int (Double.mul confidence Double.Lit.d100).

(** [f'VaR_{label}'] and [f'CVaR_{label}'] *)
Definition var_key (label : Z) : string := "VaR_" +:+ pretty label.

Definition cvar_key (label : Z) : string := "CVaR_" +:+ pretty label.

(** [np.percentile(xs, q)] for a float [q]; NaN and the infinities are
    outside [0, 100] and raise like any other [q] outside it.  The
    interpolation itself is done in the reals. *)
Definition percentile_at (xs : list R) (q : Double.double) : option R :=
  match Double.value q with
  | Some q => percentile xs q
  | None => None
  end.

(** [portfolio_returns[portfolio_returns <= var]], the NaN entries of
    which (there are none: a comparison with NaN is false) would be
    skipped by [mean()]. *)
Definition tail_returns (portfolio_returns : list float) (var : R)
  : list R :=
  List.filter (fun x => Rleb x var) (dropna portfolio_returns).

(** [tail_returns.mean() if not tail_returns.empty else var] *)
Definition cvar_of (portfolio_returns : list float) (var : R) : R :=
  let tail := tail_returns portfolio_returns var in
  if is_nil tail then var else mean tail.

(** The loop over the confidence levels; [None] when [np.percentile] or
    [int] raises, which discards what the loop has stored so far. *)
Fixpoint var_cvar_loop (portfolio_returns : list float)
    (confidence_levels : list Double.double) (results : gmap string R)
  : option (gmap string R) :=
  match confidence_levels with
  | [] => Some results
  | confidence :: rest =>
      match percentile_at (dropna portfolio_returns)
              (var_percentile confidence) with
      | None => None
      | Some var =>
          let cvar := cvar_of portfolio_returns var in
          match label confidence with
          | None => None
          | Some l =>
              var_cvar_loop portfolio_returns rest
                (<[ cvar_key l := cvar ]> (<[ var_key l := var ]> results))
          end
      end
  end.

Definition calculate_var_cvar (portfolio_returns : list float)
    (confidence_levels : list Double.double) : gmap string R :=
  if is_nil portfolio_returns || isna_all portfolio_returns then ∅
  else default ∅ (var_cvar_loop portfolio_returns confidence_levels ∅).


(** A level that the loop gets through: its percentile is a number of
    [0, 100] and its label is defined. *)
Definition level_ok (c : Double.double) : Prop :=
  (exists q, Double.value (var_percentile c) = Some q /\ 0 <= q <= 100)
  /\ is_Some (label c).

(** *** Facts about sums *)

Lemma zip_with_diag {A B} (f : A -> A -> B) (xs : list A) :
  zip_with f xs xs = List.map (fun a => f a a) xs.
Proof. induction xs as [|a xs IH]; [reflexivity|]. cbn. now rewrite IH. Qed.

Lemma Rsum_squares_nonneg (m : R) (xs : list R) :
  0 <= Rsum (List.map (fun a => (a - m) * (a - m)) xs).
Proof.
  induction xs as [|a xs IH]; [cbn; lra|].
  change (0 <= (a - m) * (a - m)
               + Rsum (List.map (fun a => (a - m) * (a - m)) xs)).
  pose proof (Rle_0_sqr (a - m)) as H. unfold Rsqr in H. lra.
Qed.

Lemma INR_pred_pos (n : nat) : (n <=? 1)%nat = false -> 0 < INR (n - 1).
Proof.
  intros H. apply Nat.leb_gt in H. apply lt_0_INR. lia.
Qed.

(** *** The diversification ratio *)

Lemma diversification_ratio_formula
    (returns : list (list R)) (weights : list R) (res : portfolio_risk)
    (v : R) :
  calculate_portfolio_risk returns weights = Some res ->
  portfolio_volatility res = Some v -> 0 < v ->
  weighted_avg_volatility res
  = sum_skipna (zip_with fmul (List.map std_values returns)
                  (to_floats weights))
  /\ diversification_ratio res = weighted_avg_volatility res / v.
Proof.
  unfold calculate_portfolio_risk.
  destruct (table_empty returns || is_nil weights); [discriminate|].
  destruct (negb (length returns =? length weights)%nat); [discriminate|].
  intros [= <-]. cbn. intros -> Hv. split; [reflexivity|].
  now destruct (Rlt_dec 0 v).
Qed.

Lemma diversification_ratio_identical (xs : list R) :
  xs <> [] ->
  exists res,
    calculate_portfolio_risk [xs; xs] [1 / 2; 1 / 2] = Some res
    /\ diversification_ratio res = 1.
Proof.
  intros Hne. unfold calculate_portfolio_risk.
  destruct xs as [|x0 xs0] eqn:Exs; [contradiction|]. rewrite <- Exs.
  replace (table_empty [xs; xs]) with false by (now rewrite Exs).
  cbn [is_nil orb length Nat.eqb negb]. eexists. split; [reflexivity|].
  cbn [diversification_ratio].
  unfold cov_matrix, mat_vec, dot, to_floats, std_values, cov.
  cbn [List.map zip_with fsum fold_right].
  rewrite zip_with_diag.
  destruct (length xs <=? 1)%nat eqn:En; [reflexivity|].
  set (c := Rsum (List.map (fun a => (a - mean xs) * (a - mean xs)) xs)
            / INR (length xs - 1)).
  assert (Hc : 0 <= c).
  { unfold c. apply Rmult_le_pos; [apply Rsum_squares_nonneg|].
    left. apply Rinv_0_lt_compat, INR_pred_pos, En. }
  cbn [fmul fadd fsqrt sum_skipna omap Rsum fold_right].
  match goal with |- context [Rlt_dec ?e 0] =>
    replace e with c by lra end.
  destruct (Rlt_dec c 0) as [Hneg | _]; [lra|].
  cbn. destruct (Rlt_dec 0 (sqrt c)) as [Hpos | _]; [|reflexivity].
  field. lra.
Qed.

(** Two tickers over three days; the second moves twice as much. *)
Definition sample_returns : list (list R) := [[0; 2; 4]; [0; 4; 8]].
Definition even_weights : list R := [1 / 2; 1 / 2].

Ltac eval_stat :=
  unfold cov, std_values, mean, Rsum; cbn; f_equal; try field; try lra.

Lemma cov_sample_11 : cov [0; 2; 4] [0; 2; 4] = Some 4.
Proof. eval_stat. Qed.

Lemma cov_sample_12 : cov [0; 2; 4] [0; 4; 8] = Some 8.
Proof. eval_stat. Qed.

Lemma cov_sample_21 : cov [0; 4; 8] [0; 2; 4] = Some 8.
Proof. eval_stat. Qed.

Lemma cov_sample_22 : cov [0; 4; 8] [0; 4; 8] = Some 16.
Proof. eval_stat. Qed.

Lemma sqrt_9 : sqrt 9 = 3.
Proof. replace 9 with (3 * 3) by lra. apply sqrt_square. lra. Qed.

Lemma risk_contribution_sample :
  calculate_risk_contribution sample_returns even_weights
  = Some (mk_risk_contribution [1 / 2; 1 / 2]
            [Some 2; Some 4] [Some 1; Some 2]
            [Some (100 / 9); Some (200 / 9)] (Some 3)).
Proof.
  unfold calculate_risk_contribution, sample_returns, even_weights.
  cbn [table_empty is_nil orb length Nat.eqb negb cov_matrix List.map].
  rewrite cov_sample_11, cov_sample_12, cov_sample_21, cov_sample_22.
  unfold mat_vec, dot, to_floats.
  cbn [List.map zip_with fsum fold_right fmul fadd].
  replace (1 / 2 * (4 * (1 / 2) + (8 * (1 / 2) + 0))
           + (1 / 2 * (8 * (1 / 2) + (16 * (1 / 2) + 0)) + 0))
    with 9 by lra.
  cbn [fsqrt]. destruct (Rlt_dec 9 0) as [H | _]; [lra|].
  rewrite sqrt_9. cbn [fpos].
  destruct (Rlt_dec 0 3) as [_ | H]; [|lra].
  destruct (Rlt_dec 0 9) as [_ | H]; [|lra].
  cbn [List.map zip_with fdiv fmul].
  repeat f_equal; lra.
Qed.

(** *** Risk contribution: the formulas and their sum *)

Lemma fsum_Some (xs : list R) : fsum (List.map Some xs) = Some (Rsum xs).
Proof.
  induction xs as [|x xs IH]; [reflexivity|].
  change (fadd (Some x) (fsum (List.map Some xs)) = Some (x + Rsum xs)).
  now rewrite IH.
Qed.

(** A dot product with a NaN-free vector is a number only if the other
    vector is NaN-free too. *)
Lemma dot_Some_inv (ws : list R) (mv : list float) (var : R) :
  length mv = length ws ->
  dot (to_floats ws) mv = Some var ->
  exists ms, mv = List.map Some ms
             /\ var = Rsum (zip_with Rmult ws ms).
Proof.
  unfold dot, to_floats. revert mv var.
  induction ws as [|w ws IH]; intros [|m mv] var Hlen; try discriminate.
  - intros [= <-]. now exists [].
  - cbn [List.map zip_with fsum fold_right].
    destruct m as [m|]; [|discriminate]. cbn [fmul].
    destruct (fold_right fadd (Some 0) (zip_with fmul (List.map Some ws) mv))
      as [t|] eqn:Et; [|discriminate].
    intros [= <-]. injection Hlen as Hlen.
    destruct (IH mv t Hlen Et) as (ms & -> & ->).
    now exists (m :: ms).
Qed.

Lemma length_mat_vec (m : list (list float)) (v : list float) :
  length (mat_vec m v) = length m.
Proof. apply length_map. Qed.

Lemma zip_marginal (ws ms : list R) (v : R) :
  zip_with fmul (to_floats ws)
    (List.map (fun m => fdiv m (Some v)) (List.map Some ms))
  = List.map Some (zip_with (fun w m => w * (m / v)) ws ms).
Proof.
  revert ms. induction ws as [|w ws IH]; intros [|m ms]; try reflexivity.
  cbn. f_equal. apply IH.
Qed.

Lemma Rsum_pct (ws ms : list R) (v var : R) :
  v <> 0 -> var <> 0 ->
  Rsum (List.map (fun c => c / var * 100)
          (zip_with (fun w m => w * (m / v)) ws ms))
  = Rsum (zip_with Rmult ws ms) / v / var * 100.
Proof.
  intros Hv Hvar. revert ms.
  induction ws as [|w ws IH]; intros [|m ms];
    try (cbn; field; split; assumption).
  cbn [zip_with List.map Rsum fold_right].
  change (fold_right Rplus 0 ?l) with (Rsum l). rewrite IH.
  field. split; assumption.
Qed.

(** Where the portfolio volatility [v] is positive the three vectors
    follow the stated formulas, and the percentages add up to
    [100 / v]. *)
Lemma risk_contribution_formulas
    (returns : list (list R)) (weights : list R)
    (res : risk_contribution_result) (v : R) :
  calculate_risk_contribution returns weights = Some res ->
  rc_portfolio_volatility res = Some v -> 0 < v ->
  exists ms var,
    mat_vec (cov_matrix returns) (to_floats weights) = List.map Some ms
    /\ var = Rsum (zip_with Rmult weights ms) /\ 0 < var /\ v = sqrt var
    /\ marginal_risk res = List.map (fun m => Some (m / v)) ms
    /\ risk_contribution res
       = List.map Some (zip_with (fun w m => w * (m / v)) weights ms)
    /\ risk_contribution_pct res
       = List.map (fun c => Some (c / var * 100))
           (zip_with (fun w m => w * (m / v)) weights ms)
    /\ fsum (risk_contribution_pct res) = Some (100 / v).
Proof.
  unfold calculate_risk_contribution.
  destruct (table_empty returns || is_nil weights); [discriminate|].
  destruct (length returns =? length weights)%nat eqn:El; [|discriminate].
  apply Nat.eqb_eq in El. cbn [negb]. intros [= <-].
  cbn [rc_portfolio_volatility marginal_risk risk_contribution
       risk_contribution_pct].
  set (mv := mat_vec (cov_matrix returns) (to_floats weights)).
  destruct (dot (to_floats weights) mv) as [var|] eqn:Ed; [|discriminate].
  cbn [fsqrt]. destruct (Rlt_dec var 0) as [|Hge]; [discriminate|].
  intros [= <-] Hv.
  assert (Hvar : 0 < var).
  { destruct (Rle_lt_or_eq_dec 0 var) as [H | <-]; [lra | exact H|].
    rewrite sqrt_0 in Hv. lra. }
  destruct (dot_Some_inv weights mv var) as (ms & Ems & Evar).
  { unfold mv. rewrite length_mat_vec. unfold cov_matrix.
    now rewrite length_map. }
  { exact Ed. }
  exists ms, var. rewrite Ems. cbn [fpos].
  destruct (Rlt_dec 0 (sqrt var)) as [_ | H]; [|lra].
  destruct (Rlt_dec 0 var) as [_ | H]; [|lra].
  rewrite zip_marginal, !map_map. cbn [fdiv fmul].
  repeat (split; [first [reflexivity | assumption]|]).
  rewrite <- (map_map (fun c => c / var * 100) Some), fsum_Some.
  rewrite Rsum_pct by lra. rewrite <- Evar. f_equal.
  field. split; lra.
Qed.

(** C3 (defect in the code).  On the sample table, at weights 1/2 and
    1/2, the volatility is 3 and the variance 9; the marginal risks,
    contributions and percentages are the ones the stated formulas give,
    and the percentages add up to 100/3, not to 100: the contributions,
    which add up to the volatility, are divided by the variance. *)
Theorem risk_contribution_pct_sum_sample :
  exists res,
    calculate_risk_contribution sample_returns even_weights = Some res
    /\ rc_portfolio_volatility res = Some 3
    /\ marginal_risk res = [Some (6 / 3); Some (12 / 3)]
    /\ risk_contribution res
       = [Some (1 / 2 * (6 / 3)); Some (1 / 2 * (12 / 3))]
    /\ risk_contribution_pct res
       = [Some (1 / 2 * (6 / 3) / 9 * 100);
          Some (1 / 2 * (12 / 3) / 9 * 100)]
    /\ fsum (risk_contribution res) = Some 3
    /\ fsum (risk_contribution_pct res) = Some (100 / 3)
    /\ fsum (risk_contribution_pct res) <> Some 100.
Proof.
  eexists. split; [apply risk_contribution_sample|].
  cbn [rc_portfolio_volatility marginal_risk risk_contribution
       risk_contribution_pct fsum fold_right fadd].
  split; [reflexivity|].
  split; [repeat f_equal; lra|].
  split; [repeat f_equal; lra|].
  split; [repeat f_equal; lra|].
  split; [f_equal; lra|].
  split; [f_equal; lra|].
  intros [= H]. lra.
Qed.

(** *** The diversification ratio, summed up *)

Lemma sqrt_4 : sqrt 4 = 2.
Proof. replace 4 with (2 * 2) by lra. apply sqrt_square. lra. Qed.

(** Two tickers over three days; the second falls while the first
    rises. *)
Definition crossed_returns : list (list R) := [[0; 2; 4]; [4; 0; 2]].

Lemma cov_crossed_11 : cov [0; 2; 4] [0; 2; 4] = Some 4.
Proof. eval_stat. Qed.

Lemma cov_crossed_12 : cov [0; 2; 4] [4; 0; 2] = Some (- 2).
Proof. eval_stat. Qed.

Lemma cov_crossed_21 : cov [4; 0; 2] [0; 2; 4] = Some (- 2).
Proof. eval_stat. Qed.

Lemma cov_crossed_22 : cov [4; 0; 2] [4; 0; 2] = Some 4.
Proof. eval_stat. Qed.

Lemma std_crossed_1 : std_values [0; 2; 4] = Some 2.
Proof.
  unfold std_values, mean, Rsum. cbn. f_equal.
  transitivity (sqrt 4); [f_equal; field | exact sqrt_4].
Qed.

Lemma std_crossed_2 : std_values [4; 0; 2] = Some 2.
Proof.
  unfold std_values, mean, Rsum. cbn. f_equal.
  transitivity (sqrt 4); [f_equal; field | exact sqrt_4].
Qed.

(** What the entries of the result are, whatever the table. *)
Lemma portfolio_risk_entries
    (returns : list (list R)) (weights : list R) (res : portfolio_risk) :
  calculate_portfolio_risk returns weights = Some res ->
  covariance_matrix res
  = List.map (fun xs => List.map (fun ys => cov xs ys) returns) returns
  /\ portfolio_volatility res
     = fsqrt (dot (to_floats weights)
                (mat_vec (covariance_matrix res) (to_floats weights)))
  /\ individual_volatilities res = List.map std_values returns
  /\ weighted_avg_volatility res
     = sum_skipna (zip_with fmul (individual_volatilities res)
                     (to_floats weights))
  /\ (forall v, portfolio_volatility res = Some v -> 0 < v ->
        diversification_ratio res = weighted_avg_volatility res / v)
  /\ (fpos (portfolio_volatility res) = false ->
      diversification_ratio res = 1).
Proof.
  unfold calculate_portfolio_risk.
  destruct (table_empty returns || is_nil weights); [discriminate|].
  destruct (negb (length returns =? length weights)%nat); [discriminate|].
  intros [= <-].
  cbn [covariance_matrix portfolio_volatility individual_volatilities
       weighted_avg_volatility diversification_ratio].
  repeat (split; [reflexivity|]). split.
  - intros v -> Hv. now destruct (Rlt_dec 0 v).
  - destruct (fsqrt _) as [v|]; [|reflexivity]. cbn [fpos].
    now destruct (Rlt_dec 0 v).
Qed.

(** A table with a row and a column, and as many weights as columns,
    gets a result. *)
Lemma portfolio_risk_returned (returns : list (list R)) (weights : list R) :
  table_empty returns = false -> length returns = length weights ->
  is_Some (calculate_portfolio_risk returns weights).
Proof.
  intros Ht Hl. unfold calculate_portfolio_risk. rewrite Ht, Hl.
  destruct weights as [|w ws].
  - destruct returns; [discriminate Ht | discriminate Hl].
  - cbn [is_nil orb]. rewrite Nat.eqb_refl. cbn [negb]. eauto.
Qed.

(** Two identical columns of positive standard deviation: the portfolio
    volatility and the weighted average volatility are both that
    standard deviation, and the ratio 1 is their quotient. *)
Lemma twin_quotient (xs : list R) (sd : R) :
  std_values xs = Some sd -> 0 < sd ->
  exists res,
    calculate_portfolio_risk [xs; xs] [1 / 2; 1 / 2] = Some res
    /\ portfolio_volatility res = Some sd
    /\ weighted_avg_volatility res = sd
    /\ diversification_ratio res = weighted_avg_volatility res / sd
    /\ diversification_ratio res = 1.
Proof.
  intros Hsd Hpos. unfold calculate_portfolio_risk.
  assert (Hne : table_empty [xs; xs] = false).
  { destruct xs; [discriminate Hsd | reflexivity]. }
  rewrite Hne. cbn [is_nil orb length Nat.eqb negb].
  eexists. split; [reflexivity|].
  cbn [portfolio_volatility weighted_avg_volatility diversification_ratio].
  unfold cov_matrix, mat_vec, dot, to_floats.
  cbn [List.map zip_with fsum fold_right].
  rewrite Hsd. unfold cov. rewrite zip_with_diag.
  unfold std_values in Hsd.
  destruct (length xs <=? 1)%nat eqn:En; [discriminate|].
  injection Hsd as Hsd.
  set (c := Rsum (List.map (fun a => (a - mean xs) * (a - mean xs)) xs)
            / INR (length xs - 1)) in *.
  assert (Hc : 0 <= c).
  { unfold c. apply Rmult_le_pos; [apply Rsum_squares_nonneg|].
    left. apply Rinv_0_lt_compat, INR_pred_pos, En. }
  cbn [fmul fadd fsqrt sum_skipna omap Rsum fold_right].
  match goal with |- context [Rlt_dec ?e 0] =>
    replace e with c by lra end.
  destruct (Rlt_dec c 0) as [Hneg | _]; [lra|].
  rewrite Hsd. destruct (Rlt_dec 0 sd) as [_ | H]; [|contradiction].
  change (foldr Rplus 0 (list_omap _ _ (fun x => x)
            [Some (sd * (1 / 2)); Some (sd * (1 / 2))]))
    with (sd * (1 / 2) + (sd * (1 / 2) + 0)).
  repeat split; try reflexivity; [lra|]. field. lra.
Qed.

(** The crossed table at even weights: the ratio is 2, the quotient of
    the weighted average volatility 2 and the portfolio volatility 1. *)
Lemma portfolio_risk_crossed :
  calculate_portfolio_risk crossed_returns even_weights
  = Some {| portfolio_volatility := Some 1;
            covariance_matrix := [[Some 4; Some (- 2)];
                                  [Some (- 2); Some 4]];
            individual_volatilities := [Some 2; Some 2];
            weighted_avg_volatility := 2;
            diversification_ratio := 2 |}.
Proof.
  unfold calculate_portfolio_risk, crossed_returns, even_weights.
  cbn [table_empty is_nil orb length Nat.eqb negb cov_matrix List.map].
  rewrite cov_crossed_11, cov_crossed_12, cov_crossed_21, cov_crossed_22,
    std_crossed_1, std_crossed_2.
  unfold mat_vec, dot, to_floats.
  cbn [List.map zip_with fsum fold_right fmul fadd sum_skipna omap Rsum].
  replace (1 / 2 * (4 * (1 / 2) + (- 2 * (1 / 2) + 0))
           + (1 / 2 * (- 2 * (1 / 2) + (4 * (1 / 2) + 0)) + 0))
    with 1 by lra.
  change (foldr Rplus 0 (list_omap _ _ (fun x => x)
            [Some (2 * (1 / 2)); Some (2 * (1 / 2))]))
    with (2 * (1 / 2) + (2 * (1 / 2) + 0)).
  cbn [fsqrt]. destruct (Rlt_dec 1 0) as [H | _]; [lra|].
  rewrite sqrt_1. destruct (Rlt_dec 0 1) as [_ | H]; [|lra].
  f_equal. f_equal; lra.
Qed.

(** C6.  A table with a row and a column and as many weights as columns
    gets a result.  In a result the covariance matrix holds the sample
    covariances of the columns, the portfolio volatility is the square
    root of the weights' quadratic form in it, the individual
    volatilities are the columns' sample standard deviations and the
    weighted average volatility is their weighted sum.  Where the
    portfolio volatility is a positive number the ratio is the weighted
    average volatility divided by it, and where it is not, the ratio is
    1.  Two identical, non-empty columns at weights 1/2 and 1/2 give
    exactly 1, and with a positive standard deviation this 1 is the
    quotient of two equal volatilities.  The crossed table at even
    weights gives volatility 1, weighted average 2 and ratio 2. *)
Theorem diversification_ratio_correct :
  (forall (returns : list (list R)) (weights : list R)
          (res : portfolio_risk) (v : R),
      calculate_portfolio_risk returns weights = Some res ->
      portfolio_volatility res = Some v -> 0 < v ->
      weighted_avg_volatility res
      = sum_skipna (zip_with fmul (List.map std_values returns)
                      (to_floats weights))
      /\ diversification_ratio res = weighted_avg_volatility res / v)
  /\ (forall xs : list R,
        xs <> [] ->
        exists res,
          calculate_portfolio_risk [xs; xs] [1 / 2; 1 / 2] = Some res
          /\ diversification_ratio res = 1)
  /\ (forall (returns : list (list R)) (weights : list R),
        table_empty returns = false -> length returns = length weights ->
        is_Some (calculate_portfolio_risk returns weights))
  /\ (forall (returns : list (list R)) (weights : list R)
             (res : portfolio_risk),
        calculate_portfolio_risk returns weights = Some res ->
        covariance_matrix res
        = List.map (fun xs => List.map (fun ys => cov xs ys) returns)
            returns
        /\ portfolio_volatility res
           = fsqrt (dot (to_floats weights)
                      (mat_vec (covariance_matrix res) (to_floats weights)))
        /\ individual_volatilities res = List.map std_values returns
        /\ weighted_avg_volatility res
           = sum_skipna (zip_with fmul (individual_volatilities res)
                           (to_floats weights))
        /\ (forall v, portfolio_volatility res = Some v -> 0 < v ->
              diversification_ratio res = weighted_avg_volatility res / v)
        /\ (fpos (portfolio_volatility res) = false ->
            diversification_ratio res = 1))
  /\ (forall (xs : list R) (sd : R),
        std_values xs = Some sd -> 0 < sd ->
        exists res,
          calculate_portfolio_risk [xs; xs] [1 / 2; 1 / 2] = Some res
          /\ portfolio_volatility res = Some sd
          /\ weighted_avg_volatility res = sd
          /\ diversification_ratio res = weighted_avg_volatility res / sd
          /\ diversification_ratio res = 1)
  /\ calculate_portfolio_risk crossed_returns even_weights
     = Some {| portfolio_volatility := Some 1;
               covariance_matrix := [[Some 4; Some (- 2)];
                                     [Some (- 2); Some 4]];
               individual_volatilities := [Some 2; Some 2];
               weighted_avg_volatility := 2;
               diversification_ratio := 2 |}.
Proof.
  split; [exact diversification_ratio_formula|].
  split; [exact diversification_ratio_identical|].
  split; [exact portfolio_risk_returned|].
  split; [exact portfolio_risk_entries|].
  split; [exact twin_quotient | exact portfolio_risk_crossed].
Qed.

Lemma diversification_ratio_correct_witness :
  exists res,
    calculate_portfolio_risk crossed_returns even_weights = Some res
    /\ portfolio_volatility res = Some 1
    /\ 0 < 1
    /\ weighted_avg_volatility res = 2
    /\ diversification_ratio res = weighted_avg_volatility res / 1
    /\ std_values [0; 2; 4] = Some 2
    /\ 0 < 2
    /\ exists twin,
        calculate_portfolio_risk [[0; 2; 4]; [0; 2; 4]] [1 / 2; 1 / 2]
        = Some twin
        /\ portfolio_volatility twin = Some 2
        /\ diversification_ratio twin = 1.
Proof.
  pose proof diversification_ratio_correct
    as (Hformula & _ & _ & _ & Htwin & Hcrossed).
  assert (Hpos : 0 < 1) by lra.
  assert (Hpos2 : 0 < 2) by lra.
  eexists. split; [exact Hcrossed|].
  split; [reflexivity|]. split; [exact Hpos|]. split; [reflexivity|].
  split.
  { exact (proj2 (Hformula _ _ _ 1 Hcrossed eq_refl Hpos)). }
  split; [exact std_crossed_1|]. split; [exact Hpos2|].
  destruct (Htwin [0; 2; 4] 2 std_crossed_1 Hpos2)
    as (twin & Ht & Hv & _ & _ & Hone).
  exists twin. split; [exact Ht|]. split; [exact Hv | exact Hone].
Defined.

(** *** Facts about [sort] and [percentile] *)

Lemma insert_sorted_In (x y : R) (l : list R) :
  In y (insert_sorted x l) <-> y = x \/ In y l.
Proof.
  induction l as [|z l IH]; cbn; [intuition|].
  destruct (Rle_dec x z); cbn; [intuition|]. rewrite IH. intuition.
Qed.

Lemma sort_In (y : R) (l : list R) : In y (sort l) <-> In y l.
Proof.
  induction l as [|x l IH]; cbn; [reflexivity|].
  rewrite insert_sorted_In, IH. intuition.
Qed.

Lemma insert_sorted_length (x : R) (l : list R) :
  length (insert_sorted x l) = S (length l).
Proof.
  induction l as [|z l IH]; cbn; [reflexivity|].
  destruct (Rle_dec x z); cbn; [reflexivity | now rewrite IH].
Qed.

Lemma sort_length (l : list R) : length (sort l) = length l.
Proof.
  induction l as [|x l IH]; cbn; [reflexivity|].
  now rewrite insert_sorted_length, IH.
Qed.

Lemma insert_sorted_sorted (x : R) (l : list R) :
  StronglySorted Rle l -> StronglySorted Rle (insert_sorted x l).
Proof.
  induction 1 as [|z l Hs IH Hz]; cbn.
  - constructor; constructor.
  - destruct (Rle_dec x z) as [Hxz | Hxz].
    + constructor; [now constructor|].
      constructor; [exact Hxz|].
      rewrite List.Forall_forall in Hz |- *.
      intros a Ha. specialize (Hz a Ha). lra.
    + constructor; [exact IH|].
      apply List.Forall_forall. intros a Ha.
      apply insert_sorted_In in Ha as [-> | Ha]; [lra|].
      rewrite List.Forall_forall in Hz. now apply Hz.
Qed.

Lemma sort_sorted (l : list R) : StronglySorted Rle (sort l).
Proof.
  induction l as [|x l IH]; cbn; [constructor|].
  now apply insert_sorted_sorted.
Qed.

Lemma sorted_nth_le (l : list R) (i j : nat) :
  StronglySorted Rle l -> (i <= j < length l)%nat ->
  nth i l 0 <= nth j l 0.
Proof.
  intros Hs. revert i j. induction Hs as [|z l Hs IH Hz]; intros i j Hij.
  - cbn in Hij. lia.
  - destruct i as [|i], j as [|j]; cbn in *; try lia; [lra| |].
    + rewrite List.Forall_forall in Hz. apply Hz, nth_In. lia.
    + apply IH. lia.
Qed.

Lemma percentile_defined (xs : list R) (q : R) :
  0 <= q <= 100 -> is_Some (percentile xs q).
Proof.
  intros [H0 H1]. unfold percentile.
  destruct (Rle_dec 0 q); [|contradiction].
  destruct (Rle_dec q 100); [eauto | contradiction].
Qed.

(** The percentile is at or above one of the observations. *)
Lemma percentile_lower (xs : list R) (q v : R) :
  xs <> [] -> percentile xs q = Some v -> exists x, In x xs /\ x <= v.
Proof.
  intros Hne. unfold percentile.
  destruct (Rle_dec 0 q) as [H0|]; [|discriminate].
  destruct (Rle_dec q 100) as [H1|]; [|discriminate].
  cbv zeta. intros [= <-].
  set (s := sort xs). set (n := length s).
  set (idx := q / 100 * INR (n - 1)).
  set (lo := Z.to_nat (Int_part idx)).
  assert (Hn : (0 < n)%nat).
  { unfold n, s. rewrite sort_length. destruct xs; [contradiction|].
    cbn. lia. }
  assert (Hlo : (lo <= n - 1)%nat).
  { assert (Hidx : idx <= INR (n - 1)).
    { unfold idx. pose proof (pos_INR (n - 1)). nra. }
    destruct (base_Int_part idx) as [Hb _].
    assert (Hz : (Int_part idx <= Z.of_nat (n - 1))%Z).
    { apply le_IZR. rewrite <- INR_IZR_INZ. lra. }
    unfold lo. lia. }
  exists (nth lo s 0). split.
  - apply sort_In. fold s. apply nth_In. fold n. lia.
  - destruct (base_fp idx) as [Hg _].
    assert (Hle : nth lo s 0 <= nth (Nat.min (lo + 1) (n - 1)) s 0).
    { apply sorted_nth_le; [apply sort_sorted|]. fold n. lia. }
    nra.
Qed.

Lemma Rsum_le_bound (l : list R) (v : R) :
  (forall x, In x l -> x <= v) -> Rsum l <= INR (length l) * v.
Proof.
  induction l as [|x l IH]; intros H; [cbn; lra|].
  change (x + Rsum l <= INR (S (length l)) * v). rewrite S_INR.
  assert (x <= v) by (apply H; now left).
  assert (Rsum l <= INR (length l) * v) by (apply IH; intros; apply H; now right).
  lra.
Qed.

Lemma mean_le_bound (l : list R) (v : R) :
  l <> [] -> (forall x, In x l -> x <= v) -> mean l <= v.
Proof.
  intros Hne H. unfold mean.
  assert (Hn : 0 < INR (length l)).
  { apply lt_0_INR. destruct l; [contradiction | cbn; lia]. }
  pose proof (Rsum_le_bound l v H) as Hs.
  apply Rmult_le_reg_r with (INR (length l)); [exact Hn|].
  unfold Rdiv. rewrite Rmult_assoc, Rinv_l by lra. lra.
Qed.

Lemma Rleb_le (x y : R) : Rleb x y = true <-> x <= y.
Proof. unfold Rleb. destruct (Rle_dec x y); intuition discriminate. Qed.

Lemma tail_returns_bound (s : list float) (var x : R) :
  In x (tail_returns s var) -> x <= var.
Proof.
  unfold tail_returns. rewrite filter_In. intros [_ H].
  now apply Rleb_le.
Qed.

Lemma tail_returns_nonempty (s : list float) (q var : R) :
  dropna s <> [] -> percentile (dropna s) q = Some var ->
  tail_returns s var <> [].
Proof.
  intros Hne Hp. destruct (percentile_lower _ _ _ Hne Hp) as (x & Hin & Hx).
  assert (In x (tail_returns s var)) as Ht.
  { unfold tail_returns. apply filter_In. split; [exact Hin|].
    now apply Rleb_le. }
  intros E. rewrite E in Ht. contradiction.
Qed.

Lemma is_nil_false {A} (l : list A) : l <> [] -> is_nil l = false.
Proof. destruct l; [contradiction | reflexivity]. Qed.

Lemma dropna_nonempty (s : list float) :
  dropna s <> [] -> is_nil s || isna_all s = false.
Proof.
  induction s as [|[x|] s IH]; cbn; [contradiction | reflexivity |].
  intros H. specialize (IH H). destruct s; [contradiction|].
  exact IH.
Qed.

(** *** Facts about the result dict *)

Lemma var_key_inj (l l' : Z) : var_key l = var_key l' -> l = l'.
Proof. unfold var_key. cbn. intros [= H]. now apply (inj pretty). Qed.

Lemma cvar_key_inj (l l' : Z) : cvar_key l = cvar_key l' -> l = l'.
Proof. unfold cvar_key. cbn. intros [= H]. now apply (inj pretty). Qed.

Lemma var_cvar_key_ne (l l' : Z) : var_key l <> cvar_key l'.
Proof. unfold var_key, cvar_key. cbn. discriminate. Qed.

Lemma percentile_at_inv (xs : list R) (q : Double.double) (var : R) :
  percentile_at xs q = Some var ->
  exists r, Double.value q = Some r /\ percentile xs r = Some var.
Proof.
  unfold percentile_at. destruct (Double.value q) as [r|]; [|discriminate].
  eauto.
Qed.


Lemma var_cvar_loop_preserves (s : list float)
    (levels : list Double.double) (results res : gmap string R)
    (k : string) :
  var_cvar_loop s levels results = Some res ->
  (forall c l, In c levels -> label c = Some l ->
     var_key l <> k /\ cvar_key l <> k) ->
  res !! k = results !! k.
Proof.
  revert results. induction levels as [|c levels IH]; intros results.
  - cbn [var_cvar_loop app]. now intros [= <-].
  - cbn [var_cvar_loop app]. destruct (percentile_at (dropna s) (var_percentile c)) as [var|];
      [|discriminate].
    destruct (label c) as [l|] eqn:El; [|discriminate].
    intros Hloop Hk. rewrite (IH _ Hloop).
    + destruct (Hk c l (or_introl eq_refl) El) as [Hv Hc].
      now rewrite !lookup_insert_ne.
    + intros c' l' Hc'. apply Hk. now right.
Qed.

Lemma var_cvar_loop_lookup (s : list float) (l1 l2 : list Double.double)
    (c : Double.double) (l : Z) (results res : gmap string R) :
  var_cvar_loop s (l1 ++ c :: l2) results = Some res ->
  label c = Some l ->
  (forall c', In c' l2 -> label c' <> Some l) ->
  exists var,
    percentile_at (dropna s) (var_percentile c) = Some var
    /\ res !! var_key l = Some var
    /\ res !! cvar_key l = Some (cvar_of s var).
Proof.
  revert results. induction l1 as [|a l1 IH]; intros results.
  - cbn [var_cvar_loop app]. destruct (percentile_at (dropna s) (var_percentile c)) as [var|];
      [|discriminate].
    intros Hloop El Hfresh. rewrite El in Hloop.
    exists var. split; [reflexivity|].
    assert (Hk : forall k, k = var_key l \/ k = cvar_key l ->
              forall c' l', In c' l2 -> label c' = Some l' ->
                var_key l' <> k /\ cvar_key l' <> k).
    { intros k [-> | ->] c' l' Hc' El'; specialize (Hfresh c' Hc'); split;
        intros E.
      - apply var_key_inj in E. congruence.
      - now apply (var_cvar_key_ne l l').
      - now apply (var_cvar_key_ne l' l).
      - apply cvar_key_inj in E. congruence. }
    split.
    + rewrite (var_cvar_loop_preserves _ _ _ _ _ Hloop
                 (Hk _ (or_introl eq_refl))).
      rewrite lookup_insert_ne by (intros E; now apply (var_cvar_key_ne l l)).
      apply lookup_insert_eq.
    + rewrite (var_cvar_loop_preserves _ _ _ _ _ Hloop
                 (Hk _ (or_intror eq_refl))).
      apply lookup_insert_eq.
  - cbn [var_cvar_loop app]. destruct (percentile_at (dropna s) (var_percentile a)) as [var|];
      [|discriminate].
    destruct (label a); [|discriminate].
    apply IH.
Qed.

Lemma var_cvar_loop_total (s : list float) (levels : list Double.double)
    (results : gmap string R) :
  (forall c, In c levels -> level_ok c) ->
  is_Some (var_cvar_loop s levels results).
Proof.
  revert results. induction levels as [|c levels IH]; intros results H.
  - cbn [var_cvar_loop app]. eauto.
  - cbn [var_cvar_loop app]. destruct (H c (or_introl eq_refl)) as [(q & Hq & Hr) [l Hl]].
    unfold percentile_at. rewrite Hq.
    destruct (percentile_defined (dropna s) q Hr) as [var ->].
    rewrite Hl. apply IH. intros c' Hc'. apply H. now right.
Qed.


(** *** VaR and CVaR at one confidence level *)

Lemma var_cvar_at_level (s : list float) (l1 l2 : list Double.double)
    (c : Double.double) (l : Z) :
  dropna s <> [] ->
  (forall c', In c' (l1 ++ c :: l2) -> level_ok c') ->
  label c = Some l ->
  (forall c', In c' l2 -> label c' <> Some l) ->
  exists q var,
    Double.value (var_percentile c) = Some q
    /\ percentile (dropna s) q = Some var
    /\ calculate_var_cvar s (l1 ++ c :: l2) !! var_key l = Some var
    /\ calculate_var_cvar s (l1 ++ c :: l2) !! cvar_key l
       = Some (mean (tail_returns s var))
    /\ (forall x, In x (tail_returns s var)
                  <-> In x (dropna s) /\ x <= var)
    /\ tail_returns s var <> []
    /\ mean (tail_returns s var) <= var.
Proof.
  intros Hne Hok El Hfresh. unfold calculate_var_cvar.
  rewrite (dropna_nonempty s Hne).
  destruct (var_cvar_loop_total s (l1 ++ c :: l2) ∅ Hok) as [res Hres].
  rewrite Hres. change (default ∅ (Some res)) with res.
  destruct (var_cvar_loop_lookup s l1 l2 c l ∅ res Hres El Hfresh)
    as (var & Hp & Hv & Hc).
  apply percentile_at_inv in Hp as (q & Hq & Hp).
  pose proof (tail_returns_nonempty s _ var Hne Hp) as Ht.
  exists q, var. split; [exact Hq|]. split; [exact Hp|].
  split; [exact Hv|]. split; [|split; [|split; [exact Ht|]]].
  - rewrite Hc. unfold cvar_of. now rewrite (is_nil_false _ Ht).
  - intros x. unfold tail_returns. now rewrite filter_In, Rleb_le.
  - apply mean_le_bound; [exact Ht|]. intros x. apply tail_returns_bound.
Qed.



(** *** A constant-zero series *)













(** *** The percentiles and the labels of some levels

    Python gives [(1 - 0.95) * 100 = 5.000000000000004],
    [(1 - 0.99) * 100 = 1.0000000000000009], [(1 - 0.28) * 100 = 72.0],
    [(1 - 0.29) * 100 = 71.0] and [(1 - 1.5) * 100 = -50.0]; and
    [int(0.95*100) = 95], [int(0.99*100) = 99], [int(0.28*100) = 28] and
    [int(0.29*100) = 28], the product [0.29*100] being
    [28.999999999999996]. *)

Ltac float_ratio n d :=
  unfold Double.value;
  replace (Double.as_integer_ratio _) with (Some (n, d))
    by (vm_compute; reflexivity).



Lemma var_percentile_0_28 :
  Double.value (var_percentile Double.Lit.d0_28) = Some 72.
Proof.
  float_ratio 5066549580791808%Z 70368744177664%positive. f_equal. lra.
Qed.

Lemma var_percentile_0_29 :
  Double.value (var_percentile Double.Lit.d0_29) = Some 71.
Proof.
  float_ratio 4996180836614144%Z 70368744177664%positive. f_equal. lra.
Qed.




Lemma label_0_28 : label Double.Lit.d0_28 = Some 28%Z.
Proof. vm_compute. reflexivity. Qed.

Lemma label_0_29 : label Double.Lit.d0_29 = Some 28%Z.
Proof. vm_compute. reflexivity. Qed.



Lemma level_ok_0_28 : level_ok Double.Lit.d0_28.
Proof.
  split; [|rewrite label_0_28; eauto].
  eexists. split; [exact var_percentile_0_28 | lra].
Qed.

Lemma level_ok_0_29 : level_ok Double.Lit.d0_29.
Proof.
  split; [|rewrite label_0_29; eauto].
  eexists. split; [exact var_percentile_0_29 | lra].
Qed.







(** *** Where the statement without the provisos fails *)


Lemma levels_28_29_ok (c : Double.double) :
  In c [Double.Lit.d0_28; Double.Lit.d0_29] -> level_ok c.
Proof.
  intros [<- | [<- | []]]; [exact level_ok_0_28 | exact level_ok_0_29].
Qed.



End RiskCalculator.

(** ** utils/currency_mapper.py, the rest of the module *)

Module CurrencyTables.
Import PyStr CurrencyMapper.
#[local] Open Scope Q_scope.

Definition get_supported_currencies : list string :=
  [ "USD"; "JPY"; "EUR"; "GBP"; "CHF"; "CAD"; "AUD"; "HKD"; "SGD"; "CNY";
    "KRW"; "INR"; "BRL"; "MXN"; "ZAR"; "RUB"; "TRY" ].

Definition get_currency_exchange_pairs : gmap string string :=
  list_to_map
    [ ("USD", "USDJPY=X"); ("EUR", "EURJPY=X"); ("GBP", "GBPJPY=X");
      ("CHF", "CHFJPY=X"); ("CAD", "CADJPY=X"); ("AUD", "AUDJPY=X");
      ("HKD", "HKDJPY=X"); ("SGD", "SGDJPY=X"); ("CNY", "CNYJPY=X");
      ("KRW", "KRWJPY=X") ].

Definition get_fallback_exchange_rates : gmap string Q :=
  list_to_map
    [ ("USD", 150); ("EUR", 160); ("GBP", 180); ("CHF", 165); ("CAD", 110);
      ("AUD", 100); ("HKD", 19); ("SGD", 110); ("CNY", 21);
      ("KRW", 11 # 100); ("INR", 18 # 10); ("BRL", 30); ("MXN", 85 # 10);
      ("ZAR", 8); ("RUB", 16 # 10); ("TRY", 45 # 10) ].

(** [for ticker in tickers: currency_mapping[ticker] = ...] *)
Definition get_currency_mapping (tickers : list string) : gmap string string :=
  fold_left (fun currency_mapping ticker =>
               <[ ticker := get_currency_from_ticker ticker ]> currency_mapping)
    tickers ∅.

(** The character class [[A-Za-z0-9.\-]] of the format test. *)
Definition ticker_char (c : ascii) : bool :=
  let n := N_of_ascii c in
  ((65 <=? n) && (n <=? 90) || (97 <=? n) && (n <=? 122)
   || (48 <=? n) && (n <=? 57) || (n =? 46) || (n =? 45))%N.

Fixpoint all_chars (p : ascii -> bool) (s : string) : bool :=
  match s with
  | EmptyString => true
  | String c s' => p c && all_chars p s'
  end.

(** [validate_ticker_format] on ASCII text ([strip] is that of [PyStr]);
    the argument is a [str] by its type.  After
    [strip()] the text has no trailing line break, so the [$] of the
    pattern is the end of the text and [re.match] asks for every character
    to be of the class. *)
Definition validate_ticker_format (ticker : string) : bool :=
  if is_empty ticker then false
  else
    let ticker := strip ticker in
    if is_empty ticker then false
    else if (20 <? String.length ticker)%nat then false
    else all_chars ticker_char ticker.

(** The dict that [get_market_info] returns. *)
Record market_info : Type := mk_market_info {
  mi_ticker : string;
  mi_currency : string;
  mi_market : string;
  mi_country : string
}.

(** [market_mappings], in insertion order. *)
Definition market_mappings : list (string * string) :=
  [ (".T", "東京証券取引所"); (".JP", "日本（JASDAQ）");
    (".OS", "大阪証券取引所"); (".AS", "ユーロネクスト・アムステルダム");
    (".PA", "ユーロネクスト・パリ"); (".DE", "フランクフルト証券取引所");
    (".MI", "ボルサ・イタリアーナ"); (".MC", "マドリッド証券取引所");
    (".L", "ロンドン証券取引所"); (".SW", "スイス証券取引所");
    (".TO", "トロント証券取引所"); (".V", "TSXベンチャー取引所");
    (".AX", "オーストラリア証券取引所"); (".HK", "香港証券取引所");
    (".SI", "シンガポール証券取引所"); (".SS", "上海証券取引所");
    (".SZ", "深圳証券取引所"); (".KS", "韓国証券取引所");
    (".NS", "インド国立証券取引所"); (".BO", "ボンベイ証券取引所") ].

Definition country_mappings : gmap string string :=
  list_to_map
    [ ("JPY", "日本"); ("USD", "アメリカ"); ("EUR", "ユーロ圏");
      ("GBP", "イギリス"); ("CHF", "スイス"); ("CAD", "カナダ");
      ("AUD", "オーストラリア"); ("HKD", "香港"); ("SGD", "シンガポール");
      ("CNY", "中国"); ("KRW", "韓国"); ("INR", "インド") ].

(** [for suffix, market_name in market_mappings.items():
       if suffix in ticker: market = market_name; break] *)
Fixpoint first_market (ticker : string) (m : list (string * string))
    (default : string) : string :=
  match m with
  | [] => default
  | (suffix, market_name) :: m' =>
      if contains suffix ticker then market_name
      else first_market ticker m' default
  end.

Definition get_market_info (ticker : string) : market_info :=
  let ticker := strip (upper ticker) in
  let currency := get_currency_from_ticker ticker in
  let market := first_market ticker market_mappings "NASDAQ/NYSE" in
  let country := default "その他" (country_mappings !! currency) in
  {| mi_ticker := ticker;
     mi_currency := currency;
     mi_market := market;
     mi_country := country |}.

Example market_info_7203 :
  get_market_info " 7203.t "
  = mk_market_info "7203.T" "JPY" "東京証券取引所" "日本".
Proof. reflexivity. Qed.

(** *** The currencies the mapper can return *)

Lemma first_mapping_european (ticker currency : string) :
  first_mapping ticker european_mappings = Some currency -> currency = "EUR".
Proof.
  unfold european_mappings. cbn [first_mapping].
  repeat (destruct (contains _ ticker); [now intros [= <-]|]).
  discriminate.
Qed.

Lemma currency_cases (ticker : string) :
  In (get_currency_from_ticker ticker) get_supported_currencies.
Proof.
  unfold get_currency_from_ticker. generalize (strip (upper ticker)).
  intros t. cbv zeta.
  destruct (any _ japanese_suffixes); [cbn; tauto|].
  destruct (first_mapping t european_mappings) as [c|] eqn:E.
  { apply first_mapping_european in E as ->. cbn. tauto. }
  repeat match goal with
         | |- context [if ?b then _ else _] => destruct b; [cbn; tauto|]
         end.
  cbn. tauto.
Qed.

(** X1.  Whatever the ticker, the currency returned is one of the
    seventeen of [get_supported_currencies]. *)
Theorem currency_is_supported (ticker : string) :
  In (get_currency_from_ticker ticker) get_supported_currencies.
Proof. apply currency_cases. Qed.

(** *** Case and padding *)

Lemma normalize_idem (ticker : string) :
  strip (upper (strip (upper ticker))) = strip (upper ticker).
Proof. now rewrite <- strip_upper, upper_idem, strip_idem. Qed.

Lemma currency_normalized (ticker : string) :
  get_currency_from_ticker (upper ticker) = get_currency_from_ticker ticker
  /\ get_currency_from_ticker (strip ticker)
     = get_currency_from_ticker ticker
  /\ get_currency_from_ticker (strip (upper ticker))
     = get_currency_from_ticker ticker.
Proof.
  unfold get_currency_from_ticker.
  rewrite upper_idem, normalize_idem.
  rewrite (strip_upper (strip ticker)), strip_idem, <- strip_upper.
  repeat split; reflexivity.
Qed.

(** X2.  The currency does not depend on the case of the ticker or on
    white space around it. *)
Theorem currency_ignores_case_and_padding (ticker : string) :
  get_currency_from_ticker (upper ticker) = get_currency_from_ticker ticker
  /\ get_currency_from_ticker (strip ticker)
     = get_currency_from_ticker ticker
  /\ get_currency_from_ticker (strip (upper ticker))
     = get_currency_from_ticker ticker.
Proof. apply currency_normalized. Qed.

(** *** The currency mapping of a list of tickers *)

Lemma currency_mapping_fold (tickers : list string) (m : gmap string string)
    (t : string) :
  fold_left (fun currency_mapping ticker =>
               <[ ticker := get_currency_from_ticker ticker ]> currency_mapping)
    tickers m !! t
  = if bool_decide (t ∈ tickers) then Some (get_currency_from_ticker t)
    else m !! t.
Proof.
  revert m. induction tickers as [|a tickers IH]; intros m.
  - cbn. rewrite bool_decide_eq_false_2; [reflexivity|]. apply not_elem_of_nil.
  - cbn [fold_left]. rewrite IH.
    destruct (decide (t ∈ tickers)) as [Hin | Hin].
    + rewrite !bool_decide_eq_true_2; [reflexivity| |exact Hin].
      apply elem_of_cons. now right.
    + rewrite (bool_decide_eq_false_2 _ Hin).
      destruct (decide (a = t)) as [-> | Hne].
      * rewrite lookup_insert_eq.
        rewrite bool_decide_eq_true_2; [reflexivity|].
        apply elem_of_cons. now left.
      * rewrite lookup_insert_ne by exact Hne.
        rewrite bool_decide_eq_false_2; [reflexivity|].
        rewrite elem_of_cons. intros [E | E]; [now apply Hne | now apply Hin].
Qed.

(** X3.  [get_currency_mapping] has an entry exactly for the tickers of
    the list, under the ticker as it was given, and the entry is the
    currency of that ticker. *)
Theorem currency_mapping_lookup (tickers : list string) (t : string) :
  (In t tickers ->
   get_currency_mapping tickers !! t = Some (get_currency_from_ticker t))
  /\ (~ In t tickers -> get_currency_mapping tickers !! t = None).
Proof.
  unfold get_currency_mapping. rewrite currency_mapping_fold.
  rewrite <- list_elem_of_In. split; intros H.
  - now rewrite bool_decide_eq_true_2.
  - now rewrite bool_decide_eq_false_2.
Qed.

Lemma currency_mapping_lookup_witness :
  In "7203.T" ["AAPL"; "7203.T"]
  /\ get_currency_mapping ["AAPL"; "7203.T"] !! "7203.T" = Some "JPY"
  /\ ~ In "MSFT" ["AAPL"; "7203.T"]
  /\ get_currency_mapping ["AAPL"; "7203.T"] !! "MSFT" = None.
Proof.
  assert (H1 : In "7203.T" ["AAPL"; "7203.T"]) by (right; now left).
  assert (H2 : ~ In "MSFT" ["AAPL"; "7203.T"]).
  { intros [H | [H | []]]; discriminate H. }
  split; [exact H1|].
  split; [exact (proj1 (currency_mapping_lookup _ _) H1)|].
  split; [exact H2 | exact (proj2 (currency_mapping_lookup _ _) H2)].
Defined.

(** *** The format test *)

Lemma ticker_char_upper (c : ascii) :
  ticker_char (upper_char c) = ticker_char c.
Proof. destruct c as [[] [] [] [] [] [] [] []]; reflexivity. Qed.

Lemma ticker_char_not_space (c : ascii) :
  ticker_char c = true -> is_space c = false.
Proof.
  destruct c as [[] [] [] [] [] [] [] []]; vm_compute; intros H;
    first [reflexivity | discriminate H].
Qed.

Lemma all_chars_upper (s : string) :
  all_chars ticker_char (upper s) = all_chars ticker_char s.
Proof.
  induction s as [|c s IH]; [reflexivity|].
  cbn. now rewrite ticker_char_upper, IH.
Qed.

Lemma length_upper (s : string) : String.length (upper s) = String.length s.
Proof. induction s as [|c s IH]; [reflexivity|]. cbn. now rewrite IH. Qed.

Lemma all_chars_impl (p q : ascii -> bool) (s : string) :
  (forall c, p c = true -> q c = true) ->
  all_chars p s = true -> all_chars q s = true.
Proof.
  intros H. induction s as [|c s IH]; [reflexivity|].
  cbn. rewrite !andb_true_iff. intros [Hc Hs]. auto.
Qed.

Lemma validate_strip (ticker : string) :
  validate_ticker_format (strip ticker) = validate_ticker_format ticker.
Proof.
  unfold validate_ticker_format. rewrite strip_idem.
  destruct ticker as [|c t]; [reflexivity|]. cbn [is_empty].
  now destruct (is_empty (strip (String c t))).
Qed.

Lemma validate_upper (ticker : string) :
  validate_ticker_format (upper ticker) = validate_ticker_format ticker.
Proof.
  unfold validate_ticker_format.
  now rewrite is_empty_upper, strip_upper, is_empty_upper, length_upper,
    all_chars_upper.
Qed.

Lemma validate_accepts (ticker : string) :
  validate_ticker_format ticker = true ->
  (1 <= String.length (strip ticker) <= 20)%nat
  /\ all_chars ticker_char (strip ticker) = true
  /\ all_chars (fun c => negb (is_space c)) (strip ticker) = true.
Proof.
  unfold validate_ticker_format.
  destruct (is_empty ticker); [discriminate|].
  destruct (strip ticker) as [|c t] eqn:E; [discriminate|]. cbn [is_empty].
  destruct (20 <? String.length (String c t))%nat eqn:El; [discriminate|].
  apply Nat.ltb_ge in El. intros H. split; [cbn in *; lia|].
  split; [exact H|]. revert H. apply all_chars_impl.
  intros a Ha. now rewrite (ticker_char_not_space a Ha).
Qed.

(** X4.  For a ticker of ASCII text, the format test gives the same
    answer for the ticker, for the ticker stripped and for the ticker in
    upper case (so the form the mapper and the loader normalise to passes
    whenever the raw text does); and what it accepts has, once stripped,
    between 1 and 20 characters, all letters, digits, full stops or
    hyphens, hence no white space inside. *)
Theorem validate_ticker_format_normal_form (ticker : string) :
  is_ascii ticker = true ->
  validate_ticker_format (strip ticker) = validate_ticker_format ticker
  /\ validate_ticker_format (upper ticker) = validate_ticker_format ticker
  /\ validate_ticker_format (strip (upper ticker))
     = validate_ticker_format ticker
  /\ (validate_ticker_format ticker = true ->
      (1 <= String.length (strip ticker) <= 20)%nat
      /\ all_chars ticker_char (strip ticker) = true
      /\ all_chars (fun c => negb (is_space c)) (strip ticker) = true).
Proof.
  intros _.
  split; [apply validate_strip|]. split; [apply validate_upper|].
  split; [now rewrite validate_strip, validate_upper|].
  apply validate_accepts.
Qed.

Lemma validate_ticker_format_normal_form_witness :
  is_ascii " brk-b " = true
  /\ validate_ticker_format " brk-b " = true
  /\ (1 <= String.length (strip " brk-b ") <= 20)%nat
  /\ validate_ticker_format (strip (upper " brk-b ")) = true.
Proof.
  assert (Ha : is_ascii " brk-b " = true) by reflexivity.
  assert (H : validate_ticker_format " brk-b " = true) by reflexivity.
  destruct (validate_ticker_format_normal_form " brk-b " Ha)
    as (_ & _ & Hn & Hacc).
  split; [exact Ha|]. split; [exact H|]. split; [exact (proj1 (Hacc H))|].
  rewrite Hn. exact H.
Defined.

(** *** Market information *)

Lemma first_market_dot_free (t : string) (m : list (string * string))
    (d : string) :
  no_dot t = true ->
  Forall (fun kv => exists r, fst kv = String "." r) m ->
  first_market t m d = d.
Proof.
  intros Ht. induction 1 as [|[k v] m [r Hk] _ IH]; [reflexivity|].
  cbn in Hk. subst k. cbn [first_market].
  now rewrite (contains_dot_free _ _ Ht).
Qed.

Lemma market_mappings_dotted :
  Forall (fun kv : string * string => exists r, fst kv = String "." r)
    market_mappings.
Proof. unfold market_mappings. repeat constructor; cbn; eauto. Qed.

Lemma market_info_fields (ticker : string) :
  mi_currency (get_market_info ticker) = get_currency_from_ticker ticker
  /\ upper (mi_ticker (get_market_info ticker))
     = mi_ticker (get_market_info ticker)
  /\ strip (mi_ticker (get_market_info ticker))
     = mi_ticker (get_market_info ticker)
  /\ get_market_info (mi_ticker (get_market_info ticker))
     = get_market_info ticker.
Proof.
  unfold get_market_info. cbn [mi_currency mi_ticker].
  split; [apply currency_normalized|].
  rewrite normalize_idem, strip_upper.
  destruct (upper_strip_fixed ticker) as [Hu Hs]. auto.
Qed.

Lemma market_info_tokyo (ticker : string) :
  contains ".T" (strip (upper ticker)) = true ->
  get_market_info ticker
  = mk_market_info (strip (upper ticker)) "JPY" "東京証券取引所" "日本".
Proof.
  intros H. unfold get_market_info, get_currency_from_ticker.
  rewrite normalize_idem. unfold market_mappings, japanese_suffixes, any.
  cbn [first_market existsb]. now rewrite H.
Qed.

Lemma market_info_dot_free (ticker : string) :
  no_dot ticker = true ->
  get_market_info ticker
  = mk_market_info (strip (upper ticker)) "USD" "NASDAQ/NYSE" "アメリカ".
Proof.
  intros H. unfold get_market_info.
  assert (Ht : no_dot (strip (upper ticker)) = true).
  { unfold strip. apply no_dot_rstrip, no_dot_lstrip.
    now rewrite no_dot_upper. }
  rewrite (dot_free_ticker_USD _ Ht).
  now rewrite (first_market_dot_free _ _ _ Ht market_mappings_dotted).
Qed.

(** X5.  [get_market_info] reports the currency of the ticker as given,
    and a ticker in normal form: upper case, stripped, and a fixed point
    of [get_market_info] itself.  A ticker that contains [.T] is put on
    the Tokyo exchange, in JPY and Japan; a ticker without a full stop on
    NASDAQ/NYSE, in USD and the United States. *)
Theorem market_info_consistent (ticker : string) :
  mi_currency (get_market_info ticker) = get_currency_from_ticker ticker
  /\ upper (mi_ticker (get_market_info ticker))
     = mi_ticker (get_market_info ticker)
  /\ strip (mi_ticker (get_market_info ticker))
     = mi_ticker (get_market_info ticker)
  /\ get_market_info (mi_ticker (get_market_info ticker))
     = get_market_info ticker
  /\ (contains ".T" (strip (upper ticker)) = true ->
      get_market_info ticker
      = mk_market_info (strip (upper ticker)) "JPY" "東京証券取引所" "日本")
  /\ (no_dot ticker = true ->
      get_market_info ticker
      = mk_market_info (strip (upper ticker)) "USD" "NASDAQ/NYSE"
          "アメリカ").
Proof.
  destruct (market_info_fields ticker) as (H1 & H2 & H3 & H4).
  repeat (split; [assumption|]).
  split; [apply market_info_tokyo | apply market_info_dot_free].
Qed.

Lemma market_info_consistent_witness :
  contains ".T" (strip (upper "ry.to")) = true
  /\ get_market_info "ry.to"
     = mk_market_info "RY.TO" "JPY" "東京証券取引所" "日本"
  /\ no_dot "aapl" = true
  /\ get_market_info "aapl"
     = mk_market_info "AAPL" "USD" "NASDAQ/NYSE" "アメリカ".
Proof.
  assert (H1 : contains ".T" (strip (upper "ry.to")) = true) by reflexivity.
  assert (H2 : no_dot "aapl" = true) by reflexivity.
  destruct (market_info_consistent "ry.to") as (_ & _ & _ & _ & Ht & _).
  destruct (market_info_consistent "aapl") as (_ & _ & _ & _ & _ & Hd).
  split; [exact H1|]. split; [exact (Ht H1)|].
  split; [exact H2 | exact (Hd H2)].
Defined.

(** *** The two copies of the rate tables *)

(** X6.  The pair-symbol table and the fallback table of the P&L
    calculator are part of the mapper's tables: every entry of the former
    is an entry of the latter, with the same symbol or rate.  The mapper's
    tables go further: they have a pair symbol for HKD, SGD, CNY and KRW
    and a fallback rate, different from 1, for INR, BRL, MXN, ZAR, RUB and
    TRY. *)
Theorem rate_tables_agree :
  (forall c sym, PnlCalculator.rate_mapping !! c = Some sym ->
                 get_currency_exchange_pairs !! c = Some sym)
  /\ (forall c r, PnlCalculator.fallback_rates !! c = Some r ->
                  get_fallback_exchange_rates !! c = Some r)
  /\ (forall c, In c ["HKD"; "SGD"; "CNY"; "KRW"] ->
                PnlCalculator.rate_mapping !! c = None
                /\ is_Some (get_currency_exchange_pairs !! c))
  /\ (forall c, In c PnlCalculator.unpriced_currencies ->
                PnlCalculator.fallback_rates !! c = None
                /\ exists r, get_fallback_exchange_rates !! c = Some r
                             /\ ~ r == 1).
Proof.
  split; [|split; [|split]].
  - intros c sym H. unfold PnlCalculator.rate_mapping in H.
    apply elem_of_list_to_map_2 in H.
    repeat (apply elem_of_cons in H as [[= -> ->] | H]; [reflexivity|]).
    now apply elem_of_nil in H.
  - intros c r H. unfold PnlCalculator.fallback_rates in H.
    apply elem_of_list_to_map_2 in H.
    repeat (apply elem_of_cons in H as [[= -> ->] | H]; [reflexivity|]).
    now apply elem_of_nil in H.
  - intros c H. cbn in H.
    repeat (destruct H as [<- | H]; [split; [reflexivity | eexists; reflexivity]|]).
    contradiction.
  - intros c H. unfold PnlCalculator.unpriced_currencies in H. cbn in H.
    repeat (destruct H as [<- | H];
            [split; [reflexivity | eexists; split; [reflexivity | discriminate]]|]).
    contradiction.
Qed.

End CurrencyTables.

(** ** modules/pnl_calculator.py, the portfolio summary *)

Module PnlSummary.
Import QAux PnlCalculator Lqa.
#[local] Open Scope Q_scope.

(** [col.sum()] *)
Definition Qsum (xs : list Q) : Q := fold_right Qplus 0 xs.

(** [col.max()] and [col.min()] of a column with a first entry. *)
Definition Qmax_list (x : Q) (xs : list Q) : Q :=
  fold_left (fun m y => if Qltb m y then y else m) xs x.

Definition Qmin_list (x : Q) (xs : list Q) : Q :=
  fold_left (fun m y => if Qltb y m then y else m) xs x.

(** The row at [col.idxmax()] and at [col.idxmin()]: the first row that
    carries the extreme value. *)
Definition row_max {A} (key : A -> Q) (r : A) (rs : list A) : A :=
  fold_left (fun m y => if Qltb (key m) (key y) then y else m) rs r.

Definition row_min {A} (key : A -> Q) (r : A) (rs : list A) : A :=
  fold_left (fun m y => if Qltb (key y) (key m) then y else m) rs r.

(** [(col > 0).sum()] *)
Definition count_positive (xs : list Q) : nat :=
  length (List.filter (fun x => Qltb 0 x) xs).

Record summary : Type := mk_summary {
  total_positions : nat;
  total_cost_basis_jpy : Q;
  total_current_value_jpy : Q;
  total_pnl_amount_jpy : Q;
  overall_pnl_percentage : Q;
  win_rate : Q;
  profitable_positions : nat;
  losing_positions : nat;
  max_gain_amount : Q;
  max_loss_amount : Q;
  max_gain_percentage : Q;
  max_loss_percentage : Q;
  max_gain_ticker : string;
  max_loss_ticker : string;
  average_position_size : Q
}.

Definition Qnat (n : nat) : Q := inject_Z (Z.of_nat n).

(** [None] is the empty dict of the [except] branch: a table without rows
    is a table without columns, and [pnl_df['cost_basis_jpy']] raises. *)
Definition calculate_portfolio_summary (pnl_df : list pnl_row)
  : option summary :=
  match pnl_df with
  | [] => None
  | r :: rs =>
      let amounts := List.map (fun x => pnl_amount (pnl x)) pnl_df in
      let total_cost_basis :=
        Qsum (List.map (fun x => cost_basis_jpy (pnl x)) pnl_df) in
      let total_current_value :=
        Qsum (List.map (fun x => current_value_jpy (pnl x)) pnl_df) in
      let total_pnl_amount := Qsum amounts in
      let overall_pnl_percentage :=
        if Qltb 0 total_cost_basis
        then (total_pnl_amount / total_cost_basis) * 100 else 0 in
      let profitable_positions := count_positive amounts in
      let total_positions := length pnl_df in
      let win_rate :=
        if (0 <? total_positions)%nat
        then (Qnat profitable_positions / Qnat total_positions) * 100
        else 0 in
      Some {|
        total_positions := total_positions;
        total_cost_basis_jpy := total_cost_basis;
        total_current_value_jpy := total_current_value;
        total_pnl_amount_jpy := total_pnl_amount;
        overall_pnl_percentage := overall_pnl_percentage;
        win_rate := win_rate;
        profitable_positions := profitable_positions;
        losing_positions := total_positions - profitable_positions;
        max_gain_amount :=
          Qmax_list (pnl_amount (pnl r))
            (List.map (fun x => pnl_amount (pnl x)) rs);
        max_loss_amount :=
          Qmin_list (pnl_amount (pnl r))
            (List.map (fun x => pnl_amount (pnl x)) rs);
        max_gain_percentage :=
          Qmax_list (pnl_percentage (pnl r))
            (List.map (fun x => pnl_percentage (pnl x)) rs);
        max_loss_percentage :=
          Qmin_list (pnl_percentage (pnl r))
            (List.map (fun x => pnl_percentage (pnl x)) rs);
        max_gain_ticker :=
          ticker (pnl (row_max (fun x => pnl_amount (pnl x)) r rs));
        max_loss_ticker :=
          ticker (pnl (row_min (fun x => pnl_amount (pnl x)) r rs));
        average_position_size :=
          if (0 <? total_positions)%nat
          then total_cost_basis / Qnat total_positions else 0
      |}
  end.

(** Two holdings, one of them without a price. *)
Definition two_holdings : list holding :=
  [mk_holding "AAPL" 100 15000; mk_holding "7203.T" 1000 800].
Definition aapl_only_prices : gmap string Q := {[ "AAPL" := 200 ]}.
Definition usd_rate : gmap string Q := {[ "USDJPY=X" := 150 ]}.
Definition two_currencies : gmap string string :=
  {[ "AAPL" := "USD" ]} ∪ {[ "7203.T" := "JPY" ]}.

Example summary_two_holdings :
  match calculate_portfolio_summary
          (calculate_portfolio_pnl two_holdings aapl_only_prices usd_rate
             two_currencies) with
  | Some s =>
      total_positions s = 2%nat
      /\ total_pnl_amount_jpy s == 700000
      /\ profitable_positions s = 1%nat
      /\ win_rate s == 50
      /\ max_gain_ticker s = "AAPL" /\ max_loss_ticker s = "7203.T"
  | None => False
  end.
Proof. vm_compute. repeat split; congruence. Qed.

(** *** Totals and counts *)

Lemma Qsum_cons (x : Q) (xs : list Q) : Qsum (x :: xs) = x + Qsum xs.
Proof. reflexivity. Qed.

Lemma Qsum_difference {A} (f g h : A -> Q) (l : list A) :
  (forall x, In x l -> f x == g x - h x) ->
  Qsum (List.map f l) == Qsum (List.map g l) - Qsum (List.map h l).
Proof.
  induction l as [|a l IH]; intros H; [reflexivity|].
  cbn [List.map]. rewrite !Qsum_cons.
  pose proof (H a (or_introl eq_refl)) as Ha.
  assert (IH' : Qsum (List.map f l)
                == Qsum (List.map g l) - Qsum (List.map h l)).
  { apply IH. intros x Hx. apply H. now right. }
  lra.
Qed.

Lemma count_positive_le (xs : list Q) : (count_positive xs <= length xs)%nat.
Proof. unfold count_positive. apply filter_length_le. Qed.

Lemma Qnat_le (m n : nat) : (m <= n)%nat -> Qnat m <= Qnat n.
Proof.
  intros H. unfold Qnat. rewrite <- Zle_Qle. lia.
Qed.

Lemma Qnat_pos (n : nat) : (0 < n)%nat -> 0 < Qnat n.
Proof.
  intros H. unfold Qnat. change 0 with (inject_Z 0). rewrite <- Zlt_Qlt. lia.
Qed.

Lemma ratio_percent_bounds (p t : nat) :
  (p <= t)%nat -> (0 < t)%nat ->
  0 <= Qnat p / Qnat t * 100 /\ Qnat p / Qnat t * 100 <= 100.
Proof.
  intros Hp Ht. pose proof (Qnat_pos t Ht) as Htq.
  pose proof (Qnat_le p t Hp) as Hle.
  pose proof (Qnat_le 0 p (Nat.le_0_l p)) as Hp0.
  change (Qnat 0) with 0 in Hp0.
  assert (H0 : 0 <= Qnat p / Qnat t).
  { apply Qle_shift_div_l; [exact Htq|]. lra. }
  assert (H1 : Qnat p / Qnat t <= 1).
  { apply Qle_shift_div_r; [exact Htq|]. lra. }
  split; lra.
Qed.

Lemma portfolio_pnl_amount (df : list holding) (prices rates : gmap string Q)
    (cmap : gmap string string) (x : pnl_row) :
  In x (calculate_portfolio_pnl df prices rates cmap) ->
  pnl_amount (pnl x) == current_value_jpy (pnl x) - cost_basis_jpy (pnl x).
Proof.
  unfold calculate_portfolio_pnl. rewrite in_map_iff.
  intros (h & <- & _). reflexivity.
Qed.

(** X7.  The summary of a priced portfolio with a holding at least is a
    dict (the summary of an empty one is the empty dict): it counts every
    holding, its total P&L is its total value less its total cost, the
    profitable and the other positions add up to all positions, and the
    win rate lies between 0 and 100. *)
Theorem summary_of_portfolio (df : list holding)
    (prices rates : gmap string Q) (cmap : gmap string string) :
  calculate_portfolio_summary [] = None
  /\ (df <> [] ->
      exists s,
        calculate_portfolio_summary
          (calculate_portfolio_pnl df prices rates cmap) = Some s
        /\ total_positions s = length df
        /\ total_pnl_amount_jpy s
           == total_current_value_jpy s - total_cost_basis_jpy s
        /\ (profitable_positions s + losing_positions s
            = total_positions s)%nat
        /\ 0 <= win_rate s /\ win_rate s <= 100).
Proof.
  split; [reflexivity|]. intros Hne.
  pose proof (portfolio_pnl_amount df prices rates cmap) as Hrow.
  assert (Hlen : length (calculate_portfolio_pnl df prices rates cmap)
                 = length df).
  { unfold calculate_portfolio_pnl. apply length_map. }
  destruct (calculate_portfolio_pnl df prices rates cmap) as [|r rs] eqn:E.
  { destruct df; [contradiction | discriminate]. }
  unfold calculate_portfolio_summary. eexists. split; [reflexivity|].
  cbn [total_positions total_pnl_amount_jpy total_current_value_jpy
       total_cost_basis_jpy profitable_positions losing_positions win_rate].
  split; [exact Hlen|].
  split; [now apply Qsum_difference|].
  pose proof (count_positive_le
                (List.map (fun x => pnl_amount (pnl x)) (r :: rs))) as Hc.
  rewrite length_map in Hc.
  split; [lia|].
  replace (0 <? length (r :: rs))%nat with true by reflexivity.
  apply ratio_percent_bounds; [exact Hc | cbn; lia].
Qed.

Lemma summary_of_portfolio_witness :
  two_holdings <> []
  /\ exists s,
      calculate_portfolio_summary
        (calculate_portfolio_pnl two_holdings aapl_only_prices usd_rate
           two_currencies) = Some s
      /\ total_positions s = 2%nat.
Proof.
  assert (H : two_holdings <> []) by discriminate.
  destruct (proj2 (summary_of_portfolio two_holdings aapl_only_prices
                     usd_rate two_currencies) H)
    as (s & Hs & Hn & _).
  split; [exact H|]. exists s. split; [exact Hs | exact Hn].
Defined.

(** *** The best and the worst position *)

Section ArgBest.

Context {A : Type}.
Variable g : A -> Q.
Variable better : A -> A -> bool.
Hypothesis better_spec : forall m y, better m y = true <-> g m < g y.

Abbreviation step := (fun m y => if better m y then y else m).

Lemma fold_best_spec (rs pre l1 l2 : list A) (m : A) :
  pre = (l1 ++ m :: l2)%list ->
  (forall x, In x l1 -> g x < g m) ->
  (forall x, In x l2 -> g x <= g m) ->
  exists l1' l2',
    (pre ++ rs = l1' ++ fold_left step rs m :: l2')%list
    /\ (forall x, In x l1' -> g x < g (fold_left step rs m))
    /\ (forall x, In x l2' -> g x <= g (fold_left step rs m)).
Proof.
  revert pre l1 l2 m. induction rs as [|y rs IH]; intros pre l1 l2 m E H1 H2.
  - exists l1, l2. rewrite app_nil_r. auto.
  - cbn [fold_left].
    replace (pre ++ y :: rs)%list with ((pre ++ [y]) ++ rs)%list
      by (rewrite <- app_assoc; reflexivity).
    destruct (better m y) eqn:Eb.
    + apply better_spec in Eb.
      apply (IH (pre ++ [y])%list pre [] y).
      * reflexivity.
      * intros x Hx. rewrite E in Hx.
        apply in_app_or in Hx as [Hx | [<- | Hx]].
        -- specialize (H1 x Hx). lra.
        -- exact Eb.
        -- specialize (H2 x Hx). lra.
      * intros x [].
    + assert (Hle : g y <= g m).
      { apply Qnot_lt_le. intros Hlt. apply better_spec in Hlt.
        congruence. }
      apply (IH (pre ++ [y])%list l1 (l2 ++ [y])%list m).
      * rewrite E, <- app_assoc. reflexivity.
      * exact H1.
      * intros x Hx. apply in_app_or in Hx as [Hx | [<- | []]];
          [now apply H2 | exact Hle].
Qed.

Lemma fold_best_first (r : A) (rs : list A) :
  exists l1 l2,
    (r :: rs = l1 ++ fold_left step rs r :: l2)%list
    /\ (forall x, In x l1 -> g x < g (fold_left step rs r))
    /\ (forall x, In x (r :: rs) -> g x <= g (fold_left step rs r)).
Proof.
  destruct (fold_best_spec rs [r] [] [] r eq_refl) as (l1 & l2 & E & H1 & H2);
    [intros x [] | intros x [] |].
  exists l1, l2. cbn [app] in E. split; [exact E|]. split; [exact H1|].
  intros x Hx. rewrite E in Hx.
  apply in_app_or in Hx as [Hx | [<- | Hx]].
  - specialize (H1 x Hx). lra.
  - lra.
  - now apply H2.
Qed.

End ArgBest.

Lemma Qmax_list_row {A} (key : A -> Q) (r : A) (rs : list A) :
  Qmax_list (key r) (List.map key rs) = key (row_max key r rs).
Proof.
  unfold Qmax_list, row_max. revert r.
  induction rs as [|y rs IH]; intros r; [reflexivity|].
  cbn [List.map fold_left]. destruct (Qltb (key r) (key y)); apply IH.
Qed.

Lemma Qmin_list_row {A} (key : A -> Q) (r : A) (rs : list A) :
  Qmin_list (key r) (List.map key rs) = key (row_min key r rs).
Proof.
  unfold Qmin_list, row_min. revert r.
  induction rs as [|y rs IH]; intros r; [reflexivity|].
  cbn [List.map fold_left]. destruct (Qltb (key y) (key r)); apply IH.
Qed.

(** X8.  In the summary of a table with a row at least, the largest gain
    and the largest loss bound the P&L of every position, and the two
    tickers named are those of the first position, in table order, that
    attains the largest gain and of the first that attains the largest
    loss. *)
Theorem summary_extremes (r : pnl_row) (rs : list pnl_row) (s : summary) :
  calculate_portfolio_summary (r :: rs) = Some s ->
  (forall x, In x (r :: rs) ->
     max_loss_amount s <= pnl_amount (pnl x)
     /\ pnl_amount (pnl x) <= max_gain_amount s)
  /\ (exists l1 m l2,
        (r :: rs = l1 ++ m :: l2)%list
        /\ max_gain_ticker s = ticker (pnl m)
        /\ max_gain_amount s = pnl_amount (pnl m)
        /\ forall x, In x l1 -> pnl_amount (pnl x) < max_gain_amount s)
  /\ (exists l1 m l2,
        (r :: rs = l1 ++ m :: l2)%list
        /\ max_loss_ticker s = ticker (pnl m)
        /\ max_loss_amount s = pnl_amount (pnl m)
        /\ forall x, In x l1 -> max_loss_amount s < pnl_amount (pnl x)).
Proof.
  unfold calculate_portfolio_summary. intros [= <-].
  cbn [max_gain_amount max_loss_amount max_gain_ticker max_loss_ticker].
  rewrite (Qmax_list_row (fun x => pnl_amount (pnl x))),
          (Qmin_list_row (fun x => pnl_amount (pnl x))).
  destruct (fold_best_first (fun x => pnl_amount (pnl x))
              (fun m y => Qltb (pnl_amount (pnl m)) (pnl_amount (pnl y)))
              (fun m y => Qltb_lt _ _) r rs)
    as (l1 & l2 & E & Hl & Hmax).
  destruct (fold_best_first (fun x => - pnl_amount (pnl x))
              (fun m y => Qltb (pnl_amount (pnl y)) (pnl_amount (pnl m))) )
    with (r := r) (rs := rs) as (k1 & k2 & E' & Hk & Hmin).
  { intros m y. rewrite Qltb_lt. split; intros H; lra. }
  fold (row_max (fun x => pnl_amount (pnl x)) r rs) in E, Hl, Hmax.
  fold (row_min (fun x => pnl_amount (pnl x)) r rs) in E', Hk, Hmin.
  split; [|split].
  - intros x Hx. specialize (Hmax x Hx). specialize (Hmin x Hx).
    cbv beta in Hmin. split; lra.
  - exists l1, (row_max (fun x => pnl_amount (pnl x)) r rs), l2. auto.
  - exists k1, (row_min (fun x => pnl_amount (pnl x)) r rs), k2.
    split; [exact E'|]. split; [reflexivity|]. split; [reflexivity|].
    intros x Hx. specialize (Hk x Hx). cbv beta in Hk. lra.
Qed.

Lemma summary_extremes_witness :
  exists s,
    calculate_portfolio_summary
      (calculate_portfolio_pnl two_holdings aapl_only_prices usd_rate
         two_currencies) = Some s
    /\ exists l1 m l2,
        (calculate_portfolio_pnl two_holdings aapl_only_prices usd_rate
           two_currencies = l1 ++ m :: l2)%list
        /\ max_gain_ticker s = ticker (pnl m).
Proof.
  destruct (calculate_portfolio_summary
              (calculate_portfolio_pnl two_holdings aapl_only_prices usd_rate
                 two_currencies)) as [s|] eqn:Es; [|discriminate Es].
  exists s. split; [reflexivity|].
  change (calculate_portfolio_pnl two_holdings aapl_only_prices usd_rate
            two_currencies)
    with [portfolio_pnl_row aapl_only_prices usd_rate two_currencies
            (mk_holding "AAPL" 100 15000);
          portfolio_pnl_row aapl_only_prices usd_rate two_currencies
            (mk_holding "7203.T" 1000 800)] in Es |- *.
  destruct (summary_extremes _ _ s Es) as (_ & (l1 & m & l2 & E & Ht & _) & _).
  exists l1, m, l2. split; [exact E | exact Ht].
Defined.

(** *** Rows of the priced portfolio *)

Lemma portfolio_pnl_tickers (df : list holding) (prices rates : gmap string Q)
    (cmap : gmap string string) :
  List.map (fun x => ticker (pnl x))
    (calculate_portfolio_pnl df prices rates cmap)
  = List.map Ticker df.
Proof.
  unfold calculate_portfolio_pnl. rewrite map_map. reflexivity.
Qed.

Lemma unpriced_row (prices rates : gmap string Q) (cmap : gmap string string)
    (h : holding) :
  prices !! Ticker h = None -> 0 < Shares h -> 0 < AvgCostJPY h ->
  let row := portfolio_pnl_row prices rates cmap h in
  current_price_local (pnl row) = 0
  /\ current_value_jpy (pnl row) == 0
  /\ pnl_amount (pnl row) == - cost_basis_jpy (pnl row)
  /\ pnl_percentage (pnl row) == - (100).
Proof.
  intros Hp Hs Ha. unfold portfolio_pnl_row. rewrite Hp. cbn [default].
  change (default 0 None) with 0.
  destruct (calculate_pnl_zero_price (Ticker h) (Shares h) (AvgCostJPY h)
              (get_exchange_rate_for_currency
                 (default "USD" (cmap !! Ticker h)) rates) Hs Ha)
    as [Hpct Hamt].
  cbn [pnl] in *. split; [reflexivity|]. split; [cbn; ring|].
  split; [exact Hamt | exact Hpct].
Qed.

(** X9.  [calculate_portfolio_pnl] returns one row per holding, in the
    order of the holdings and under their tickers; and a holding whose
    ticker has no entry in the price map is valued at zero and reported
    as a total loss (P&L minus the cost basis, -100 per cent), whatever
    its currency and the rates. *)
Theorem unpriced_holding_is_total_loss (df : list holding)
    (prices rates : gmap string Q) (cmap : gmap string string) :
  List.map (fun x => ticker (pnl x))
    (calculate_portfolio_pnl df prices rates cmap)
  = List.map Ticker df
  /\ forall h,
      In h df -> prices !! Ticker h = None ->
      0 < Shares h -> 0 < AvgCostJPY h ->
      exists row,
        In row (calculate_portfolio_pnl df prices rates cmap)
        /\ ticker (pnl row) = Ticker h
        /\ current_value_jpy (pnl row) == 0
        /\ pnl_amount (pnl row) == - cost_basis_jpy (pnl row)
        /\ pnl_percentage (pnl row) == - (100).
Proof.
  split; [apply portfolio_pnl_tickers|].
  intros h Hin Hp Hs Ha. exists (portfolio_pnl_row prices rates cmap h).
  split; [unfold calculate_portfolio_pnl; now apply in_map|].
  split; [reflexivity|].
  now destruct (unpriced_row prices rates cmap h Hp Hs Ha) as (_ & H).
Qed.

Lemma unpriced_holding_is_total_loss_witness :
  In (mk_holding "7203.T" 1000 800) two_holdings
  /\ aapl_only_prices !! "7203.T" = None
  /\ 0 < 1000 /\ 0 < 800
  /\ exists row,
      In row (calculate_portfolio_pnl two_holdings aapl_only_prices usd_rate
                two_currencies)
      /\ pnl_percentage (pnl row) == - (100).
Proof.
  assert (H1 : In (mk_holding "7203.T" 1000 800) two_holdings)
    by (right; now left).
  assert (H2 : aapl_only_prices !! "7203.T" = None) by reflexivity.
  assert (H3 : 0 < 1000) by reflexivity.
  assert (H4 : 0 < 800) by reflexivity.
  destruct (proj2 (unpriced_holding_is_total_loss two_holdings
                     aapl_only_prices usd_rate two_currencies)
              (mk_holding "7203.T" 1000 800) H1 H2 H3 H4)
    as (row & Hin & _ & _ & _ & Hpct).
  split; [exact H1|]. split; [exact H2|]. split; [exact H3|].
  split; [exact H4|]. exists row. split; [exact Hin | exact Hpct].
Defined.

(** *** Which rate is used *)

Lemma rate_mapping_symbol (c sym : string) :
  rate_mapping !! c = Some sym -> truthy sym = true /\ c <> "JPY".
Proof.
  intros H. unfold rate_mapping in H. apply elem_of_list_to_map_2 in H.
  repeat (apply elem_of_cons in H as [[= -> ->] | H];
          [split; [reflexivity | discriminate]|]).
  now apply elem_of_nil in H.
Qed.

(** X10.  For a currency of the pair-symbol table, a rate supplied under
    its pair symbol is returned as it is, without a test of its sign, and
    only when none is supplied the fallback rate is.  For HKD, SGD, CNY and
    KRW, which have a fallback rate and no pair symbol, the rate is the
    fallback rate whatever the rates map holds. *)
Theorem exchange_rate_precedence :
  (forall (c sym : string) (rates : gmap string Q) (r : Q),
      rate_mapping !! c = Some sym -> rates !! sym = Some r ->
      get_exchange_rate_for_currency c rates = r)
  /\ (forall (c sym : string) (rates : gmap string Q),
        rate_mapping !! c = Some sym -> rates !! sym = None ->
        get_exchange_rate_for_currency c rates
        = default 1 (fallback_rates !! c))
  /\ (forall (c : string) (rates : gmap string Q),
        In c ["HKD"; "SGD"; "CNY"; "KRW"] ->
        exists r, fallback_rates !! c = Some r
                  /\ get_exchange_rate_for_currency c rates = r).
Proof.
  split; [|split].
  - intros c sym rates r Hm Hr.
    destruct (rate_mapping_symbol c sym Hm) as [Ht Hj].
    unfold get_exchange_rate_for_currency.
    apply String.eqb_neq in Hj. now rewrite Hj, Hm, Ht, Hr.
  - intros c sym rates Hm Hr.
    destruct (rate_mapping_symbol c sym Hm) as [Ht Hj].
    unfold get_exchange_rate_for_currency.
    apply String.eqb_neq in Hj. now rewrite Hj, Hm, Ht, Hr.
  - intros c rates H. cbn in H.
    repeat (destruct H as [<- | H]; [eexists; split; reflexivity|]).
    contradiction.
Qed.

Lemma exchange_rate_precedence_witness :
  rate_mapping !! "USD" = Some "USDJPY=X"
  /\ ({[ "USDJPY=X" := -(5) ]} : gmap string Q) !! "USDJPY=X" = Some (-(5))
  /\ get_exchange_rate_for_currency "USD" {[ "USDJPY=X" := -(5) ]} = -(5)
  /\ (∅ : gmap string Q) !! "USDJPY=X" = None
  /\ get_exchange_rate_for_currency "USD" ∅ = 150
  /\ In "HKD" ["HKD"; "SGD"; "CNY"; "KRW"]
  /\ get_exchange_rate_for_currency "HKD" {[ "HKDJPY=X" := 20 ]} = 19.
Proof.
  assert (H1 : rate_mapping !! "USD" = Some "USDJPY=X") by reflexivity.
  assert (H2 : ({[ "USDJPY=X" := -(5) ]} : gmap string Q) !! "USDJPY=X"
               = Some (-(5))) by reflexivity.
  assert (H3 : (∅ : gmap string Q) !! "USDJPY=X" = None) by reflexivity.
  assert (H4 : In "HKD" ["HKD"; "SGD"; "CNY"; "KRW"]) by (now left).
  destruct exchange_rate_precedence as (Ha & Hb & Hc).
  destruct (Hc "HKD" {[ "HKDJPY=X" := 20 ]} H4) as (r & Hr & E).
  split; [exact H1|]. split; [exact H2|].
  split; [exact (Ha _ _ _ _ H1 H2)|]. split; [exact H3|].
  split; [exact (Hb _ _ _ H1 H3)|]. split; [exact H4|].
  rewrite E. change (fallback_rates !! "HKD") with (Some 19) in Hr.
  now injection Hr as <-.
Defined.

End PnlSummary.

(** ** modules/data_loader.py, validation and cleaning together *)

Module LoadPipeline.
Import QAux PyStr DataLoader.
#[local] Open Scope Q_scope.

(** [get_sample_data()] *)
Definition get_sample_data : DataFrame :=
  mk_df ["Ticker"; "Shares"; "AvgCostJPY"]
    [ [CStr "AAPL"; CNum 100; CNum 15000];
      [CStr "MSFT"; CNum 50; CNum 25000];
      [CStr "7203.T"; CNum 1000; CNum 800];
      [CStr "ASML"; CNum 20; CNum 60000];
      [CStr "TSLA"; CNum 30; CNum 20000] ].

Section Load.

Variable str_of_float : Q -> string.
Variable parse_float : string -> option Q.

(** [load_portfolio_data], from the table that [pd.read_csv] returned:
    the table is cleaned when the validation passes; [None] otherwise
    (the messages go to the page). *)
Definition load_portfolio_data (df : DataFrame) : option DataFrame :=
  let '(validation_result, error_messages) := validate_portfolio_data df in
  if negb validation_result then None
  else clean_portfolio_data str_of_float parse_float df.

End Load.

Example sample_data_loads :
  load_portfolio_data show_zero no_parse get_sample_data
  = Some get_sample_data.
Proof. reflexivity. Qed.

(** *** What a passed validation guarantees *)

Lemma validated_parts (df : DataFrame) :
  fst (validate_portfolio_data df) = true ->
  empty df = false
  /\ has_column df "Ticker" = true
  /\ has_column df "Shares" = true
  /\ has_column df "AvgCostJPY" = true
  /\ check_positive df "Shares" = []
  /\ check_positive df "AvgCostJPY" = []
  /\ check_duplicates df = []
  /\ check_nulls df = [].
Proof.
  unfold validate_portfolio_data.
  destruct (empty df); [discriminate|]. cbn [fst].
  unfold required_columns. cbn [List.filter].
  destruct (has_column df "Ticker"), (has_column df "Shares"),
    (has_column df "AvgCostJPY"); cbn [negb is_nil app]; try discriminate.
  destruct (check_positive df "Shares"); [|discriminate].
  destruct (check_positive df "AvgCostJPY"); [|discriminate].
  destruct (check_duplicates df); [|discriminate].
  destruct (check_nulls df); [|discriminate].
  intros _. repeat split; reflexivity.
Qed.

Lemma no_nulls_cell (df : DataFrame) (row : list cell) (j : nat) :
  check_nulls df = [] -> In row (rows df) ->
  (j < length (columns df))%nat -> cell_at j row <> CNull.
Proof.
  unfold check_nulls, null_flags.
  destruct (existsb _ _) eqn:E; [discriminate|]. intros _ Hrow Hj Hc.
  rewrite existsb_false_forall in E.
  specialize (E (existsb (fun r => is_null (cell_at j r)) (rows df))).
  assert (Hin : In (existsb (fun r => is_null (cell_at j r)) (rows df))
                  (List.map (fun j => existsb (fun r => is_null (cell_at j r))
                                        (rows df))
                     (seq 0 (length (columns df))))).
  { apply in_map_iff. exists j. split; [reflexivity|]. apply in_seq. lia. }
  specialize (E Hin). rewrite existsb_false_forall in E.
  specialize (E row Hrow). now rewrite Hc in E.
Qed.

Lemma positive_column_cell (df : DataFrame) (name : string) (j : nat)
    (row : list cell) :
  col_index name (columns df) = Some j ->
  check_positive df name = [] -> check_nulls df = [] ->
  In row (rows df) ->
  exists q, cell_at j row = CNum q /\ 0 < q.
Proof.
  intros Hj Hp Hn Hrow. unfold check_positive, column in Hp. rewrite Hj in Hp.
  destruct (is_numeric_dtype _) eqn:Enum; cbn [negb] in Hp; [|discriminate].
  destruct (existsb nonpositive _) eqn:Epos; [discriminate|].
  pose proof (no_nulls_cell df row j Hn Hrow (col_index_lt _ _ _ Hj)) as Hnn.
  unfold is_numeric_dtype in Enum. rewrite forallb_forall in Enum.
  rewrite existsb_false_forall in Epos.
  assert (Hin : In (cell_at j row) (List.map (cell_at j) (rows df)))
    by (now apply in_map).
  specialize (Enum _ Hin). specialize (Epos _ Hin).
  destruct (cell_at j row) as [|q|s]; [contradiction| |discriminate].
  exists q. split; [reflexivity|]. cbn in Epos.
  apply Qnot_le_lt. intros Hle. apply Qle_bool_iff in Hle. congruence.
Qed.

(** *** Where the cells of a prepared row come from *)

Section Pipeline.

Variable str_of_float : Q -> string.
Variable parse_float : string -> option Q.

Abbreviation prepared := (prepared_rows str_of_float parse_float).
Abbreviation clean := (clean_portfolio_data str_of_float parse_float).
Abbreviation load := (load_portfolio_data str_of_float parse_float).
Abbreviation norm := (normalize_ticker str_of_float).
Abbreviation num := (to_numeric parse_float).

Lemma cell_at_insert_same (j : nat) (c : cell) (row : list cell) :
  cell_at j (<[ j := c ]> row) <> CNull -> cell_at j (<[ j := c ]> row) = c.
Proof. destruct (cell_at_insert_eq j c row) as [E | E]; congruence. Qed.

Lemma prepared_row_origin (jt js ja : nat) (df : DataFrame)
    (r : list cell) :
  jt <> js -> jt <> ja -> js <> ja ->
  (jt < length (columns df))%nat -> (js < length (columns df))%nat ->
  (ja < length (columns df))%nat ->
  In r (prepared jt js ja df) ->
  exists r0,
    In r0 (rows df)
    /\ r = <[ ja := num (cell_at ja r0) ]>
             (<[ js := num (cell_at js r0) ]>
                (<[ jt := norm (cell_at jt r0) ]> r0))
    /\ cell_at jt r = norm (cell_at jt r0)
    /\ cell_at js r = num (cell_at js r0)
    /\ cell_at ja r = num (cell_at ja r0).
Proof.
  intros Hts Hta Hsa Ht Hs Ha Hin.
  pose proof (prepared_row_complete _ _ _ _ _ _ _ jt Hin Ht) as Nt.
  pose proof (prepared_row_complete _ _ _ _ _ _ _ js Hin Hs) as Ns.
  pose proof (prepared_row_complete _ _ _ _ _ _ _ ja Hin Ha) as Na.
  unfold prepared_rows, dropna in Hin. apply filter_In in Hin as [Hin _].
  unfold assign_column in Hin.
  apply in_map_iff in Hin as (r2 & <- & Hin).
  apply in_map_iff in Hin as (r1 & <- & Hin).
  apply in_map_iff in Hin as (r0 & <- & Hin).
  exists r0. split; [exact Hin|].
  set (r1 := <[ jt := norm (cell_at jt r0) ]> r0) in *.
  assert (E1s : cell_at js r1 = cell_at js r0)
    by (apply cell_at_insert_ne; congruence).
  assert (E1a : cell_at ja r1 = cell_at ja r0)
    by (apply cell_at_insert_ne; congruence).
  rewrite E1s in *.
  set (r2 := <[ js := num (cell_at js r0) ]> r1) in *.
  assert (E2a : cell_at ja r2 = cell_at ja r0).
  { unfold r2. rewrite cell_at_insert_ne by congruence. exact E1a. }
  rewrite E2a in *.
  assert (E2t : cell_at jt r2 = cell_at jt r1)
    by (apply cell_at_insert_ne; congruence).
  rewrite (cell_at_insert_ne ja jt) in Nt |- * by congruence.
  rewrite (cell_at_insert_ne ja js) in Ns |- * by congruence.
  rewrite E2t in *.
  split; [reflexivity|].
  split; [now apply cell_at_insert_same|].
  split; now apply cell_at_insert_same.
Qed.

Lemma num_not_text (c : cell) (s : string) : num c <> CStr s.
Proof.
  destruct c as [|q|t]; cbn; try discriminate.
  destruct (parse_float t); discriminate.
Qed.

(** *** The loaded holdings *)

(** X11.  A table that [load_portfolio_data] returns has, in every row,
    a number above zero for Shares and for AvgCostJPY and a text for the
    ticker, with no ticker twice. *)
Theorem loaded_holdings_positive (df df' : DataFrame) :
  load df = Some df' ->
  exists jt js ja,
    col_index "Ticker" (columns df') = Some jt
    /\ col_index "Shares" (columns df') = Some js
    /\ col_index "AvgCostJPY" (columns df') = Some ja
    /\ List.NoDup (List.map (cell_at jt) (rows df'))
    /\ forall row, In row (rows df') ->
         exists t q a,
           cell_at jt row = CStr t
           /\ cell_at js row = CNum q /\ 0 < q
           /\ cell_at ja row = CNum a /\ 0 < a.
Proof.
  unfold load_portfolio_data.
  destruct (validate_portfolio_data df) as [ok errs] eqn:Ev.
  destruct ok; cbn [negb]; [|discriminate]. intros Hc.
  assert (Hok : fst (validate_portfolio_data df) = true)
    by (now rewrite Ev).
  destruct (validated_parts df Hok)
    as (_ & Ht & Hs & Ha & Ps & Pa & _ & Pn).
  destruct (col_index_has_column _ _ Ht) as [jt Ejt].
  destruct (col_index_has_column _ _ Hs) as [js Ejs].
  destruct (col_index_has_column _ _ Ha) as [ja Eja].
  unfold clean_portfolio_data in Hc. rewrite Ejt, Ejs, Eja in Hc.
  injection Hc as <-. cbn [columns rows].
  exists jt, js, ja.
  repeat (split; [assumption|]).
  split; [apply drop_duplicates_from_NoDup|].
  intros row Hrow. apply drop_duplicates_from_incl in Hrow.
  assert (Hts : jt <> js).
  { intros ->. apply col_index_label in Ejt, Ejs. congruence. }
  assert (Hta : jt <> ja).
  { intros ->. apply col_index_label in Ejt, Eja. congruence. }
  assert (Hsa : js <> ja).
  { intros ->. apply col_index_label in Ejs, Eja. congruence. }
  destruct (prepared_row_origin jt js ja df row Hts Hta Hsa
              (col_index_lt _ _ _ Ejt) (col_index_lt _ _ _ Ejs)
              (col_index_lt _ _ _ Eja) Hrow)
    as (r0 & Hr0 & _ & Et & Es & Ea).
  destruct (positive_column_cell df "Shares" js r0 Ejs Ps Pn Hr0)
    as (q & Eq & Hq).
  destruct (positive_column_cell df "AvgCostJPY" ja r0 Eja Pa Pn Hr0)
    as (a & Eqa & Hqa).
  exists (upper (strip (astype_str str_of_float (cell_at jt r0)))).
  exists q, a. rewrite Et, Es, Ea, Eq, Eqa. cbn. auto.
Qed.

(** *** Cleaning twice *)

Lemma drop_duplicates_from_idem (j : nat) (seen : list cell)
    (rs : list (list cell)) :
  drop_duplicates_from j seen (drop_duplicates_from j seen rs)
  = drop_duplicates_from j seen rs.
Proof.
  revert seen. induction rs as [|row rs IH]; intros seen; [reflexivity|].
  cbn [drop_duplicates_from].
  destruct (existsb (cell_eqb (cell_at j row)) seen) eqn:E; [apply IH|].
  cbn [drop_duplicates_from]. rewrite E. now rewrite IH.
Qed.

Lemma cell_at_lookup (j : nat) (row : list cell) :
  cell_at j row <> CNull -> row !! j = Some (cell_at j row).
Proof.
  unfold cell_at. destruct (row !! j); cbn; [reflexivity | congruence].
Qed.

Lemma assign_fixed (j : nat) (f : cell -> cell) (rs : list (list cell)) :
  (forall r, In r rs -> cell_at j r <> CNull /\ f (cell_at j r) = cell_at j r) ->
  assign_column j f rs = rs.
Proof.
  intros H. unfold assign_column. rewrite <- (map_id rs) at 2.
  apply map_ext_in. intros r Hr. destruct (H r Hr) as [Hn ->].
  apply list_insert_id. now apply cell_at_lookup.
Qed.

Lemma filter_all {A} (p : A -> bool) (l : list A) :
  (forall x, In x l -> p x = true) -> List.filter p l = l.
Proof.
  induction l as [|a l IH]; intros H; [reflexivity|].
  cbn. rewrite (H a (or_introl eq_refl)). f_equal.
  apply IH. intros x Hx. apply H. now right.
Qed.

(** X12.  Cleaning is idempotent: a table that the cleaner returned is
    returned unchanged when it is cleaned again. *)
Theorem clean_idempotent (df df' : DataFrame) :
  clean df = Some df' -> clean df' = Some df'.
Proof.
  unfold clean_portfolio_data.
  destruct (col_index "Ticker" (columns df)) as [jt|] eqn:Ejt;
    [|discriminate].
  destruct (col_index "Shares" (columns df)) as [js|] eqn:Ejs;
    [|discriminate].
  destruct (col_index "AvgCostJPY" (columns df)) as [ja|] eqn:Eja;
    [|discriminate].
  intros [= <-]. cbn [columns rows]. rewrite Ejt, Ejs, Eja.
  assert (Hts : jt <> js).
  { intros ->. apply col_index_label in Ejt, Ejs. congruence. }
  assert (Hta : jt <> ja).
  { intros ->. apply col_index_label in Ejt, Eja. congruence. }
  assert (Hsa : js <> ja).
  { intros ->. apply col_index_label in Ejs, Eja. congruence. }
  pose proof (col_index_lt _ _ _ Ejt) as Lt.
  pose proof (col_index_lt _ _ _ Ejs) as Ls.
  pose proof (col_index_lt _ _ _ Eja) as La.
  set (P := prepared jt js ja df).
  set (D := drop_duplicates jt P).
  assert (Hsub : forall r, In r D -> In r P)
    by (intros r; apply drop_duplicates_from_incl).
  assert (Hcomplete : forall r j, In r D ->
            (j < length (columns df))%nat -> cell_at j r <> CNull).
  { intros r j Hr Hj. eapply prepared_row_complete; [apply Hsub, Hr | exact Hj]. }
  assert (Horigin : forall r, In r D ->
            exists c cs ca, cell_at jt r = norm c
                            /\ cell_at js r = num cs
                            /\ cell_at ja r = num ca).
  { intros r Hr.
    destruct (prepared_row_origin jt js ja df r Hts Hta Hsa Lt Ls La
                (Hsub r Hr)) as (r0 & _ & _ & E1 & E2 & E3).
    exists (cell_at jt r0), (cell_at js r0), (cell_at ja r0). auto. }
  assert (Hnum : forall c, num c <> CNull -> num (num c) = num c).
  { intros c Hc. destruct (num c) as [|q|t] eqn:E; [contradiction| |].
    - reflexivity.
    - now apply num_not_text in E. }
  f_equal. f_equal. unfold prepared_rows. cbn [columns rows].
  rewrite (assign_fixed jt).
  2:{ intros r Hr. split; [now apply Hcomplete|].
      destruct (Horigin r Hr) as (c & _ & _ & -> & _).
      unfold normalize_ticker. cbn [astype_str].
      destruct (upper_strip_fixed (astype_str str_of_float c)) as [_ Hs].
      rewrite Hs. now rewrite upper_idem. }
  rewrite (assign_fixed js).
  2:{ intros r Hr. split; [now apply Hcomplete|].
      destruct (Horigin r Hr) as (_ & cs & _ & _ & E & _).
      rewrite E. apply Hnum. rewrite <- E. now apply Hcomplete. }
  rewrite (assign_fixed ja).
  2:{ intros r Hr. split; [now apply Hcomplete|].
      destruct (Horigin r Hr) as (_ & _ & ca & _ & _ & E).
      rewrite E. apply Hnum. rewrite <- E. now apply Hcomplete. }
  unfold dropna. rewrite filter_all.
  2:{ intros r Hr. apply Hsub in Hr. unfold P, prepared_rows, dropna in Hr.
      now apply filter_In in Hr as [_ Hr]. }
  apply drop_duplicates_from_idem.
Qed.

End Pipeline.

Lemma loaded_holdings_positive_witness :
  load_portfolio_data show_zero no_parse get_sample_data
  = Some get_sample_data
  /\ exists jt, List.NoDup (List.map (cell_at jt) (rows get_sample_data)).
Proof.
  assert (H : load_portfolio_data show_zero no_parse get_sample_data
              = Some get_sample_data) by reflexivity.
  destruct (loaded_holdings_positive show_zero no_parse _ _ H)
    as (jt & _ & _ & _ & _ & _ & Hn & _).
  split; [exact H|]. exists jt. exact Hn.
Defined.

Lemma clean_idempotent_witness :
  clean_portfolio_data show_zero no_parse raw_book
  = Some (mk_df ["Ticker"; "Shares"; "AvgCostJPY"]
            [ [CStr "AAPL"; CNum 100; CNum 15000];
              [CStr "MSFT"; CNum 50; CNum 25000] ])
  /\ clean_portfolio_data show_zero no_parse
       (mk_df ["Ticker"; "Shares"; "AvgCostJPY"]
          [ [CStr "AAPL"; CNum 100; CNum 15000];
            [CStr "MSFT"; CNum 50; CNum 25000] ])
     = Some (mk_df ["Ticker"; "Shares"; "AvgCostJPY"]
               [ [CStr "AAPL"; CNum 100; CNum 15000];
                 [CStr "MSFT"; CNum 50; CNum 25000] ]).
Proof.
  assert (H : clean_portfolio_data show_zero no_parse raw_book
              = Some (mk_df ["Ticker"; "Shares"; "AvgCostJPY"]
                        [ [CStr "AAPL"; CNum 100; CNum 15000];
                          [CStr "MSFT"; CNum 50; CNum 25000] ]))
    by reflexivity.
  split; [exact H|].
  exact (clean_idempotent show_zero no_parse _ _ H).
Defined.

End LoadPipeline.

(** ** modules/data_adapter.py, the price views *)

Module AdapterViews.
Import QAux DataAdapter.
#[local] Open Scope Q_scope.

(** [get_multiple_current_prices]: the loop stores, for every ticker
    asked for, its price or 0.0. *)
Definition get_multiple_current_prices (self : data_bundle)
    (tickers : list string) : gmap string Q :=
  fold_left (fun result ticker =>
               <[ ticker := default 0 (current_prices self !! ticker) ]> result)
    tickers ∅.

(** [self.data_bundle['current_prices'].keys()], in the order in which the
    map lists its keys. *)
Definition price_keys (self : data_bundle) : list string :=
  (map_to_list (current_prices self)).*1.

(** [[t for t in ....keys() if self.has_sufficient_data(t)]] *)
Definition get_available_tickers (self : data_bundle) : list string :=
  List.filter (has_sufficient_data self) (price_keys self).

(** The entries of [get_data_summary] that are counts over the bundle
    entries modelled here. *)
Record data_summary : Type := mk_data_summary {
  total_tickers : nat;
  tickers_with_prices : nat;
  tickers_with_company_info : nat;
  tickers_with_historical_data : nat;
  exchange_rates_available : nat
}.

Definition get_data_summary (self : data_bundle) : data_summary :=
  {| total_tickers := size (current_prices self);
     tickers_with_prices :=
       length (List.filter (fun p => Qltb 0 p)
                 (map_to_list (current_prices self)).*2);
     tickers_with_company_info :=
       length (List.filter
                 (fun info : gmap string string => negb (bool_decide (info = ∅)))
                 (map_to_list (company_info self)).*2);
     tickers_with_historical_data :=
       length (List.filter
                 (fun df : list Q => negb (bool_decide (df = [])))
                 (map_to_list (historical_prices self)).*2);
     exchange_rates_available := size (exchange_rates self) |}.

(** *** Available tickers *)

Lemma sufficient_of_entry (self : data_bundle) (k : string) (v : Q) :
  current_prices self !! k = Some v ->
  has_sufficient_data self k = Qltb 0 v.
Proof. intros H. unfold has_sufficient_data. now rewrite H. Qed.

Lemma filter_fst_snd_length {A B} (f : A -> bool) (g : B -> bool)
    (l : list (A * B)) :
  (forall k v, In (k, v) l -> f k = g v) ->
  length (List.filter f l.*1) = length (List.filter g l.*2).
Proof.
  induction l as [|[k v] l IH]; intros H; [reflexivity|].
  cbn. rewrite (H k v (or_introl eq_refl)).
  assert (IH' : length (List.filter f l.*1) = length (List.filter g l.*2)).
  { apply IH. intros k' v' Hin. apply H. now right. }
  destruct (g v); cbn; now rewrite IH'.
Qed.

Lemma available_iff (self : data_bundle) (t : string) :
  In t (get_available_tickers self)
  <-> exists p, current_prices self !! t = Some p /\ 0 < p.
Proof.
  unfold get_available_tickers, price_keys. rewrite filter_In.
  rewrite <- list_elem_of_In, list_elem_of_fmap. split.
  - intros [([k v] & -> & Hin) Hs]. cbn in *.
    apply elem_of_map_to_list in Hin.
    rewrite (sufficient_of_entry _ _ _ Hin) in Hs.
    exists v. split; [exact Hin | now apply Qltb_lt].
  - intros (p & Hp & Hpos). split.
    + exists (t, p). split; [reflexivity|]. now apply elem_of_map_to_list.
    + rewrite (sufficient_of_entry _ _ _ Hp). now apply Qltb_lt.
Qed.

Lemma available_count (self : data_bundle) :
  length (get_available_tickers self)
  = tickers_with_prices (get_data_summary self)
  /\ (tickers_with_prices (get_data_summary self)
      <= total_tickers (get_data_summary self))%nat.
Proof.
  unfold get_available_tickers, price_keys, get_data_summary.
  cbn [tickers_with_prices total_tickers]. split.
  - apply filter_fst_snd_length. intros k v Hin.
    apply sufficient_of_entry, elem_of_map_to_list.
    now apply list_elem_of_In.
  - rewrite <- length_map_to_list.
    rewrite <- (length_fmap snd (map_to_list (current_prices self))).
    apply filter_length_le.
Qed.

(** X13.  [get_available_tickers] lists, once each, exactly the tickers
    whose current price is present and above zero; their number is the
    [tickers_with_prices] entry of [get_data_summary], which is at most
    its [total_tickers] entry. *)
Theorem available_tickers_are_priced (self : data_bundle) :
  (forall t, In t (get_available_tickers self)
             <-> exists p, current_prices self !! t = Some p /\ 0 < p)
  /\ (forall t, In t (get_available_tickers self)
                <-> has_sufficient_data self t = true
                    /\ is_Some (current_prices self !! t))
  /\ List.NoDup (get_available_tickers self)
  /\ length (get_available_tickers self)
     = tickers_with_prices (get_data_summary self)
  /\ (tickers_with_prices (get_data_summary self)
      <= total_tickers (get_data_summary self))%nat.
Proof.
  split; [apply available_iff|]. split; [|split; [|apply available_count]].
  - intros t. rewrite available_iff. split.
    + intros (p & Hp & Hpos). split; [|eauto].
      rewrite (sufficient_of_entry _ _ _ Hp). now apply Qltb_lt.
    + intros [Hs [p Hp]]. exists p. split; [exact Hp|].
      rewrite (sufficient_of_entry _ _ _ Hp) in Hs. now apply Qltb_lt.
  - unfold get_available_tickers, price_keys. apply List.NoDup_filter.
    apply NoDup_ListNoDup, NoDup_fst_map_to_list.
Qed.

(** *** Several prices at once *)

Lemma multiple_prices_fold (self : data_bundle) (tickers : list string)
    (m : gmap string Q) (t : string) :
  fold_left (fun result ticker =>
               <[ ticker := default 0 (current_prices self !! ticker) ]> result)
    tickers m !! t
  = if bool_decide (t ∈ tickers) then Some (get_current_price self t)
    else m !! t.
Proof.
  revert m. induction tickers as [|a tickers IH]; intros m.
  - cbn. rewrite bool_decide_eq_false_2; [reflexivity|]. apply not_elem_of_nil.
  - cbn [fold_left]. rewrite IH.
    destruct (decide (t ∈ tickers)) as [Hin | Hin].
    + rewrite !bool_decide_eq_true_2; [reflexivity| |exact Hin].
      apply elem_of_cons. now right.
    + rewrite (bool_decide_eq_false_2 _ Hin).
      destruct (decide (a = t)) as [-> | Hne].
      * rewrite lookup_insert_eq.
        rewrite bool_decide_eq_true_2; [reflexivity|].
        apply elem_of_cons. now left.
      * rewrite lookup_insert_ne by exact Hne.
        rewrite bool_decide_eq_false_2; [reflexivity|].
        rewrite elem_of_cons. intros [E | E]; [now apply Hne | now apply Hin].
Qed.

(** X14.  [get_multiple_current_prices] has an entry for every ticker
    asked for and for no other: the price of the bundle, or 0 for a
    ticker the bundle does not know; the entry is above zero exactly when
    [has_sufficient_data] holds of the ticker. *)
Theorem multiple_prices_lookup (self : data_bundle) (tickers : list string)
    (t : string) :
  (In t tickers ->
   get_multiple_current_prices self tickers !! t
   = Some (default 0 (current_prices self !! t))
   /\ (has_sufficient_data self t = true
       <-> exists p, get_multiple_current_prices self tickers !! t = Some p
                     /\ 0 < p))
  /\ (~ In t tickers -> get_multiple_current_prices self tickers !! t = None).
Proof.
  unfold get_multiple_current_prices. rewrite multiple_prices_fold.
  rewrite <- list_elem_of_In. split; intros H.
  - rewrite bool_decide_eq_true_2 by exact H. split; [reflexivity|].
    unfold has_sufficient_data, get_current_price. rewrite Qltb_lt. split.
    + intros Hp. eauto.
    + now intros (p & [= <-] & Hp).
  - now rewrite bool_decide_eq_false_2.
Qed.

Definition demo_bundle : data_bundle :=
  mk_data_bundle {[ "AAPL" := 200 ]} ∅ ∅ ∅ ∅.

Lemma multiple_prices_lookup_witness :
  In "MSFT" ["AAPL"; "MSFT"]
  /\ get_multiple_current_prices demo_bundle ["AAPL"; "MSFT"] !! "MSFT"
     = Some 0
  /\ ~ In "TSLA" ["AAPL"; "MSFT"]
  /\ get_multiple_current_prices demo_bundle ["AAPL"; "MSFT"] !! "TSLA"
     = None.
Proof.
  assert (H1 : In "MSFT" ["AAPL"; "MSFT"]) by (right; now left).
  assert (H2 : ~ In "TSLA" ["AAPL"; "MSFT"]).
  { intros [H | [H | []]]; discriminate H. }
  split; [exact H1|].
  split; [exact (proj1 (proj1 (multiple_prices_lookup demo_bundle _ _) H1))|].
  split; [exact H2|].
  exact (proj2 (multiple_prices_lookup demo_bundle _ _) H2).
Defined.

End AdapterViews.

(** ** modules/risk_calculator.py, contributions, bounds and beta *)

Module RiskBounds.
Import RiskCalculator.
#[local] Open Scope R_scope.

(** [s.var()]: sample variance of the entries that are not NaN. *)
Definition var_values (xs : list R) : float :=
  let n := length xs in
  if (n <=? 1)%nat then None
  else Some (Rsum (List.map (fun a => (a - mean xs) * (a - mean xs)) xs)
             / INR (n - 1)).

(** [calculate_beta].  [np.cov(a, b)[0, 1]] is the sample covariance of
    the two arrays and raises on arrays of different lengths, which the
    [except] branch answers with 1.0. *)
Definition calculate_beta (stock_returns market_returns : list float)
  : float :=
  if is_nil stock_returns || is_nil market_returns then Some 1
  else
    let a := dropna stock_returns in
    let b := dropna market_returns in
    if negb (length a =? length b)%nat then Some 1
    else
      let covariance := cov a b in
      let market_variance := var_values (dropna market_returns) in
      if fpos market_variance then fdiv covariance market_variance
      else Some 1.

(** *** Risk contributions add up to the volatility *)

Lemma Rsum_contrib (ws ms : list R) (v : R) :
  v <> 0 ->
  Rsum (zip_with (fun w m => w * (m / v)) ws ms)
  = Rsum (zip_with Rmult ws ms) / v.
Proof.
  intros Hv. revert ms.
  induction ws as [|w ws IH]; intros [|m ms]; try (cbn; field; assumption).
  cbn [zip_with Rsum fold_right].
  change (fold_right Rplus 0 ?l) with (Rsum l). rewrite IH. field. exact Hv.
Qed.

Lemma zeros_like_spec (w : list R) (x : float) :
  In x (zeros_like w) -> x = Some 0.
Proof. unfold zeros_like. rewrite in_map_iff. now intros (_ & <- & _). Qed.

Lemma zip_zeros (w : list R) (x : float) :
  In x (zip_with fmul (to_floats w) (zeros_like w)) -> x = Some 0.
Proof.
  unfold to_floats, zeros_like.
  induction w as [|a w IH]; cbn; [contradiction|].
  intros [<- | H]; [f_equal; lra | now apply IH].
Qed.

Lemma fsqrt_pos (a : float) : fpos a = true -> fpos (fsqrt a) = true.
Proof.
  destruct a as [x|]; cbn; [|discriminate].
  destruct (Rlt_dec 0 x) as [Hx|]; [|discriminate]. intros _.
  destruct (Rlt_dec x 0); [lra|]. cbn.
  pose proof (sqrt_lt_R0 x Hx).
  destruct (Rlt_dec 0 (sqrt x)); [reflexivity | contradiction].
Qed.

(** X15.  Where the portfolio volatility is a positive number the risk
    contributions add up to it.  Where it is zero or NaN the marginal
    risks, the contributions and the percentages are all zero. *)
Theorem risk_contributions_sum_to_volatility
    (returns : list (list R)) (weights : list R)
    (res : risk_contribution_result) :
  calculate_risk_contribution returns weights = Some res ->
  (forall v, rc_portfolio_volatility res = Some v -> 0 < v ->
             fsum (risk_contribution res) = Some v)
  /\ (fpos (rc_portfolio_volatility res) = false ->
      forall x, In x (marginal_risk res) \/ In x (risk_contribution res)
                \/ In x (risk_contribution_pct res) -> x = Some 0).
Proof.
  intros Hres. split.
  - intros v Hv Hpos.
    destruct (risk_contribution_formulas returns weights res v Hres Hv Hpos)
      as (ms & var & _ & Evar & Hvar & Esq & _ & Erc & _).
    rewrite Erc, fsum_Some, Rsum_contrib by lra. rewrite <- Evar.
    f_equal. rewrite Esq.
    rewrite <- (sqrt_sqrt var) at 1 by lra. field.
    rewrite <- Esq. lra.
  - revert Hres. unfold calculate_risk_contribution.
    destruct (table_empty returns || is_nil weights); [discriminate|].
    destruct (negb _); [discriminate|]. intros [= <-].
    cbn [rc_portfolio_volatility marginal_risk risk_contribution
         risk_contribution_pct].
    intros Hz. rewrite Hz.
    destruct (fpos (dot _ _)) eqn:Ev.
    { apply fsqrt_pos in Ev. congruence. }
    intros x [H | [H | H]].
    + now apply zeros_like_spec in H.
    + now apply zip_zeros in H.
    + now apply zeros_like_spec in H.
Qed.

Lemma risk_contributions_sum_to_volatility_witness :
  exists res,
    calculate_risk_contribution sample_returns even_weights = Some res
    /\ rc_portfolio_volatility res = Some 3 /\ 0 < 3
    /\ fsum (risk_contribution res) = Some 3.
Proof.
  eexists. split; [apply risk_contribution_sample|].
  assert (H : 0 < 3) by lra.
  split; [reflexivity|]. split; [exact H|].
  exact (proj1 (risk_contributions_sum_to_volatility _ _ _
                  risk_contribution_sample) 3 eq_refl H).
Defined.

(** *** VaR and CVaR stay within the observations *)

Lemma percentile_upper (xs : list R) (q v : R) :
  xs <> [] -> percentile xs q = Some v -> exists y, In y xs /\ v <= y.
Proof.
  intros Hne. unfold percentile.
  destruct (Rle_dec 0 q) as [H0|]; [|discriminate].
  destruct (Rle_dec q 100) as [H1|]; [|discriminate].
  cbv zeta. intros [= <-].
  set (s := sort xs). set (n := length s).
  set (idx := q / 100 * INR (n - 1)).
  set (lo := Z.to_nat (Int_part idx)).
  assert (Hn : (0 < n)%nat).
  { unfold n, s. rewrite sort_length. destruct xs; [contradiction|].
    cbn. lia. }
  assert (Hlo : (lo <= n - 1)%nat).
  { assert (Hidx : idx <= INR (n - 1)).
    { unfold idx. pose proof (pos_INR (n - 1)). nra. }
    destruct (base_Int_part idx) as [Hb _].
    assert (Hz : (Int_part idx <= Z.of_nat (n - 1))%Z).
    { apply le_IZR. rewrite <- INR_IZR_INZ. lra. }
    unfold lo. lia. }
  exists (nth (Nat.min (lo + 1) (n - 1)) s 0). split.
  - apply sort_In. fold s. apply nth_In. fold n. lia.
  - destruct (base_fp idx) as [Hg Hg1].
    assert (Hle : nth lo s 0 <= nth (Nat.min (lo + 1) (n - 1)) s 0).
    { apply sorted_nth_le; [apply sort_sorted|]. fold n. lia. }
    nra.
Qed.

Lemma Rsum_ge_bound (l : list R) (v : R) :
  (forall x, In x l -> v <= x) -> INR (length l) * v <= Rsum l.
Proof.
  induction l as [|x l IH]; intros H; [cbn; lra|].
  change (INR (S (length l)) * v <= x + Rsum l). rewrite S_INR.
  assert (v <= x) by (apply H; now left).
  assert (INR (length l) * v <= Rsum l)
    by (apply IH; intros; apply H; now right).
  lra.
Qed.

Lemma mean_ge_bound (l : list R) (v : R) :
  l <> [] -> (forall x, In x l -> v <= x) -> v <= mean l.
Proof.
  intros Hne H. unfold mean.
  assert (Hn : 0 < INR (length l)).
  { apply lt_0_INR. destruct l; [contradiction | cbn; lia]. }
  pose proof (Rsum_ge_bound l v H) as Hs.
  apply Rmult_le_reg_r with (INR (length l)); [exact Hn|].
  unfold Rdiv. rewrite Rmult_assoc, Rinv_l by lra. lra.
Qed.

(** X16.  If every observation lies between [a] and [b], so do the VaR
    and the CVaR stored under the label of a level (of a list of levels
    that the loop gets through, the label as the machine computes it and
    not shared by a later level), in the order [a <= CVaR <= VaR <= b].
    The percentile and the mean are those of the reals; in floats each
    can be off by a rounding. *)
Theorem var_cvar_within_observations (s : list float)
    (l1 l2 : list Double.double) (c : Double.double) (l : Z) (a b : R) :
  dropna s <> [] ->
  (forall c', In c' (l1 ++ c :: l2) -> level_ok c') ->
  label c = Some l ->
  (forall c', In c' l2 -> label c' <> Some l) ->
  (forall x, In x (dropna s) -> a <= x <= b) ->
  exists var cvar,
    calculate_var_cvar s (l1 ++ c :: l2) !! var_key l = Some var
    /\ calculate_var_cvar s (l1 ++ c :: l2) !! cvar_key l = Some cvar
    /\ a <= cvar /\ cvar <= var /\ var <= b.
Proof.
  intros Hne Hok El Hfresh Hab.
  destruct (var_cvar_at_level s l1 l2 c l Hne Hok El Hfresh)
    as (q & var & _ & Hp & Hv & Hc & Htail & Ht & Hle).
  exists var, (mean (tail_returns s var)).
  split; [exact Hv|]. split; [exact Hc|]. split; [|split; [exact Hle|]].
  - apply mean_ge_bound; [exact Ht|]. intros x Hx.
    apply Htail in Hx as [Hx _]. now apply Hab.
  - destruct (percentile_upper _ _ _ Hne Hp) as (y & Hy & Hvy).
    destruct (Hab y Hy). lra.
Qed.

Lemma var_cvar_within_observations_witness :
  dropna [Some 0; Some 1] <> []
  /\ (forall x, In x (dropna [Some 0; Some 1]) -> 0 <= x <= 1)
  /\ label Double.Lit.d0_29 = Some 28%Z
  /\ exists var cvar,
      calculate_var_cvar [Some 0; Some 1]
        [Double.Lit.d0_28; Double.Lit.d0_29] !! "VaR_28" = Some var
      /\ calculate_var_cvar [Some 0; Some 1]
           [Double.Lit.d0_28; Double.Lit.d0_29] !! "CVaR_28" = Some cvar
      /\ 0 <= cvar /\ cvar <= var /\ var <= 1.
Proof.
  assert (Hne : dropna [Some 0; Some 1] <> []) by discriminate.
  assert (Hfresh : forall c', In c' (@nil Double.double) ->
                     label c' <> Some 28%Z) by (intros c' []).
  assert (Hab : forall x, In x (dropna [Some 0; Some 1]) -> 0 <= x <= 1).
  { intros x [<- | [<- | []]]; lra. }
  split; [exact Hne|]. split; [exact Hab|]. split; [exact label_0_29|].
  exact (var_cvar_within_observations [Some 0; Some 1] [Double.Lit.d0_28] []
           Double.Lit.d0_29 28 0 1 Hne levels_28_29_ok label_0_29 Hfresh
           Hab).
Defined.

(** *** Beta *)

Lemma dropna_somes (xs : list R) : dropna (List.map Some xs) = xs.
Proof. induction xs as [|x xs IH]; [reflexivity|]. cbn. now f_equal. Qed.

Lemma cov_diag (xs : list R) : cov xs xs = var_values xs.
Proof. unfold cov, var_values. now rewrite zip_with_diag. Qed.

Lemma var_values_nonneg (xs : list R) (v : R) :
  var_values xs = Some v -> 0 <= v.
Proof.
  unfold var_values. destruct (length xs <=? 1)%nat eqn:E; [discriminate|].
  intros [= <-]. apply Rmult_le_pos; [apply Rsum_squares_nonneg|].
  left. apply Rinv_0_lt_compat, INR_pred_pos, E.
Qed.

Lemma beta_self (s : list float) : calculate_beta s s = Some 1.
Proof.
  unfold calculate_beta.
  destruct (is_nil s || is_nil s); [reflexivity|].
  rewrite Nat.eqb_refl. cbn [negb]. rewrite cov_diag.
  destruct (var_values (dropna s)) as [v|]; cbn; [|reflexivity].
  destruct (Rlt_dec 0 v); [|reflexivity]. f_equal. field. lra.
Qed.

Lemma Rsum_scale (k : R) (xs : list R) :
  Rsum (List.map (fun x => k * x) xs) = k * Rsum xs.
Proof.
  induction xs as [|x xs IH]; [cbn; lra|].
  cbn [List.map]. change (k * x + Rsum (List.map (fun x => k * x) xs)
                          = k * (x + Rsum xs)).
  rewrite IH. lra.
Qed.

Lemma mean_scale (k : R) (xs : list R) :
  mean (List.map (fun x => k * x) xs) = k * mean xs.
Proof.
  unfold mean. rewrite Rsum_scale, length_map. unfold Rdiv. lra.
Qed.

Lemma Rsum_cov_scale (k mu : R) (xs : list R) :
  Rsum (zip_with (fun a b => (a - k * mu) * (b - mu))
          (List.map (fun x => k * x) xs) xs)
  = k * Rsum (List.map (fun a => (a - mu) * (a - mu)) xs).
Proof.
  induction xs as [|x xs IH]; [cbn; lra|].
  cbn [List.map zip_with].
  change (Rsum (?a :: ?l)) with (a + Rsum l). rewrite IH.
  change (Rsum (?a :: ?l)) with (a + Rsum l). lra.
Qed.

Lemma is_nil_map {A B} (f : A -> B) (l : list A) :
  is_nil (List.map f l) = is_nil l.
Proof. now destruct l. Qed.

Lemma beta_scaled (k v : R) (ms : list R) :
  ms <> [] -> var_values ms = Some v -> 0 < v ->
  calculate_beta (List.map (fun x => Some (k * x)) ms) (List.map Some ms)
  = Some k.
Proof.
  intros Hne Hv Hpos. unfold calculate_beta.
  replace (List.map (fun x => Some (k * x)) ms)
    with (List.map Some (List.map (fun x => k * x) ms))
    by (now rewrite map_map).
  rewrite !dropna_somes, !is_nil_map, (is_nil_false _ Hne).
  cbn [orb]. rewrite length_map, Nat.eqb_refl. cbn [negb].
  rewrite Hv. cbn [fpos]. destruct (Rlt_dec 0 v); [|contradiction].
  unfold cov. rewrite length_map, mean_scale.
  unfold var_values in Hv.
  destruct (length ms <=? 1)%nat eqn:El; [discriminate|].
  injection Hv as Hv. rewrite Rsum_cov_scale. cbn [fdiv]. f_equal.
  pose proof (INR_pred_pos _ El) as Hd.
  set (S := Rsum (List.map (fun a => (a - mean ms) * (a - mean ms)) ms)) in *.
  set (d := INR (length ms - 1)) in *.
  assert (HS : S <> 0).
  { intros E. rewrite E in Hv. unfold Rdiv in Hv. rewrite Rmult_0_l in Hv.
    lra. }
  rewrite <- Hv. field. split; [lra | exact HS].
Qed.

(** X17.  The beta of a series against itself is 1, also where the
    variance is zero or NaN (the fallback value).  Against a market
    series without NaN and of positive variance, the beta of [k] times
    the market is [k]. *)
Theorem beta_of_scaled_market :
  (forall s : list float, calculate_beta s s = Some 1)
  /\ (forall (k v : R) (ms : list R),
        ms <> [] -> var_values ms = Some v -> 0 < v ->
        calculate_beta (List.map (fun x => Some (k * x)) ms)
          (List.map Some ms) = Some k).
Proof. split; [exact beta_self | exact beta_scaled]. Qed.

Lemma beta_of_scaled_market_witness :
  [0; 2; 4] <> [] /\ var_values [0; 2; 4] = Some 4 /\ 0 < 4
  /\ calculate_beta (List.map (fun x => Some (2 * x)) [0; 2; 4])
       (List.map Some [0; 2; 4]) = Some 2.
Proof.
  assert (H1 : [0; 2; 4] <> []) by discriminate.
  assert (H2 : var_values [0; 2; 4] = Some 4).
  { rewrite <- cov_diag. exact cov_sample_11. }
  assert (H3 : 0 < 4) by lra.
  split; [exact H1|]. split; [exact H2|]. split; [exact H3|].
  exact (proj2 beta_of_scaled_market 2 4 [0; 2; 4] H1 H2 H3).
Defined.

End RiskBounds.

(** ** modules/risk_calculator.py, the maximum drawdown *)

Module Drawdown.
Import RiskCalculator.
#[local] Open Scope R_scope.

(** [(1 + returns).cumprod()], for a series without NaN. *)
Fixpoint cumprod_from (acc : R) (returns : list R) : list R :=
  match returns with
  | [] => []
  | r :: rest => let c := acc * (1 + r) in c :: cumprod_from c rest
  end.

Definition cumprod (returns : list R) : list R :=
  match returns with
  | [] => []
  | r :: rest => (1 + r) :: cumprod_from (1 + r) rest
  end.

(** [cumulative_returns.expanding().max()] *)
Fixpoint expanding_max_from (m : R) (cs : list R) : list R :=
  match cs with
  | [] => []
  | c :: rest => let m' := Rmax m c in m' :: expanding_max_from m' rest
  end.

Definition expanding_max (cs : list R) : list R :=
  match cs with
  | [] => []
  | c :: rest => c :: expanding_max_from c rest
  end.

(** [s.min()] of a series with a first entry, and [s.iloc[-1]]. *)
Definition series_min (x : R) (xs : list R) : R := fold_left Rmin xs x.

(** The loop over [enumerate(drawdown)]. *)
Fixpoint dd_loop (i : nat) (in_drawdown : bool) (start_idx : nat)
    (dd_periods : list nat) (drawdown : list R) : list nat :=
  match drawdown with
  | [] => dd_periods
  | dd :: rest =>
      if (if Rlt_dec dd 0 then negb in_drawdown else false)
      then dd_loop (S i) true i dd_periods rest
      else if (if Rge_dec dd 0 then in_drawdown else false)
      then dd_loop (S i) false start_idx
             (dd_periods ++ [(i - start_idx)%nat]) rest
      else dd_loop (S i) in_drawdown start_idx dd_periods rest
  end.

Record drawdown_result : Type := mk_drawdown_result {
  max_drawdown : R;
  max_drawdown_duration : nat;
  current_drawdown : R;
  drawdown_periods : nat
}.

(** What [calculate_maximum_drawdown] gives: the empty dict for an empty
    series; a result; or, where a running maximum of the cumulative
    return is 0, a division by zero, after which the source goes on with
    infinite or NaN values that this model has no numbers for. *)
Inductive drawdown_outcome : Type :=
| EmptyDict
| DividesByZero
| Result (r : drawdown_result).

Definition is_zero (x : R) : bool := if Req_dec_T x 0 then true else false.

Definition calculate_maximum_drawdown (returns : list R)
  : drawdown_outcome :=
  if is_nil returns then EmptyDict
  else
    let cumulative_returns := cumprod returns in
    let rolling_max := expanding_max cumulative_returns in
    if existsb is_zero rolling_max then DividesByZero
    else
      let drawdown :=
        zip_with (fun c m => (c - m) / m) cumulative_returns rolling_max in
      match drawdown with
      | [] => EmptyDict
      | d :: ds =>
          let dd_periods := dd_loop 0 false 0 [] drawdown in
          Result {| max_drawdown := series_min d ds;
                    max_drawdown_duration := fold_right Nat.max 0%nat dd_periods;
                    current_drawdown := List.last drawdown d;
                    drawdown_periods := length dd_periods |}
      end.

(** *** The drawdown series *)

(** The drawdowns after the first day, from the cumulative return [c] and
    the running maximum [m] reached so far. *)
Definition later_drawdowns (c m : R) (returns : list R) : list R :=
  zip_with (fun c m => (c - m) / m) (cumprod_from c returns)
    (expanding_max_from m (cumprod_from c returns)).

Lemma later_drawdowns_cons (c m r : R) (rest : list R) :
  later_drawdowns c m (r :: rest)
  = (c * (1 + r) - Rmax m (c * (1 + r))) / Rmax m (c * (1 + r))
    :: later_drawdowns (c * (1 + r)) (Rmax m (c * (1 + r))) rest.
Proof. reflexivity. Qed.

Lemma rolling_max_positive (c m : R) (returns : list R) :
  0 < m ->
  forall x, In x (expanding_max_from m (cumprod_from c returns)) -> 0 < x.
Proof.
  revert c m. induction returns as [|r rest IH]; intros c m Hm x;
    [intros []|].
  cbn. pose proof (Rmax_l m (c * (1 + r))) as Hl.
  intros [<- | H]; [lra|]. eapply IH; [|exact H]. lra.
Qed.

Lemma later_drawdowns_bounds (c m : R) (returns : list R) :
  0 < c -> c <= m -> (forall r, In r returns -> -1 < r) ->
  forall d, In d (later_drawdowns c m returns) -> -1 < d <= 0.
Proof.
  revert c m. induction returns as [|r rest IH]; intros c m Hc Hcm Hr d;
    [intros []|].
  rewrite later_drawdowns_cons.
  assert (Hr0 : -1 < r) by (apply Hr; now left).
  set (c' := c * (1 + r)). set (m' := Rmax m c').
  assert (Hc' : 0 < c') by (unfold c'; nra).
  assert (Hm' : c' <= m') by apply Rmax_r.
  intros [<- | H].
  - assert (E : (c' - m') / m' = c' / m' - 1) by (field; lra).
    rewrite E. split.
    + assert (0 < c' / m') by (apply Rdiv_lt_0_compat; lra). lra.
    + assert (c' / m' <= 1); [|lra].
      apply Rmult_le_reg_r with m'; [lra|].
      unfold Rdiv. rewrite Rmult_assoc, Rinv_l; lra.
  - apply (IH c' m' Hc' Hm'); [|exact H]. intros r' Hr'. apply Hr. now right.
Qed.

Lemma later_drawdowns_rising (c : R) (returns : list R) :
  0 < c -> (forall r, In r returns -> 0 <= r) ->
  forall d, In d (later_drawdowns c c returns) -> d = 0.
Proof.
  revert c. induction returns as [|r rest IH]; intros c Hc Hr d; [intros []|].
  rewrite later_drawdowns_cons.
  assert (Hr0 : 0 <= r) by (apply Hr; now left).
  assert (Hc' : c <= c * (1 + r)) by nra.
  rewrite (Rmax_right _ _ Hc').
  intros [<- | H].
  - unfold Rdiv, Rminus. rewrite Rplus_opp_r. apply Rmult_0_l.
  - apply (IH (c * (1 + r))); [lra| |exact H].
    intros r' Hr'. apply Hr. now right.
Qed.

Lemma later_drawdowns_falling (c m : R) (returns : list R) :
  0 < c -> c <= m -> (forall r, In r returns -> -1 < r < 0) ->
  forall d, In d (later_drawdowns c m returns) -> d < 0.
Proof.
  revert c. induction returns as [|r rest IH]; intros c Hc Hcm Hr d;
    [intros []|].
  rewrite later_drawdowns_cons.
  assert (Hr0 : -1 < r < 0) by (apply Hr; now left).
  assert (Hc' : c * (1 + r) < m) by nra.
  rewrite (Rmax_left m (c * (1 + r))) by lra.
  intros [<- | H].
  - unfold Rdiv. assert (0 < / m) by (apply Rinv_0_lt_compat; lra). nra.
  - apply (IH (c * (1 + r))); [nra | lra | | exact H].
    intros r' Hr'. apply Hr. now right.
Qed.

Lemma series_min_In (x : R) (xs : list R) : In (series_min x xs) (x :: xs).
Proof.
  unfold series_min. revert x. induction xs as [|a xs IH]; intros x;
    [now left|].
  cbn [fold_left]. destruct (IH (Rmin x a)) as [E | H].
  - rewrite <- E. destruct (Rmin_case x a (fun z => z = x \/ z = a)); auto.
    + now left.
    + right. now left.
  - right. now right.
Qed.

Lemma last_In (d : R) (xs : list R) : xs <> [] -> In (List.last xs d) xs.
Proof.
  induction xs as [|a xs IH]; intros H; [contradiction|].
  destruct xs as [|b xs]; [now left|].
  right. apply IH. discriminate.
Qed.

Lemma dd_loop_quiet (i start_idx : nat) (dd_periods : list nat)
    (drawdown : list R) :
  (forall d, In d drawdown -> 0 <= d) ->
  dd_loop i false start_idx dd_periods drawdown = dd_periods.
Proof.
  revert i. induction drawdown as [|d rest IH]; intros i H; [reflexivity|].
  cbn [dd_loop]. assert (0 <= d) by (apply H; now left).
  destruct (Rlt_dec d 0); [lra|].
  destruct (Rge_dec d 0); apply IH; intros; apply H; now right.
Qed.

Lemma dd_loop_falling (i start_idx : nat) (b : bool) (dd_periods : list nat)
    (drawdown : list R) :
  (forall d, In d drawdown -> d < 0) ->
  dd_loop i b start_idx dd_periods drawdown = dd_periods.
Proof.
  revert i b start_idx.
  induction drawdown as [|d rest IH]; intros i b start_idx H; [reflexivity|].
  cbn [dd_loop]. assert (d < 0) by (apply H; now left).
  destruct (Rlt_dec d 0); [|lra].
  destruct (Rge_dec d 0); [lra|].
  destruct b; cbn [negb]; apply IH; intros; apply H; now right.
Qed.

Lemma first_drawdown_zero (r : R) : -1 < r -> (1 + r - (1 + r)) / (1 + r) = 0.
Proof. intros H. field. lra. Qed.

(** The shape of the computation on a series with a first day, where the
    returns stay above -100%. *)
Lemma drawdown_unfold (r : R) (rest : list R) :
  (forall x, In x (r :: rest) -> -1 < x) ->
  calculate_maximum_drawdown (r :: rest)
  = let drawdown := 0 :: later_drawdowns (1 + r) (1 + r) rest in
    let dd_periods := dd_loop 0 false 0 [] drawdown in
    Result {| max_drawdown :=
                series_min 0 (later_drawdowns (1 + r) (1 + r) rest);
              max_drawdown_duration := fold_right Nat.max 0%nat dd_periods;
              current_drawdown := List.last drawdown 0;
              drawdown_periods := length dd_periods |}.
Proof.
  intros H. assert (Hr : -1 < r) by (apply H; now left).
  unfold calculate_maximum_drawdown. cbn [is_nil cumprod expanding_max].
  replace (existsb is_zero _) with false.
  - cbn [zip_with]. rewrite (first_drawdown_zero r Hr). reflexivity.
  - symmetry. apply not_true_iff_false. rewrite existsb_exists.
    intros (x & Hx & Hz). unfold is_zero in Hz.
    destruct (Req_dec_T x 0) as [-> |]; [|discriminate].
    destruct Hx as [E | Hx]; [lra|].
    apply rolling_max_positive in Hx; lra.
Qed.

(** X18.  For a series whose returns all stay above -100%, the maximum
    drawdown and the current drawdown lie in (-1, 0].  If no return is
    negative they are 0, and no drawdown period is counted. *)
Theorem drawdown_bounds (returns : list R) :
  returns <> [] ->
  ((forall r, In r returns -> -1 < r) ->
   exists res,
     calculate_maximum_drawdown returns = Result res
     /\ -1 < max_drawdown res <= 0 /\ -1 < current_drawdown res <= 0)
  /\ ((forall r, In r returns -> 0 <= r) ->
      exists res,
        calculate_maximum_drawdown returns = Result res
        /\ max_drawdown res = 0 /\ current_drawdown res = 0
        /\ drawdown_periods res = 0%nat
        /\ max_drawdown_duration res = 0%nat).
Proof.
  destruct returns as [|r rest]; [contradiction|]. intros _. split.
  - intros H. rewrite (drawdown_unfold r rest H). cbv zeta.
    eexists. split; [reflexivity|].
    cbn [max_drawdown current_drawdown].
    assert (Hr : -1 < r) by (apply H; now left).
    assert (Hall : forall d,
               In d (0 :: later_drawdowns (1 + r) (1 + r) rest) ->
               -1 < d <= 0).
    { intros d [<- | Hd]; [lra|].
      apply (later_drawdowns_bounds (1 + r) (1 + r) rest); try lra;
        [|exact Hd].
      intros x Hx. apply H. now right. }
    split; [apply Hall, series_min_In | apply Hall, last_In; discriminate].
  - intros H.
    assert (H1 : forall x, In x (r :: rest) -> -1 < x).
    { intros x Hx. specialize (H x Hx). lra. }
    rewrite (drawdown_unfold r rest H1). cbv zeta.
    eexists. split; [reflexivity|].
    cbn [max_drawdown current_drawdown drawdown_periods
         max_drawdown_duration].
    assert (Hr : 0 <= r) by (apply H; now left).
    assert (Hall : forall d,
               In d (0 :: later_drawdowns (1 + r) (1 + r) rest) -> d = 0).
    { intros d [<- | Hd]; [reflexivity|].
      apply (later_drawdowns_rising (1 + r) rest); [lra| |exact Hd].
      intros x Hx. apply H. now right. }
    rewrite dd_loop_quiet.
    + split; [apply Hall, series_min_In|].
      split; [apply Hall, last_In; discriminate|]. split; reflexivity.
    + intros d Hd. rewrite (Hall d Hd). lra.
Qed.

Lemma drawdown_bounds_witness :
  [1 / 10; 1 / 5] <> []
  /\ (forall r, In r [1 / 10; 1 / 5] -> 0 <= r)
  /\ exists res,
      calculate_maximum_drawdown [1 / 10; 1 / 5] = Result res
      /\ max_drawdown res = 0 /\ drawdown_periods res = 0%nat.
Proof.
  assert (H1 : [1 / 10; 1 / 5] <> []) by discriminate.
  assert (H2 : forall r, In r [1 / 10; 1 / 5] -> 0 <= r).
  { intros r [<- | [<- | []]]; lra. }
  destruct (proj2 (drawdown_bounds _ H1) H2) as (res & E & Hm & _ & Hp & _).
  split; [exact H1|]. split; [exact H2|].
  exists res. split; [exact E|]. split; [exact Hm | exact Hp].
Defined.

(** X19.  A drawdown that has not ended is not counted.  For a series
    that falls every day (every return between -100% and 0, two days at
    least) the maximum drawdown and the current drawdown are below zero,
    yet the number of drawdown periods and the longest duration are both
    reported as 0. *)
Theorem open_drawdown_not_counted (r0 r1 : R) (rest : list R) :
  (forall r, In r (r0 :: r1 :: rest) -> -1 < r < 0) ->
  exists res,
    calculate_maximum_drawdown (r0 :: r1 :: rest) = Result res
    /\ max_drawdown res < 0 /\ current_drawdown res < 0
    /\ drawdown_periods res = 0%nat
    /\ max_drawdown_duration res = 0%nat.
Proof.
  intros H.
  assert (H1 : forall x, In x (r0 :: r1 :: rest) -> -1 < x).
  { intros x Hx. specialize (H x Hx). lra. }
  rewrite (drawdown_unfold r0 (r1 :: rest) H1). cbv zeta.
  eexists. split; [reflexivity|].
  cbn [max_drawdown current_drawdown drawdown_periods max_drawdown_duration].
  assert (Hr0 : -1 < r0 < 0) by (apply H; now left).
  assert (Hneg : forall d,
             In d (later_drawdowns (1 + r0) (1 + r0) (r1 :: rest)) -> d < 0).
  { apply later_drawdowns_falling; [lra | lra|].
    intros x Hx. apply H. now right. }
  assert (Eloop : dd_loop 0 false 0 []
                    (0 :: later_drawdowns (1 + r0) (1 + r0) (r1 :: rest))
                  = []).
  { generalize dependent (later_drawdowns (1 + r0) (1 + r0) (r1 :: rest)).
    intros ds Hds. cbn [dd_loop]. destruct (Rlt_dec 0 0); [lra|].
    destruct (Rge_dec 0 0); cbn [andb negb]; now apply dd_loop_falling. }
  rewrite Eloop.
  remember (later_drawdowns (1 + r0) (1 + r0) (r1 :: rest)) as ds eqn:Eds.
  destruct ds as [|d ds]; [rewrite later_drawdowns_cons in Eds; discriminate|].
  split; [|split; [|split; reflexivity]].
  - unfold series_min. cbn [fold_left].
    destruct (series_min_In (Rmin 0 d) ds) as [E | Hin].
    + unfold series_min in E. rewrite <- E.
      pose proof (Rmin_r 0 d). specialize (Hneg d (or_introl eq_refl)). lra.
    + apply Hneg. now right.
  - change (List.last (0 :: d :: ds) 0) with (List.last (d :: ds) 0).
    apply Hneg, last_In. discriminate.
Qed.

Lemma open_drawdown_not_counted_witness :
  exists res,
    calculate_maximum_drawdown [- (1 / 10); - (1 / 10)] = Result res
    /\ max_drawdown res < 0 /\ current_drawdown res < 0
    /\ drawdown_periods res = 0%nat
    /\ max_drawdown_duration res = 0%nat.
Proof.
  apply (open_drawdown_not_counted (- (1 / 10)) (- (1 / 10)) []).
  intros r [<- | [<- | []]]; lra.
Defined.

End Drawdown.

(** ** modules/risk_calculator.py, the tracking error *)

Module TrackingError.
Import RiskCalculator.
#[local] Open Scope R_scope.

Definition fsub (a b : float) : float :=
  match a, b with Some x, Some y => Some (x - y) | _, _ => None end.

(** [a - b] of two series whose i-th entries carry the same label: the
    labels that only the longer series has give NaN. *)
Fixpoint series_sub (a b : list float) : list float :=
  match a, b with
  | [], _ => List.map (fun _ => None) b
  | _ :: a', [] => None :: series_sub a' []
  | x :: a', y :: b' => fsub x y :: series_sub a' b'
  end.

(** [s.mean()], [s.max()] and [s.min()]: NaN entries are skipped, and a
    series with no number gives NaN. *)
Definition series_mean (s : list float) : float :=
  let v := dropna s in if is_nil v then None else Some (mean v).

Definition series_max (s : list float) : float :=
  match dropna s with
  | [] => None
  | x :: xs => Some (fold_left Rmax xs x)
  end.

Definition series_min (s : list float) : float :=
  match dropna s with
  | [] => None
  | x :: xs => Some (fold_left Rmin xs x)
  end.

Record tracking_result : Type := mk_tracking_result {
  tracking_error : float;
  information_ratio : float;
  average_active_return : float;
  max_active_return : float;
  min_active_return : float;
  active_return_volatility : float
}.

(** [None] is the empty dict of the guard at the top.  The arithmetic is
    that of the reals: it is the code's where no operation rounds, as for
    a series against itself; where the active returns are equal only up
    to rounding, the code's standard deviation is a small positive
    number, its guard passes and its information ratio is large. *)
Definition calculate_tracking_error
    (portfolio_returns benchmark_returns : list float)
  : option tracking_result :=
  if is_nil portfolio_returns || is_nil benchmark_returns then None
  else
    let active_returns := series_sub portfolio_returns benchmark_returns in
    let tracking_error := fmul (std active_returns) (Some (sqrt 252)) in
    let average_active_return :=
      fmul (series_mean active_returns) (Some 252) in
    let information_ratio :=
      if fpos tracking_error
      then fdiv average_active_return tracking_error
      else Some 0 in
    Some {| tracking_error := tracking_error;
            information_ratio := information_ratio;
            average_active_return := average_active_return;
            max_active_return := series_max active_returns;
            min_active_return := series_min active_returns;
            active_return_volatility := std active_returns |}.

(** Three days, the second without a return. *)
Definition gapped_series : list float :=
  [Some (1 / 100); None; Some (- (2 / 100))].

(** *** A portfolio that is its benchmark *)

Lemma series_sub_self (s : list float) :
  series_sub s s
  = List.map (fun x => match x with Some _ => Some 0 | None => None end) s.
Proof.
  induction s as [|x s IH]; [reflexivity|].
  cbn [List.map series_sub]. rewrite IH. f_equal.
  destruct x as [x|]; [|reflexivity]. cbn [fsub]. f_equal. ring.
Qed.

Lemma dropna_self_zero (s : list float) :
  dropna (List.map (fun x => match x with Some _ => Some 0 | None => None end)
            s)
  = List.map (fun _ => 0) (dropna s).
Proof.
  unfold dropna. induction s as [|x s IH]; [reflexivity|].
  destruct x as [x|]; cbn; [f_equal|]; exact IH.
Qed.

Lemma Rsum_const (k : R) (bs : list R) :
  Rsum (List.map (fun _ => k) bs) = INR (length bs) * k.
Proof.
  induction bs as [|b bs IH]; [cbn; ring|].
  change (k + Rsum (List.map (fun _ => k) bs) = INR (S (length bs)) * k).
  rewrite IH, S_INR. ring.
Qed.

Lemma mean_const (k : R) (bs : list R) :
  bs <> [] -> mean (List.map (fun _ => k) bs) = k.
Proof.
  intros H. unfold mean. rewrite Rsum_const, length_map. field.
  apply not_0_INR. destruct bs; [contradiction | discriminate].
Qed.

Lemma Rsum_vanishes (f : R -> R) (xs : list R) :
  (forall x, In x xs -> f x = 0) -> Rsum (List.map f xs) = 0.
Proof.
  induction xs as [|x xs IH]; intros H; [reflexivity|].
  change (f x + Rsum (List.map f xs) = 0).
  rewrite (H x (or_introl eq_refl)), IH; [ring|].
  intros y Hy. apply H. now right.
Qed.

Lemma std_values_const (k : R) (bs : list R) :
  (2 <= length bs)%nat -> std_values (List.map (fun _ => k) bs) = Some 0.
Proof.
  intros Hn. unfold std_values. rewrite length_map.
  replace (length bs <=? 1)%nat with false
    by (symmetry; apply Nat.leb_gt; lia).
  assert (Hne : bs <> []) by (destruct bs; [cbn in Hn; lia | discriminate]).
  rewrite (mean_const k bs Hne), Rsum_vanishes.
  - unfold Rdiv. rewrite Rmult_0_l, sqrt_0. reflexivity.
  - intros x Hx. apply in_map_iff in Hx as (b & <- & _). ring.
Qed.

Lemma fold_max_const (k : R) (bs : list R) :
  fold_left Rmax (List.map (fun _ => k) bs) k = k.
Proof.
  induction bs as [|b bs IH]; [reflexivity|].
  cbn [List.map fold_left]. rewrite Rmax_left by lra. exact IH.
Qed.

Lemma fold_min_const (k : R) (bs : list R) :
  fold_left Rmin (List.map (fun _ => k) bs) k = k.
Proof.
  induction bs as [|b bs IH]; [reflexivity|].
  cbn [List.map fold_left]. rewrite Rmin_left by lra. exact IH.
Qed.

Lemma is_nil_dropna (s : list float) : dropna s <> [] -> is_nil s = false.
Proof. destruct s; [intros H; now contradiction H | reflexivity]. Qed.

(** X20.  A portfolio measured against itself: for a series with two
    numbers or more (NaN entries allowed) the active returns are 0 where
    there is a number, so the tracking error, the active-return
    volatility, the average active return and the largest and smallest
    active return are all 0, and the information ratio is reported as 0
    by the guard for a tracking error that is not positive (no division
    of 0 by 0).  For any two series of one number each the tracking
    error is NaN and the information ratio is 0 again. *)
Theorem tracking_error_of_benchmark_itself :
  (forall s : list float,
      (2 <= length (dropna s))%nat ->
      calculate_tracking_error s s
      = Some {| tracking_error := Some 0;
                information_ratio := Some 0;
                average_active_return := Some 0;
                max_active_return := Some 0;
                min_active_return := Some 0;
                active_return_volatility := Some 0 |})
  /\ (forall p b : R,
        exists res,
          calculate_tracking_error [Some p] [Some b] = Some res
          /\ tracking_error res = None
          /\ active_return_volatility res = None
          /\ information_ratio res = Some 0).
Proof.
  split.
  - intros s Hn. unfold calculate_tracking_error.
    assert (Hne : dropna s <> []).
    { destruct (dropna s); [cbn in Hn; lia | discriminate]. }
    rewrite (is_nil_dropna s Hne). cbn [orb].
    rewrite series_sub_self.
    unfold std, series_mean, series_max, series_min.
    rewrite dropna_self_zero, (std_values_const 0 (dropna s) Hn).
    replace (is_nil (List.map (fun _ : R => 0) (dropna s))) with false
      by (destruct (dropna s); [contradiction | reflexivity]).
    rewrite (mean_const 0 (dropna s) Hne).
    destruct (dropna s) as [|x xs]; [contradiction|]. cbn [List.map].
    rewrite fold_max_const, fold_min_const.
    cbn [fmul]. rewrite !Rmult_0_l.
    replace (fpos (Some 0)) with false; [reflexivity|].
    unfold fpos. destruct (Rlt_dec 0 0); [lra | reflexivity].
  - intros p b. unfold calculate_tracking_error. cbn [is_nil orb].
    eexists. split; [reflexivity|].
    cbn [tracking_error information_ratio active_return_volatility].
    cbn [series_sub fsub List.map].
    unfold std, std_values, dropna. cbn [omap length Nat.leb].
    cbn. repeat split; reflexivity.
Qed.

Lemma tracking_error_of_benchmark_itself_witness :
  (2 <= length (dropna gapped_series))%nat
  /\ calculate_tracking_error gapped_series gapped_series
     = Some {| tracking_error := Some 0;
               information_ratio := Some 0;
               average_active_return := Some 0;
               max_active_return := Some 0;
               min_active_return := Some 0;
               active_return_volatility := Some 0 |}.
Proof.
  assert (H : (2 <= length (dropna gapped_series))%nat) by (cbn; lia).
  split; [exact H|].
  exact (proj1 tracking_error_of_benchmark_itself _ H).
Defined.

End TrackingError.

(** ** utils/helpers.py, returns and cumulative returns *)

Module Helpers.
Import RiskCalculator Drawdown.
#[local] Open Scope R_scope.

(** [prices.pct_change()] for prices without NaN: NaN on the first day,
    then [p / previous - 1]. *)
Fixpoint pct_change_from (previous : R) (prices : list R) : list float :=
  match prices with
  | [] => []
  | p :: rest => Some (p / previous - 1) :: pct_change_from p rest
  end.

Definition pct_change (prices : list R) : list float :=
  match prices with
  | [] => []
  | p :: rest => None :: pct_change_from p rest
  end.

(** What [calculate_returns] gives: the series of returns, or, where a
    price that a later one is divided by is 0, infinite or NaN returns
    that this model has no numbers for. *)
Inductive returns_outcome : Type :=
| DividesByZero
| Returns (returns : list R).

Definition calculate_returns (prices : list R) : returns_outcome :=
  if existsb is_zero (removelast prices) then DividesByZero
  else Returns (dropna (pct_change prices)).

Definition calculate_cumulative_returns (returns : list R) : list R :=
  List.map (fun c => c - 1) (cumprod returns).

(** *** From prices to returns and back *)

Lemma dropna_pct_change_length (q : R) (ps : list R) :
  length (dropna (pct_change_from q ps)) = length ps.
Proof.
  revert q. induction ps as [|p ps IH]; intros q; [reflexivity|].
  cbn. f_equal. apply IH.
Qed.

Lemma cumprod_pct_change (p0 q c : R) (ps : list R) :
  p0 <> 0 -> c = q / p0 ->
  (forall x, In x (removelast (q :: ps)) -> x <> 0) ->
  cumprod_from c (dropna (pct_change_from q ps))
  = List.map (fun p => p / p0) ps.
Proof.
  intros H0. revert q c. induction ps as [|p ps IH]; intros q c Hc H;
    [reflexivity|].
  change (removelast (q :: p :: ps)) with (q :: removelast (p :: ps)) in H.
  assert (Hq : q <> 0) by (apply H; now left).
  change (dropna (pct_change_from q (p :: ps)))
    with ((p / q - 1) :: dropna (pct_change_from p ps)).
  cbn [cumprod_from List.map].
  assert (E : c * (1 + (p / q - 1)) = p / p0) by (subst c; now field).
  cbv zeta. rewrite E. f_equal. apply IH; [reflexivity|].
  intros x Hx. apply H. now right.
Qed.

Lemma removelast_nonzero (prices : list R) :
  (forall x, In x (removelast prices) -> x <> 0) ->
  existsb is_zero (removelast prices) = false.
Proof.
  intros H. apply not_true_iff_false. rewrite existsb_exists.
  intros (x & Hx & Hz). unfold is_zero in Hz.
  destruct (Req_dec_T x 0) as [E|]; [|discriminate].
  exact (H x Hx E).
Qed.

(** X21.  Prices to returns and back: when no price that a later price
    is divided by is 0, [calculate_returns] gives one return for each day
    after the first, and the cumulative returns of these returns are the
    prices relative to the first price, less one. *)
Theorem cumulative_returns_of_price_returns (p0 : R) (ps : list R) :
  (forall x, In x (removelast (p0 :: ps)) -> x <> 0) ->
  exists returns,
    calculate_returns (p0 :: ps) = Returns returns
    /\ length returns = length ps
    /\ calculate_cumulative_returns returns
       = List.map (fun p => p / p0 - 1) ps.
Proof.
  intros H. unfold calculate_returns.
  rewrite (removelast_nonzero _ H).
  eexists. split; [reflexivity|].
  change (dropna (pct_change (p0 :: ps)))
    with (dropna (pct_change_from p0 ps)).
  split; [apply dropna_pct_change_length|].
  unfold calculate_cumulative_returns.
  destruct ps as [|p ps]; [reflexivity|].
  change (removelast (p0 :: p :: ps)) with (p0 :: removelast (p :: ps)) in H.
  assert (H0 : p0 <> 0) by (apply H; now left).
  change (dropna (pct_change_from p0 (p :: ps)))
    with ((p / p0 - 1) :: dropna (pct_change_from p ps)).
  cbn [cumprod List.map].
  assert (E : 1 + (p / p0 - 1) = p / p0) by ring.
  rewrite E. f_equal.
  rewrite (cumprod_pct_change p0 p (p / p0) ps H0 eq_refl).
  - rewrite List.map_map. reflexivity.
  - intros x Hx. apply H. now right.
Qed.

Lemma cumulative_returns_of_price_returns_witness :
  exists returns,
    calculate_returns [100; 110; 99] = Returns returns
    /\ length returns = 2%nat
    /\ calculate_cumulative_returns returns
       = [110 / 100 - 1; 99 / 100 - 1].
Proof.
  apply (cumulative_returns_of_price_returns 100 [110; 99]).
  intros x [<- | [<- | []]]; lra.
Defined.

End Helpers.

(** ** modules/risk_calculator.py, the stress test *)

Module StressTest.
Import RiskCalculator.
#[local] Open Scope R_scope.

(** [np.diag] of a square matrix. *)
Definition diag (m : list (list float)) : list float :=
  imap (fun i row => default None (row !! i)) m.

(** [np.outer] *)
Definition outer (a b : list float) : list (list float) :=
  List.map (fun x => List.map (fun y => fmul x y) b) a.

(** [np.full((n, n), correlation_shock)] with its diagonal filled with
    1.0. *)
Definition stressed_corr (n : nat) (correlation_shock : R)
  : list (list float) :=
  List.map
    (fun i =>
       List.map
         (fun j => Some (if (i =? j)%nat then 1 else correlation_shock))
         (seq 0 n))
    (seq 0 n).

Record stress_result : Type := mk_stress_result {
  normal_portfolio_vol : float;
  stressed_portfolio_vol : float;
  stress_multiplier : float;
  stress_factor : R;
  correlation_shock : R
}.

(** [None] is the empty dict: the guard at the top, or the [ValueError]
    of [np.dot] on shapes that do not agree. *)
Definition stress_test_scenario
    (returns : list (list R)) (weights : list R)
    (stress_factor correlation_shock : R) : option stress_result :=
  if table_empty returns || is_nil weights then None
  else if negb (length returns =? length weights)%nat then None
  else
    let w := to_floats weights in
    let daily_normal_cov := cov_matrix returns in
    let daily_normal_vol := List.map fsqrt (diag daily_normal_cov) in
    let daily_stressed_vol :=
      List.map (fun v => fmul v (Some stress_factor)) daily_normal_vol in
    let n := length returns in
    let stressed_corr := stressed_corr n correlation_shock in
    let daily_stressed_cov :=
      zip_with (zip_with fmul)
        (outer daily_stressed_vol daily_stressed_vol) stressed_corr in
    let daily_normal_portfolio_var := dot w (mat_vec daily_normal_cov w) in
    let daily_normal_portfolio_vol := fsqrt daily_normal_portfolio_var in
    let daily_stressed_portfolio_var :=
      dot w (mat_vec daily_stressed_cov w) in
    let daily_stressed_portfolio_vol := fsqrt daily_stressed_portfolio_var in
    let stress_multiplier :=
      if fpos daily_normal_portfolio_vol
      then fdiv daily_stressed_portfolio_vol daily_normal_portfolio_vol
      else Some 1 in
    Some {| normal_portfolio_vol := daily_normal_portfolio_vol;
            stressed_portfolio_vol := daily_stressed_portfolio_vol;
            stress_multiplier := stress_multiplier;
            stress_factor := stress_factor;
            correlation_shock := correlation_shock |}.

(** The sample standard deviation of a column of two values or more. *)
Definition sd (xs : list R) : R :=
  sqrt (Rsum (List.map (fun a => (a - mean xs) * (a - mean xs)) xs)
        / INR (length xs - 1)).

(** *** The stressed covariance at full correlation *)

Lemma std_values_sd (xs : list R) :
  (2 <= length xs)%nat -> std_values xs = Some (sd xs).
Proof.
  intros H. unfold std_values, sd.
  now replace (length xs <=? 1)%nat with false
    by (symmetry; apply Nat.leb_gt; lia).
Qed.

Lemma fsqrt_cov_diag (xs : list R) :
  (2 <= length xs)%nat -> fsqrt (cov xs xs) = Some (sd xs).
Proof.
  intros H. unfold cov, sd. rewrite zip_with_diag.
  assert (E : (length xs <=? 1)%nat = false) by (apply Nat.leb_gt; lia).
  rewrite E. cbn [fsqrt].
  destruct (Rlt_dec _ 0) as [Hneg|]; [|reflexivity].
  exfalso. revert Hneg. apply Rle_not_lt.
  apply Rmult_le_pos; [apply Rsum_squares_nonneg|].
  left. apply Rinv_0_lt_compat, INR_pred_pos, E.
Qed.

Lemma diag_cov_matrix (returns : list (list R)) :
  diag (cov_matrix returns) = List.map (fun xs => cov xs xs) returns.
Proof.
  apply list_eq. intros i. unfold diag, cov_matrix.
  rewrite list_lookup_imap.
  change (List.map ?f ?l) with (f <$> l).
  rewrite !list_lookup_fmap.
  destruct (returns !! i) as [xs|] eqn:E; [|reflexivity].
  cbn. change (List.map ?f ?l) with (f <$> l).
  rewrite list_lookup_fmap, E. reflexivity.
Qed.

Lemma stressed_vol_values (s : R) (returns : list (list R)) :
  Forall (fun xs => (2 <= length xs)%nat) returns ->
  List.map (fun v => fmul v (Some s))
    (List.map fsqrt (diag (cov_matrix returns)))
  = List.map Some (List.map (fun xs => sd xs * s) returns).
Proof.
  intros H. rewrite diag_cov_matrix, !List.map_map.
  apply List.map_ext_in. intros xs Hxs.
  rewrite fsqrt_cov_diag; [reflexivity|].
  rewrite List.Forall_forall in H. now apply H.
Qed.

Lemma outer_values (l vs : list R) :
  outer (List.map Some l) (List.map Some vs)
  = List.map (fun x => List.map (fun y => Some (x * y)) vs) l.
Proof.
  unfold outer. rewrite List.map_map. apply List.map_ext. intros x.
  rewrite List.map_map. reflexivity.
Qed.

Lemma full_correlation_row (f : R -> R) (i k : nat) (l : list R) :
  zip_with fmul (List.map (fun y => Some (f y)) l)
    (List.map (fun j => Some (if (i =? j)%nat then 1 else 1))
       (seq k (length l)))
  = List.map (fun y => Some (f y)) l.
Proof.
  revert k. induction l as [|y l IH]; intros k; [reflexivity|].
  cbn [length seq List.map zip_with fmul]. rewrite IH. do 2 f_equal.
  destruct (i =? k)%nat; ring.
Qed.

Lemma full_correlation (vs l : list R) (k : nat) :
  zip_with (zip_with fmul)
    (List.map (fun x => List.map (fun y => Some (x * y)) vs) l)
    (List.map
       (fun i =>
          List.map (fun j => Some (if (i =? j)%nat then 1 else 1))
            (seq 0 (length vs)))
       (seq k (length l)))
  = List.map (fun x => List.map (fun y => Some (x * y)) vs) l.
Proof.
  revert k. induction l as [|x l IH]; intros k; [reflexivity|].
  cbn [length seq List.map zip_with]. rewrite IH. f_equal.
  apply (full_correlation_row (fun y => x * y)).
Qed.

Lemma Rsum_zip_comm (a b : list R) :
  Rsum (zip_with Rmult a b) = Rsum (zip_with Rmult b a).
Proof.
  revert b. induction a as [|x a IH]; intros [|y b]; try reflexivity.
  cbn [zip_with]. change (x * y + Rsum (zip_with Rmult a b)
                          = y * x + Rsum (zip_with Rmult b a)).
  rewrite IH. ring.
Qed.

Lemma dot_scaled_row (x : R) (vs ws : list R) :
  dot (List.map (fun y => Some (x * y)) vs) (to_floats ws)
  = Some (x * Rsum (zip_with Rmult vs ws)).
Proof.
  unfold dot, to_floats. revert ws.
  induction vs as [|y vs IH]; intros [|w ws];
    try (cbn; f_equal; ring).
  cbn [List.map zip_with fmul].
  change (fadd (Some (x * y * w))
            (fsum (zip_with fmul (List.map (fun y => Some (x * y)) vs)
                     (List.map Some ws)))
          = Some (x * (y * w + Rsum (zip_with Rmult vs ws)))).
  rewrite IH. cbn [fadd]. f_equal. ring.
Qed.

Lemma dot_scaled_column (t : R) (ws vs : list R) :
  dot (to_floats ws) (List.map (fun x => Some (x * t)) vs)
  = Some (Rsum (zip_with Rmult ws vs) * t).
Proof.
  unfold dot, to_floats. revert vs.
  induction ws as [|w ws IH]; intros [|x vs];
    try (cbn; f_equal; ring).
  cbn [List.map zip_with fmul].
  change (fadd (Some (w * (x * t)))
            (fsum (zip_with fmul (List.map Some ws)
                     (List.map (fun x => Some (x * t)) vs)))
          = Some ((w * x + Rsum (zip_with Rmult ws vs)) * t)).
  rewrite IH. cbn [fadd]. f_equal. ring.
Qed.

Lemma stressed_variance (vs ws : list R) :
  dot (to_floats ws)
    (mat_vec (List.map (fun x => List.map (fun y => Some (x * y)) vs) vs)
       (to_floats ws))
  = Some (Rsum (zip_with Rmult vs ws) * Rsum (zip_with Rmult vs ws)).
Proof.
  unfold mat_vec. rewrite List.map_map.
  rewrite (List.map_ext _ (fun x => Some (x * Rsum (zip_with Rmult vs ws))))
    by (intros x; apply dot_scaled_row).
  rewrite dot_scaled_column, (Rsum_zip_comm ws vs). reflexivity.
Qed.

Lemma weighted_sd (returns : list (list R)) (ws : list R) :
  Forall (fun xs => (2 <= length xs)%nat) returns ->
  sum_skipna (zip_with fmul (List.map std_values returns) (to_floats ws))
  = Rsum (zip_with Rmult (List.map sd returns) ws).
Proof.
  unfold sum_skipna, to_floats. intros H. revert ws.
  induction H as [|xs returns Hxs H IH]; intros [|w ws]; try reflexivity.
  cbn [List.map zip_with]. rewrite (std_values_sd xs Hxs).
  cbn [fmul omap]. specialize (IH ws).
  change (sd xs * w
          + Rsum (omap (fun x => x)
                    (zip_with fmul (List.map std_values returns)
                       (List.map Some ws)))
          = sd xs * w + Rsum (zip_with Rmult (List.map sd returns) ws)).
  now rewrite IH.
Qed.

Lemma stressed_sum (s : R) (returns : list (list R)) (ws : list R) :
  Rsum (zip_with Rmult (List.map (fun xs => sd xs * s) returns) ws)
  = s * Rsum (zip_with Rmult (List.map sd returns) ws).
Proof.
  revert ws. induction returns as [|xs returns IH]; intros [|w ws];
    try (cbn; ring).
  cbn [List.map zip_with].
  change (sd xs * s * w
          + Rsum (zip_with Rmult (List.map (fun xs => sd xs * s) returns) ws)
          = s * (sd xs * w
                 + Rsum (zip_with Rmult (List.map sd returns) ws))).
  rewrite IH. ring.
Qed.

Lemma weighted_sd_nonneg (returns : list (list R)) (ws : list R) :
  (forall w, In w ws -> 0 <= w) ->
  0 <= Rsum (zip_with Rmult (List.map sd returns) ws).
Proof.
  revert ws. induction returns as [|xs returns IH]; intros [|w ws] H;
    try (cbn; lra).
  cbn [List.map zip_with].
  change (0 <= sd xs * w + Rsum (zip_with Rmult (List.map sd returns) ws)).
  assert (0 <= sd xs) by apply sqrt_pos.
  assert (0 <= w) by (apply H; now left).
  assert (0 <= Rsum (zip_with Rmult (List.map sd returns) ws))
    by (apply IH; intros; apply H; now right).
  nra.
Qed.

(** X22.  The stress test at full correlation.  On a table whose columns
    have two observations or more, with [correlation_shock = 1], the
    stressed portfolio volatility is the absolute value of the stress
    factor times the weighted average of the individual volatilities
    that [calculate_portfolio_risk] reports, and the normal volatility is
    the portfolio volatility of that function.  With a stress factor and
    weights that are not negative and a positive portfolio volatility,
    the stress multiplier is the stress factor times the diversification
    ratio. *)
Theorem stress_at_full_correlation
    (returns : list (list R)) (weights : list R) (s : R) :
  returns <> [] ->
  Forall (fun xs => (2 <= length xs)%nat) returns ->
  length returns = length weights ->
  exists res pr,
    stress_test_scenario returns weights s 1 = Some res
    /\ calculate_portfolio_risk returns weights = Some pr
    /\ normal_portfolio_vol res = portfolio_volatility pr
    /\ stressed_portfolio_vol res
       = Some (Rabs (s * weighted_avg_volatility pr))
    /\ (0 <= s -> (forall w, In w weights -> 0 <= w) ->
        forall v, portfolio_volatility pr = Some v -> 0 < v ->
        stress_multiplier res = Some (s * diversification_ratio pr)).
Proof.
  intros Hne Hcols Hlen.
  unfold stress_test_scenario, calculate_portfolio_risk.
  assert (Et : table_empty returns || is_nil weights = false).
  { destruct returns as [|xs returns]; [contradiction|].
    destruct weights as [|w weights]; [discriminate|].
    apply Forall_cons in Hcols as [Hxs _].
    destruct xs; [cbn in Hxs; lia | reflexivity]. }
  rewrite Et, Hlen, Nat.eqb_refl. cbn [negb].
  do 2 eexists. split; [reflexivity|]. split; [reflexivity|].
  cbn [normal_portfolio_vol stressed_portfolio_vol stress_multiplier
       portfolio_volatility weighted_avg_volatility diversification_ratio].
  split; [reflexivity|].
  rewrite (stressed_vol_values s returns Hcols).
  set (vs := List.map (fun xs => sd xs * s) returns).
  rewrite outer_values. unfold stressed_corr.
  replace (length weights) with (length vs)
    by (unfold vs; now rewrite length_map).
  rewrite (full_correlation vs vs 0), stressed_variance.
  unfold vs. rewrite stressed_sum, (weighted_sd returns weights Hcols).
  set (a := Rsum (zip_with Rmult (List.map sd returns) weights)).
  assert (Esq : fsqrt (Some (s * a * (s * a))) = Some (Rabs (s * a))).
  { cbn [fsqrt]. destruct (Rlt_dec _ 0) as [Hneg|].
    - exfalso. pose proof (Rle_0_sqr (s * a)) as Hsq. unfold Rsqr in Hsq.
      lra.
    - f_equal. apply sqrt_Rsqr_abs. }
  rewrite Esq. split; [reflexivity|].
  intros Hs Hw v Hv Hpos. rewrite Hv.
  cbn [fpos]. destruct (Rlt_dec 0 v); [|contradiction].
  cbn [fdiv]. f_equal.
  assert (Ha : 0 <= a) by (apply weighted_sd_nonneg, Hw).
  rewrite Rabs_right by nra. unfold Rdiv. ring.
Qed.

Lemma stress_at_full_correlation_witness :
  exists res pr,
    stress_test_scenario sample_returns even_weights 2 1 = Some res
    /\ calculate_portfolio_risk sample_returns even_weights = Some pr
    /\ normal_portfolio_vol res = portfolio_volatility pr
    /\ stressed_portfolio_vol res
       = Some (Rabs (2 * weighted_avg_volatility pr))
    /\ (0 <= 2 -> (forall w, In w even_weights -> 0 <= w) ->
        forall v, portfolio_volatility pr = Some v -> 0 < v ->
        stress_multiplier res = Some (2 * diversification_ratio pr)).
Proof.
  apply (stress_at_full_correlation sample_returns even_weights 2).
  - discriminate.
  - repeat constructor; cbn; lia.
  - reflexivity.
Defined.

End StressTest.
